(** * f5-declarative-onboarding: declaration parser, config manager, diff handler

    A shallow embedding of [nodejs/declarationParser.js], [nodejs/diffHandler.js]
    and the config manager ([ConfigManager.get] and its helpers), with the
    properties of the reconciliation pipeline stated and proved over it.

    JavaScript values are embedded as a tree type [json].  Objects are
    association lists in insertion order, which is the order [Object.keys]
    enumerates (integer-like keys, which JavaScript enumerates first, are kept
    in insertion order too).  Inherited properties ([toString], [constructor],
    ...) are not part of the embedding: property reads see own properties
    only.  Numbers are integers. *)

From Stdlib Require Import ZArith String Ascii List Bool Lia.
From stdpp Require Import base option list strings pretty gmap.

Local Open Scope Z_scope.
Local Open Scope nat_scope.

(** ** JavaScript values *)

Unset Elimination Schemes.
Inductive json : Type :=
  | JUndef                                   (* undefined, array holes *)
  | JNull
  | JBool (b : bool)
  | JNum (n : Z)
  | JStr (s : string)
  | JArr (items : list json)
  | JObj (props : list (string * json)).
Set Elimination Schemes.

Section json_induction.
Variable P : json → Prop.
Hypothesis Hundef : P JUndef.
Hypothesis Hnull : P JNull.
Hypothesis Hbool : ∀ b, P (JBool b).
Hypothesis Hnum : ∀ n, P (JNum n).
Hypothesis Hstr : ∀ s, P (JStr s).
Hypothesis Harr : ∀ items, Forall P items → P (JArr items).
Hypothesis Hobj : ∀ props, Forall (λ kv, P kv.2) props → P (JObj props).

Fixpoint json_ind (j : json) : P j :=
  match j with
  | JUndef => Hundef
  | JNull => Hnull
  | JBool b => Hbool b
  | JNum n => Hnum n
  | JStr s => Hstr s
  | JArr items =>
      Harr items
        ((fix go (l : list json) : Forall P l :=
            match l with
            | [] => Forall_nil_2 P
            | x :: l' => Forall_cons_2 P x l' (json_ind x) (go l')
            end) items)
  | JObj props =>
      Hobj props
        ((fix go (l : list (string * json)) : Forall (λ kv, P kv.2) l :=
            match l with
            | [] => Forall_nil_2 _
            | kv :: l' =>
                Forall_cons_2 (λ kv, P kv.2) kv l' (json_ind kv.2) (go l')
            end) props)
  end.
End json_induction.

Definition is_undef (v : json) : bool :=
  match v with JUndef => true | _ => false end.

(** Strict equality [===] on primitives; two object (or array) operands are
    compared by identity in JavaScript, which never holds between a value
    and a literal, so they compare unequal here. *)
Definition strict_eqb (a b : json) : bool :=
  match a, b with
  | JUndef, JUndef => true
  | JNull, JNull => true
  | JBool x, JBool y => bool_decide (x = y)
  | JNum x, JNum y => bool_decide (x = y)
  | JStr x, JStr y => bool_decide (x = y)
  | _, _ => false
  end.

(** Truthiness, as tested by [if (v)], [!v] and [a || b]. *)
Definition truthy (v : json) : bool :=
  match v with
  | JUndef | JNull => false
  | JBool b => b
  | JNum n => negb (bool_decide (n = 0%Z))
  | JStr s => negb (bool_decide (s = ""))
  | JArr _ | JObj _ => true
  end.

Definition is_object_type (v : json) : bool :=   (* typeof v === 'object' *)
  match v with JNull | JArr _ | JObj _ => true | _ => false end.

Definition is_string (v : json) : bool :=         (* typeof v === 'string' *)
  match v with JStr _ => true | _ => false end.

Definition is_array (v : json) : bool :=          (* Array.isArray(v) *)
  match v with JArr _ => true | _ => false end.

(** ** Exceptions *)

Inductive exn :=
  | TypeError (msg : string)     (* thrown by the JavaScript runtime *)
  | SyntaxError (msg : string)
  | Error (msg : string)         (* new Error(msg) *)
  | Unsupported (what : string). (* a JavaScript value the embedding has no
                                    term for, e.g. an array with a named
                                    property *)

Inductive result (A : Type) :=
  | Ok (a : A)
  | Throw (e : exn).
Arguments Ok {A} a.
Arguments Throw {A} e.

Global Instance result_ret : MRet result := λ A x, Ok x.
Global Instance result_bind : MBind result := λ A B f m,
  match m with Ok a => f a | Throw e => Throw e end.
Global Instance result_fmap : FMap result := λ A B f m,
  match m with Ok a => Ok (f a) | Throw e => Throw e end.

(** [forEach] with a callback that may throw: left to right, stops at the
    first exception. *)
Fixpoint foldM {A S : Type} (f : S → A → result S) (s : S) (l : list A)
    : result S :=
  match l with
  | [] => Ok s
  | x :: l' => s' ← f s x; foldM f s' l'
  end.

Fixpoint mapM_result {A B : Type} (f : A → result B) (l : list A)
    : result (list B) :=
  match l with
  | [] => Ok []
  | x :: l' => y ← f x; ys ← mapM_result f l'; Ok (y :: ys)
  end.

(** ** Own properties *)

(** An object's own properties, in insertion order.  Keys are distinct in
    every JavaScript object; [wf_json] below states it. *)
Abbreviation alist V := (list (string * V)).
Abbreviation props := (alist json).

Fixpoint aget {V} (o : alist V) (k : string) : option V :=
  match o with
  | [] => None
  | (k', v) :: o' => if decide (k' = k) then Some v else aget o' k
  end.

(** [o[k] = v]: an existing key keeps its position, a new key goes last. *)
Fixpoint aset {V} (o : alist V) (k : string) (v : V) : alist V :=
  match o with
  | [] => [(k, v)]
  | (k', v') :: o' =>
      if decide (k' = k) then (k, v) :: o' else (k', v') :: aset o' k v
  end.

(** [delete o[k]] *)
Definition adel {V} (o : alist V) (k : string) : alist V :=
  filter (λ kv, kv.1 ≠ k) o.

Definition obj_get : props → string → option json := aget.
Definition obj_set : props → string → json → props := aset.
Definition obj_delete : props → string → props := adel.

Definition obj_keys (o : props) : list string := o.*1.

(** Array index [i] as a property key, and back. *)
Definition index_key (i : nat) : string := pretty i.

Definition key_index (n : nat) (k : string) : option nat :=
  fst <$> list_find (λ i, index_key i = k) (seq 0 n).

Fixpoint chars (s : string) : list json :=
  match s with
  | EmptyString => []
  | String c s' => JStr (String c EmptyString) :: chars s'
  end.

Definition indexed (l : list json) : props :=
  filter (λ kv, is_undef kv.2 = false)
    (zip (index_key <$> seq 0 (length l)) l).

(** The own enumerable properties of a value, as [Object.keys] and
    [Object.assign] see them.  [null] and [undefined] are handled by the
    callers, which differ on them. *)
Definition own_props (v : json) : props :=
  match v with
  | JObj o => o
  | JArr l => indexed l
  | JStr s => indexed (chars s)
  | _ => []
  end.

(** [Object.keys(v)] *)
Definition object_keys (v : json) : result (list string) :=
  match v with
  | JUndef | JNull =>
      Throw (TypeError "Cannot convert undefined or null to object")
  | _ => Ok (obj_keys (own_props v))
  end.

(** [Object.assign(target, source)] on a plain target object. *)
Definition object_assign (target : props) (source : json) : props :=
  fold_left (λ t kv, obj_set t kv.1 kv.2) (own_props source) target.

(** [v[k]] for a defined, non-null [v]; [JUndef] when there is no such
    property. *)
Definition get_prop (v : json) (k : string) : json :=
  match v with
  | JObj o => default JUndef (obj_get o k)
  | JArr l =>
      match key_index (length l) k with
      | Some i => default JUndef (l !! i)
      | None => if decide (k = "length") then JNum (Z.of_nat (length l))
                else JUndef
      end
  | JStr s =>
      match key_index (String.length s) k with
      | Some i => default JUndef (chars s !! i)
      | None => if decide (k = "length") then JNum (Z.of_nat (String.length s))
                else JUndef
      end
  | _ => JUndef
  end.

(** [v.k] where [v] may be anything. *)
Definition read_prop (v : json) (k : string) : result json :=
  match v with
  | JUndef | JNull =>
      Throw (TypeError ("Cannot read property '" +:+ k +:+ "' of " +:+
                        (if v is JNull then "null" else "undefined")))
  | _ => Ok (get_prop v k)
  end.

(** [v[k] = x] in strict mode. *)
Definition set_prop (v : json) (k : string) (x : json) : result json :=
  match v with
  | JUndef | JNull => Throw (TypeError "Cannot set property of undefined or null")
  | JObj o => Ok (JObj (obj_set o k x))
  | JArr l =>
      match key_index (length l) k with
      | Some i => Ok (JArr (<[i := x]> l))
      | None => Throw (Unsupported "array property outside its range")
      end
  | _ => Throw (TypeError "Cannot create property on a primitive value")
  end.

(** [delete v[k]] *)
Definition delete_prop (v : json) (k : string) : result json :=
  match v with
  | JUndef | JNull =>
      Throw (TypeError "Cannot convert undefined or null to object")
  | JObj o => Ok (JObj (obj_delete o k))
  | JArr l =>
      match key_index (length l) k with
      | Some i => Ok (JArr (<[i := JUndef]> l))
      | None => Ok v
      end
  | _ => Ok v
  end.

(** [v[p1][p2]...] *)
Fixpoint get_path (v : json) (path : list string) : json :=
  match path with
  | [] => v
  | k :: path' => get_path (get_prop v k) path'
  end.

(** Run [f] on the object found at [path] below [v]: the embedding of a
    mutation through a reference to that object. *)
Fixpoint update_path (v : json) (path : list string)
    (f : json → result json) : result json :=
  match path with
  | [] => f v
  | k :: path' =>
      x ← update_path (get_prop v k) path' f;
      set_prop v k x
  end.

Definition is_nullish (v : json) : bool :=
  match v with JUndef | JNull => true | _ => false end.

(** ToString, as applied to a value used as a property key or inside a
    template literal ([Array.prototype.join] prints [null] and [undefined]
    as the empty string). *)
Fixpoint to_key (v : json) : string :=
  match v with
  | JUndef => "undefined"
  | JNull => "null"
  | JBool b => if b then "true" else "false"
  | JNum n => pretty n
  | JStr s => s
  | JArr l =>
      (fix join (l : list json) : string :=
         match l with
         | [] => ""
         | [x] => if is_nullish x then "" else to_key x
         | x :: l' =>
             (if is_nullish x then "" else to_key x) +:+ "," +:+ join l'
         end) l
  | JObj _ => "[object Object]"
  end.

(** ** The declaration parser ([nodejs/declarationParser.js]) *)

Module DeclarationParser.

(** The declaration handed to the constructor is the store: the
    constructor copies its top level only, so the parser works on the
    caller's tenant, container and property objects.  An object of the
    parsed document is either built by [parse] ([Own]) or is the very
    object [declaration[tn][cn][key]] ([Shared]): the [else] branch of
    [parse] stores [property] by reference. *)
Inductive entry :=
  | Own (v : json)
  | Shared (tn cn key : string).

Abbreviation bag := (alist entry).

Record state := State {
  declaration : json;                 (* the caller's object *)
  parsed : alist (alist bag)          (* containerType → tenant → bag *)
}.

Record output := Output {
  tenants : list string;
  parsedDeclaration : json
}.

Definition KEYS_TO_IGNORE : list string := ["schemaVersion"; "class"].

Definition isKeyOfInterest (key : string) : bool :=
  bool_decide (key ∉ KEYS_TO_IGNORE).

Fixpoint filterM {A} (f : A → result bool) (l : list A) : result (list A) :=
  match l with
  | [] => Ok []
  | x :: l' =>
      b ← f x; r ← filterM f l'; Ok (if b : bool then x :: r else r)
  end.

(** [getTenants(this.declaration)], with [this.declaration] the shallow
    copy made by the constructor. *)
Definition getTenants (thisDeclaration : props) : result (list string) :=
  filterM (λ possibleTenant,
    if isKeyOfInterest possibleTenant then
      cls ← read_prop (default JUndef (obj_get thisDeclaration possibleTenant))
                      "class";
      if truthy cls then Ok (strict_eqb cls (JStr "Tenant")) else Ok false
    else Ok false) (obj_keys thisDeclaration).

Definition getKeysOfInterest (declaration : json) : result (list string) :=
  filter (λ key, isKeyOfInterest key = true) <$> object_keys declaration.

Definition fullName (containerType : json) (containerName key : string)
    : string :=
  if strict_eqb containerType (JStr "System") then key
  else containerName +:+ "_" +:+ key.

Definition entry_value (d : json) (e : entry) : json :=
  match e with
  | Own v => v
  | Shared tn cn key => get_path d [tn; cn; key]
  end.

Definition get_bag (p : alist (alist bag)) (ct tn : string) : bag :=
  default [] (aget p ct ≫= λ t, aget t tn).

Definition set_bag (p : alist (alist bag)) (ct tn : string) (b : bag)
    : alist (alist bag) :=
  aset p ct (aset (default [] (aget p ct)) tn b).

(** The typed branch: [property] is an object with a truthy [class]. *)
Definition fileInstance (tenantName containerName key ct name : string)
    (propertyClass : json) (st : state) : result state :=
  (* delete property.class; *)
  d ← update_path (declaration st) [tenantName; containerName; key]
         (λ property, delete_prop property "class");
  let pc := to_key propertyClass in
  let b := get_bag (parsed st) ct tenantName in
  (* if (!parsed[containerType][tenantName][propertyClass]) ... = {} *)
  let b :=
    match aget b pc with
    | Some e => if truthy (entry_value d e) then b else aset b pc (Own (JObj []))
    | None => aset b pc (Own (JObj []))
    end in
  (* parsed[...][propertyClass][fullName] = {}; Object.assign(that, property) *)
  let instance :=
    JObj (object_assign [] (get_path d [tenantName; containerName; key])) in
  match aget b pc with
  | Some (Own bucket) =>
      bucket' ← set_prop bucket name instance;
      Ok (State d (set_bag (parsed st) ct tenantName (aset b pc (Own bucket'))))
  | Some (Shared tn cn k) =>
      d' ← update_path d [tn; cn; k] (λ o, set_prop o name instance);
      Ok (State d' (set_bag (parsed st) ct tenantName b))
  | None => Throw (Unsupported "unreachable")
  end.

(** The body of [Object.keys(container).forEach((key) => ...)]. *)
Definition fileProperty (tenantName containerName : string)
    (containerType : json) (st : state) (key : string) : result state :=
  if isKeyOfInterest key then
    let property :=
      get_path (declaration st) [tenantName; containerName; key] in
    let name := fullName containerType containerName key in
    let ct := to_key containerType in
    cls ← (if is_object_type property then read_prop property "class"
           else Ok JUndef);
    if is_object_type property && truthy cls then
      fileInstance tenantName containerName key ct name cls st
    else
      (* parsed[containerType][tenantName][fullName] = property; *)
      let e := if is_object_type property
               then Shared tenantName containerName key else Own property in
      let b := get_bag (parsed st) ct tenantName in
      Ok (State (declaration st)
                (set_bag (parsed st) ct tenantName (aset b name e)))
  else Ok st.

(** The body of [containers.forEach((containerName) => ...)]. *)
Definition fileContainer (tenantName : string) (st : state)
    (containerName : string) : result state :=
  let container := get_path (declaration st) [tenantName; containerName] in
  containerType ← read_prop container "class";
  let ct := to_key containerType in
  (* if (!parsed[containerType]) ...; if (!parsed[containerType][tenantName]) ... *)
  let st := State (declaration st)
              (set_bag (parsed st) ct tenantName
                 (get_bag (parsed st) ct tenantName)) in
  keys ← object_keys container;
  foldM (fileProperty tenantName containerName containerType) st keys.

(** The body of [tenants.forEach((tenantName) => ...)]. *)
Definition fileTenant (st : state) (tenantName : string) : result state :=
  let tenant := get_prop (declaration st) tenantName in
  containers ← getKeysOfInterest tenant;
  foldM (fileContainer tenantName) st containers.

(** What the caller sees in [parsedDeclaration] when [parse] returns. *)
Definition resolve (d : json) (p : alist (alist bag)) : json :=
  JObj (prod_map id (λ t : alist bag,
    JObj (prod_map id (λ b : bag,
      JObj (prod_map id (entry_value d) <$> b)) <$> t)) <$> p).

(** [new DeclarationParser(declaration).parse()]: the result, and the
    caller's declaration as [parse] leaves it. *)
Definition parse (declaration : json) : result (output * json) :=
  let thisDeclaration := object_assign [] declaration in
  tenants ← getTenants thisDeclaration;
  st ← foldM fileTenant (State declaration []) tenants;
  Ok (Output tenants (resolve (DeclarationParser.declaration st) (parsed st)),
      DeclarationParser.declaration st).

End DeclarationParser.


(** ** The deep-diff library, as [diffHandler.js] uses it *)

Module DeepDiff.

(** Modelled from the spec: [observableDiff] and [applyChange] come from the
    [deep-diff] package (version 1.0.x, a dependency that is not under
    [src/]); the spec calls them "a structural diff between current and
    desired" whose differences are "applied onto the current copy so it
    converges to desired".  The definitions follow the package's algorithm:
    change kinds [N], [D], [E] and [A], paths of keys and indices, array
    tails reported from the last index down. *)
Inductive seg :=
  | Key (k : string)
  | Idx (i : nat).

Inductive item :=                       (* the [item] of an [A] change *)
  | ItemNew (rhs : json)
  | ItemDeleted (lhs : json).

Inductive change :=
  | DiffNew (path : list seg) (rhs : json)
  | DiffDeleted (path : list seg) (lhs : json)
  | DiffEdit (path : list seg) (lhs rhs : json)
  | DiffArray (path : list seg) (index : nat) (it : item).

Definition change_path (c : change) : list seg :=
  match c with
  | DiffNew p _ | DiffDeleted p _ | DiffEdit p _ _ | DiffArray p _ _ => p
  end.

Inductive real_type :=
  | TUndefined | TNull | TBoolean | TNumber | TString | TArray | TObject.

Definition realTypeOf (v : json) : real_type :=
  match v with
  | JUndef => TUndefined
  | JNull => TNull
  | JBool _ => TBoolean
  | JNum _ => TNumber
  | JStr _ => TString
  | JArr _ => TArray
  | JObj _ => TObject
  end.

Global Instance real_type_eq_dec : EqDecision real_type.
Proof. solve_decision. Defined.

(** The tail of the longer array, last index first. *)
Definition array_tail (path : list seg) (mk : json → item) (l : list json)
    (from : nat) : list change :=
  reverse (imap (λ i x, DiffArray path (from + i) (mk x)) (drop from l)).

(** [deepDiff(lhs, rhs, changes, prefilter, path, key, stack)], with
    [ldef] and [rdef] telling whether the parent objects own the key. *)
Fixpoint deepDiff (lhs rhs : json) (ldef rdef : bool) (path : list seg)
    {struct lhs} : list change :=
  let ldefined := negb (is_undef lhs) || ldef in
  let rdefined := negb (is_undef rhs) || rdef in
  if negb ldefined && rdefined then [DiffNew path rhs]
  else if negb rdefined && ldefined then [DiffDeleted path lhs]
  else if negb (bool_decide (realTypeOf lhs = realTypeOf rhs))
  then [DiffEdit path lhs rhs]
  else
    match lhs, rhs with
    | JArr la, JArr ra =>
        array_tail path ItemNew ra (length la) ++
        array_tail path ItemDeleted la (length ra) ++
        (fix elements (la ra : list json) (i : nat) : list change :=
           match la, ra with
           | x :: la', y :: ra' =>
               elements la' ra' (S i) ++
               deepDiff x y false false (path ++ [Idx i])
           | _, _ => []
           end) la ra 0
    | JObj lo, JObj ro =>
        (fix akeys (lo : props) : list change :=
           match lo with
           | [] => []
           | (k, x) :: lo' =>
               match obj_get ro k with
               | Some y => deepDiff x y true true (path ++ [Key k])
               | None => [DiffDeleted (path ++ [Key k]) x]
               end ++ akeys lo'
           end) lo ++
        (* for (i = 0; i < pkeys.length; ++i) { k = pkeys[i]; if (k) ... } *)
        omap (λ kv : string * json,
                if bool_decide (is_Some (obj_get lo kv.1)) then None
                else if bool_decide (kv.1 = "") then None
                else Some (DiffNew (path ++ [Key kv.1]) kv.2)) ro
    | _, _ =>
        if strict_eqb lhs rhs then [] else [DiffEdit path lhs rhs]
    end.

(** [observableDiff(lhs, rhs, observer)] collects the changes; the caller's
    observer then runs on each of them in order. *)
Definition observableDiff (lhs rhs : json) : list change :=
  deepDiff lhs rhs false false [].

Definition seg_key (s : seg) : string :=
  match s with Key k => k | Idx i => index_key i end.

Definition get_seg (v : json) (s : seg) : json :=
  match v, s with
  | JArr l, Idx i => default JUndef (l !! i)
  | _, _ => get_prop v (seg_key s)
  end.

(** [it[s] = x]; an index past the end of an array leaves holes. *)
Definition set_seg (v : json) (s : seg) (x : json) : result json :=
  match v, s with
  | JArr l, Idx i =>
      if decide (i < length l) then Ok (JArr (<[i := x]> l))
      else Ok (JArr (l ++ replicate (i - length l) JUndef ++ [x]))
  | JObj _, _ | JArr _, _ | JUndef, _ | JNull, _ => set_prop v (seg_key s) x
  | _, _ => Throw (Unsupported "property assignment on a primitive value")
  end.

Definition delete_seg (v : json) (s : seg) : result json :=
  match v, s with
  | JArr l, Idx i => Ok (JArr (if decide (i < length l)
                               then <[i := JUndef]> l else l))
  | _, _ => delete_prop v (seg_key s)
  end.

(** [arrayRemove(arr, from)]: [arr.length = from] and the rest pushed
    back. *)
Definition arrayRemove (arr : list json) (from : nat) : list json :=
  resize from JUndef arr ++ drop (S from) arr.

(** [applyArrayChange(arr, index, change)] for an item without a path. *)
Definition applyArrayChange (arr : json) (index : nat) (it : item)
    : result json :=
  match it with
  | ItemDeleted _ =>
      match arr with
      | JArr l => Ok (JArr (arrayRemove l index))
      | JUndef | JNull => Throw (TypeError "Cannot read property 'slice'")
      | _ => Throw (TypeError "arr.slice is not a function")
      end
  | ItemNew rhs => set_seg arr (Idx index) rhs
  end.

(** The [switch (change.kind)] on the last path element. *)
Definition applyLast (it : json) (s : seg) (c : change) : result json :=
  match c with
  | DiffArray _ index i =>
      let arr := get_seg it s in
      let arr := if is_undef arr then JArr [] else arr in
      arr' ← applyArrayChange arr index i;
      set_seg it s arr'
  | DiffDeleted _ _ => delete_seg it s
  | DiffEdit _ _ rhs | DiffNew _ rhs => set_seg it s rhs
  end.

(** The [while (++i < last)] walk down [change.path], creating what is
    missing, followed by the switch. *)
Fixpoint applyAt (it : json) (path : list seg) (c : change) : result json :=
  match path with
  | [] => Throw (Unsupported "change without a path")
  | [s] =>
      if is_nullish it then Throw (TypeError "Cannot read property of null")
      else applyLast it s c
  | s :: (s' :: _) as path' =>
      if is_nullish it then Throw (TypeError "Cannot read property of null")
      else
        let child := get_seg it s in
        let child := if is_undef child
                     then (if s' is Idx _ then JArr [] else JObj [])
                     else child in
        child' ← applyAt child path' c;
        set_seg it s child'
  end.

(** [applyChange(target, source, change)] *)
Definition applyChange (target : json) (c : change) : result json :=
  if truthy target then applyAt target (change_path c) c else Ok target.

End DeepDiff.

(** ** The diff handler ([nodejs/diffHandler.js]) *)

Module DiffHandler.
Import DeepDiff.

(** [JSON.stringify] of a value inside an object or array: [None] when the
    property is left out. *)
Fixpoint clone_inner (v : json) : json :=
  match v with
  | JArr l => JArr (map (λ x, if is_undef x then JNull else clone_inner x) l)
  | JObj o =>
      JObj ((fix go (o : props) : props :=
               match o with
               | [] => []
               | (k, x) :: o' =>
                   if is_undef x then go o' else (k, clone_inner x) :: go o'
               end) o)
  | _ => v
  end.

(** [JSON.parse(JSON.stringify(v))] *)
Definition clone (v : json) : result json :=
  if is_undef v then Throw (SyntaxError "Unexpected token u in JSON")
  else Ok (clone_inner v).

Definition populateNonTruthClasses (declaration : json)
    (classesOfTruth : list string) : result props :=
  keys ← object_keys declaration;
  Ok (fold_left (λ uninteresting key,
        if bool_decide (key ∈ classesOfTruth) then uninteresting
        else
          let v := get_prop declaration key in
          if is_string v then obj_set uninteresting key v
          else if is_object_type v
          then obj_set uninteresting key (JObj (object_assign [] v))
          else (* the Array.isArray test sits behind typeof ... === 'object' *)
            uninteresting) keys []).

(** The observer passed to [observableDiff] in [process]. *)
Definition observe (classesOfTruth : list string)
    (acc : json * list string) (diff : change) : result (json * list string) :=
  let '(from, updatedPaths) := acc in
  match change_path diff !! 1 with
  | Some (Key k) =>
      if bool_decide (k ∈ classesOfTruth) then
        from' ← applyChange from diff;
        Ok (from', if bool_decide (k ∈ updatedPaths) then updatedPaths
                   else updatedPaths ++ [k])
      else Ok acc
  | _ => Ok acc
  end.

(** The body of [updatedPaths.forEach((path) => ...)]. *)
Definition copyUpdated (from : json) (finalCommon : props) (path : string)
    : result props :=
  common ← read_prop from "Common";
  v ← read_prop common path;
  if is_string v then Ok (obj_set finalCommon path v)
  else if is_array v then Ok (obj_set finalCommon path v)
  else Ok (obj_set finalCommon path (JObj (object_assign [] v))).

(** [new DiffHandler(classesOfTruth).process(toDeclaration, fromDeclaration)]:
    the value the returned promise resolves with. *)
Definition process (classesOfTruth : list string)
    (toDeclaration fromDeclaration : json) : result json :=
  to ← clone toDeclaration;
  from ← clone fromDeclaration;
  toCommon ← read_prop to "Common";
  nonTruth ← populateNonTruthClasses toCommon classesOfTruth;
  '(from, updatedPaths) ←
     foldM (observe classesOfTruth) (from, []) (observableDiff from to);
  finalCommon ← foldM (copyUpdated from) nonTruth updatedPaths;
  Ok (JObj [("Common", JObj finalCommon)]).

End DiffHandler.

(** ** String helpers *)

Definition starts_with (pre s : string) : bool := String.prefix pre s.

Definition ends_with (suf s : string) : bool :=
  bool_decide (String.length suf ≤ String.length s) &&
  String.eqb (String.substring (String.length s - String.length suf)
                               (String.length suf) s) suf.

Definition drop_prefix (n : nat) (s : string) : string :=
  String.substring n (String.length s - n) s.

Definition before_first (sep s : string) : string :=
  match String.index 0 sep s with
  | Some i => String.substring 0 i s
  | None => s
  end.

Definition after_first (sep s : string) : option string :=
  i ← String.index 0 sep s; Some (drop_prefix (i + String.length sep) s).

(** [s.split(sep)[1]] for a non-empty separator *)
Definition split_second (sep s : string) : json :=
  match after_first sep s with
  | Some rest => JStr (before_first sep rest)
  | None => JUndef
  end.

(** [s.split(sep)] for a non-empty separator; [fuel] bounds the number of
    pieces by the length of [s]. *)
Fixpoint split_fuel (fuel : nat) (sep s : string) : list string :=
  match fuel with
  | 0 => [s]
  | S fuel' =>
      match after_first sep s with
      | Some rest => before_first sep s :: split_fuel fuel' sep rest
      | None => [s]
      end
  end.
Definition split (sep s : string) : list string :=
  split_fuel (String.length s) sep s.

(** [s.replace(/token/, by)] for a pattern without metacharacters: the
    first occurrence only. *)
Definition replace_first (token repl s : string) : string :=
  match String.index 0 token s with
  | Some i =>
      String.substring 0 i s +:+ repl +:+
      drop_prefix (i + String.length token) s
  | None => s
  end.

(** [l.join(',')] *)
Fixpoint join_comma (l : list json) : string :=
  match l with
  | [] => ""
  | [x] => if is_nullish x then "" else to_key x
  | x :: l' => (if is_nullish x then "" else to_key x) +:+ "," +:+ join_comma l'
  end.

(** [l.indexOf(x) !== -1] *)
Definition includes (l : list json) (x : json) : bool :=
  existsb (λ y, strict_eqb y x) l.

(** ** The config manager *)

Module ConfigManager.

(** The task state ([state.currentConfig], [state.originalConfig]);
    [JUndef] stands for a property that is not set. *)
Record state := State {
  currentConfig : json;
  originalConfig : json
}.

(** Everything [get] can change: [this.configId], the task state, the
    original configs kept by [doState], and the device reads issued so far
    (latest last). *)
Record world := World {
  configId : json;
  task : state;
  doState : gmap string json;
  reads : list (string * result json)
}.

(** How the promise returned by [get] is rejected: with an exception
    raised by the manager's own code, or with the error of a device read. *)
Inductive failure :=
  | Raised (e : exn)
  | ReadFailed (e : exn).

Inductive outcome (A : Type) :=
  | Done (a : A)
  | Failed (f : failure).
Global Arguments Done {A} a.
Global Arguments Failed {A} f.

Definition M (A : Type) : Type := world → outcome A * world.

Global Instance M_ret : MRet M := λ A x w, (Done x, w).
Global Instance M_bind : MBind M := λ A B f m w,
  match m w with
  | (Done a, w') => f a w'
  | (Failed e, w') => (Failed e, w')
  end.

(** A step of the manager's own code. *)
Definition lift {A} (r : result A) : M A := λ w,
  (match r with Ok a => Done a | Throw e => Failed (Raised e) end, w).
(** [Promise.reject(e)] *)
Definition reject {A} (e : exn) : M A := λ w, (Failed (Raised e), w).
(** How a device read settles. *)
Definition settled (r : result json) : outcome json :=
  match r with Ok v => Done v | Throw e => Failed (ReadFailed e) end.

Fixpoint foldM_M {A S : Type} (f : S → A → M S) (s : S) (l : list A) : M S :=
  match l with
  | [] => mret s
  | x :: l' => s' ← f s x; foldM_M f s' l'
  end.

Fixpoint mapM_M {A B : Type} (f : A → M B) (l : list A) : M (list B) :=
  match l with
  | [] => mret []
  | x :: l' => y ← f x; ys ← mapM_M f l'; mret (y :: ys)
  end.

(** Modelled from the spec: the [State] class behind [doState] is not
    under [src/]; the spec gives the snapshot store as
    [get(deviceIdentity) -> NormalizedDocument | absent] and
    [set(deviceIdentity, NormalizedDocument)]. *)
Definition getOriginalConfigByConfigId (id : json) : M json :=
  λ w, (Done (default JUndef (doState w !! to_key id)), w).
Definition setOriginalConfigByConfigId (id config : json) : M unit :=
  λ w, (Done (), World (configId w) (task w)
                       (<[to_key id := config]> (doState w)) (reads w)).

Definition set_configId (id : json) : M unit :=
  λ w, (Done (), World id (task w) (doState w) (reads w)).
Definition get_configId : M json := λ w, (Done (configId w), w).
Definition get_state : M state := λ w, (Done (task w), w).
Definition set_currentConfig (c : json) : M unit :=
  λ w, (Done (), World (configId w) (State c (originalConfig (task w)))
                       (doState w) (reads w)).
Definition set_originalConfig (c : json) : M unit :=
  λ w, (Done (), World (configId w) (State (currentConfig (task w)) c)
                       (doState w) (reads w)).

Section manager.
(** [this.configItems] and the collaborators of the manager. *)
Variable configItems : list json.
Variable bigIp_list : string → result json.       (* this.bigIp.list(path) *)
Variable bigIp_deviceInfo : result json.          (* this.bigIp.deviceInfo() *)
(** Which of several rejected reads [Promise.all] reports: the first to
    reject, which the device decides. *)
Variable first_rejected : list exn → exn.
(** Node's [RegExp], [url] and [querystring]. *)
Variable regex_test : json → json → bool.         (* new RegExp(p).test(v) *)
Variable url_parse : string → string * string.    (* pathname, query *)
Variable querystring_parse : string → alist string.
Variable querystring_stringify : alist string → string.
(** [sharedConstants.RADIUS] *)
Variable RADIUS_SERVER_PREFIX RADIUS_PRIMARY_SERVER RADIUS_SECONDARY_SERVER
  : string.

(** One device read; the outcome is recorded in [reads]. *)
Definition list_ (path : string) : M json := λ w,
  let r := bigIp_list path in
  (settled r,
   World (configId w) (task w) (doState w) (reads w ++ [(path, r)])).

Definition deviceInfo : M json := λ w,
  (settled bigIp_deviceInfo,
   World (configId w) (task w) (doState w)
         (reads w ++ [("deviceInfo", bigIp_deviceInfo)])).

(** The elements [forEach], [map], [filter] and [reduce] visit. *)
Definition array_elements (v : json) : result (list json) :=
  match v with
  | JArr l => Ok (filter (λ x, is_undef x = false) l)
  | JUndef | JNull => Throw (TypeError "Cannot read property 'forEach'")
  | _ => Throw (TypeError "forEach is not a function")
  end.

Definition removeUnusedKeys (item nameless : json) : props :=
  let keysToRemove :=
    ["kind"; "selfLink"] ++ (if truthy nameless then ["name"] else []) in
  let filtered := object_assign [] item in
  fold_left (λ filtered key,
    let filtered := if ends_with "Reference" key
                    then obj_delete filtered key else filtered in
    if bool_decide (key ∈ keysToRemove)
    then obj_delete filtered key else filtered)
    (obj_keys filtered) filtered.

Definition getPropertiesOfInterest (initialProperties : json)
    : result (list json) :=
  properties ← (if truthy initialProperties
                then array_elements initialProperties else Ok []);
  propertyNames ← mapM_result (λ curr, read_prop curr "id") properties;
  Ok (if includes propertyNames (JStr "name") then propertyNames
      else propertyNames ++ [JStr "name"]).

Definition mapTruth (item : props) (property : json) : result json :=
  id ← read_prop property "id";
  let v := default JUndef (obj_get item (to_key id)) in
  if truthy v then
    truth ← read_prop property "truth";
    Ok (JBool (strict_eqb v truth))
  else Ok (JBool false).

(** The [parts.reduce(...)] of [mapNewId]: walk [parts] from [acc],
    creating objects, and store [v] under the last part. *)
Fixpoint set_nested (acc : json) (parts : list string) (v : json)
    : result json :=
  match parts with
  | [] => Ok acc
  | [last] => set_prop acc last v
  | cur :: parts' =>
      if is_nullish acc then Throw (TypeError "Cannot read property of null")
      else
        let child := get_prop acc cur in
        let child := if truthy child then child else JObj [] in
        child' ← set_nested child parts' v;
        set_prop acc cur child'
  end.

Definition mapNewId (mappedItem : props) (id newId : json) : result props :=
  match newId with
  | JStr newId' =>
      let v := default JUndef (obj_get mappedItem (to_key id)) in
      mapped ←
        match String.index 0 "." newId' with
        | Some (S _) =>
            let parts := split "." newId' in
            if bool_decide (hd "" parts = to_key id)
            then Throw (Unsupported "an object that contains itself")
            else
              r ← set_nested (JObj mappedItem) parts v;
              Ok (own_props r)
        | _ => Ok (obj_set mappedItem newId' v)
        end;
      Ok (obj_delete mapped (to_key id))
  | JArr _ => Throw (Unsupported "newId that is an array")
  | _ => Throw (TypeError "newId.indexOf is not a function")
  end.

(** The body of [property.transform.forEach((trans) => ...)]. *)
Definition applyTransform (orig : props) (mappedItem : props) (trans : json)
    : result props :=
  tid ← read_prop trans "id";
  let direct := default JUndef (obj_get orig (to_key tid)) in
  propertyVal ←
    (if truthy direct then Ok direct
     else read_prop (default JUndef (obj_get orig "0")) (to_key tid));
  tnew ← read_prop trans "newId";
  if truthy tnew then Ok (obj_set mappedItem (to_key tnew) propertyVal)
  else Ok (obj_set mappedItem (to_key tid) propertyVal).

(** The body of [this.configItems[index].properties.forEach(...)]. *)
Definition mapProperty (mappedItem : props) (property : json)
    : result props :=
  id ← read_prop property "id";
  let id := to_key id in
  truth ← read_prop property "truth";
  skip ← read_prop property "skipWhenOmitted";
  mappedItem ←
    (if negb (is_undef truth) then
       if negb (is_undef (default JUndef (obj_get mappedItem id)))
          || negb (truthy skip)
       then v ← mapTruth mappedItem property; Ok (obj_set mappedItem id v)
       else Ok mappedItem
     else Ok mappedItem);
  dflt ← read_prop property "defaultWhenOmitted";
  '(mappedItem, hasVal) ←
    (let v := default JUndef (obj_get mappedItem id) in
     if negb (is_undef v) then
       let mappedItem :=
         match v with
         | JStr s => if starts_with "/Common/" s
                     then obj_set mappedItem id (JStr (drop_prefix 8 s))
                     else mappedItem
         | _ => mappedItem
         end in
       transform ← read_prop property "transform";
       mappedItem ←
         (if truthy transform then
            let orig :=
              object_assign [] (default JUndef (obj_get mappedItem id)) in
            let mappedItem := obj_delete mappedItem id in
            transforms ← array_elements transform;
            foldM (applyTransform orig) mappedItem transforms
          else Ok mappedItem);
       Ok (mappedItem, true)
     else if negb (is_undef dflt) then Ok (obj_set mappedItem id dflt, true)
     else Ok (mappedItem, false));
  newId ← read_prop property "newId";
  if (hasVal : bool) && negb (is_undef newId)
  then mapNewId mappedItem (JStr id) newId
  else Ok mappedItem.

Definition configItem (index : nat) : json :=
  default JUndef (configItems !! index).

Definition mapProperties (item : json) (index : nat) : result json :=
  let mappedItem := object_assign [] item in
  singleValue ← read_prop (configItem index) "singleValue";
  properties ← read_prop (configItem index) "properties";
  if truthy singleValue then
    first ← read_prop properties "0";
    id ← read_prop first "id";
    Ok (default JUndef (obj_get mappedItem (to_key id)))
  else
    properties ← array_elements properties;
    JObj <$> foldM mapProperty mappedItem properties.

Definition patchSelfIp (selfIp : json) : json :=
  let patched := object_assign [] selfIp in
  let allowService := default JUndef (obj_get patched "allowService") in
  if negb (truthy allowService)
  then JObj (obj_set patched "allowService" (JStr "none"))
  else
    match allowService with
    | JArr [JStr "default"] =>
        JObj (obj_set patched "allowService" (JStr "default"))
    | _ => JObj patched
    end.

(** The [pathProps.reduce(...)] of [mapSchemaMerge] followed by the
    assignment to [pointer[key]]. *)
Fixpoint merge_at (acc : json) (pathProps : list json) (key value : json)
    (add : bool) : result json :=
  match pathProps with
  | [] =>
      if add then
        cur ← read_prop acc (to_key key);
        match (if is_undef cur then JObj [] else cur) with
        | JObj target =>
            set_prop acc (to_key key) (JObj (object_assign target value))
        | JArr _ => Throw (Unsupported "Object.assign onto an array")
        | _ => Throw (Unsupported "Object.assign onto a primitive value")
        end
      else
        (if is_nullish acc then Throw (TypeError "Cannot set property of null")
         else set_prop acc (to_key key) value)
  | curr :: pathProps' =>
      child ← read_prop acc (to_key curr);
      let child := if is_undef child then JObj [] else child in
      child' ← merge_at child pathProps' key value add;
      set_prop acc (to_key curr) child'
  end.

Definition mapSchemaMerge (obj : json) (value : json) (opts : json)
    : result json :=
  isOmitted ← (if is_undef value then Ok true
               else keys ← object_keys value;
                    Ok (bool_decide (length keys = 0)));
  skip ← read_prop opts "skipWhenOmitted";
  if truthy skip && isOmitted then Ok obj
  else
    path ← read_prop opts "path";
    pathProps ← match path with
                | JArr l => Ok l
                | JStr _ => Throw (TypeError "pathProps.pop is not a function")
                | JUndef | JNull =>
                    Throw (TypeError "Cannot read property 'slice'")
                | _ => Throw (TypeError "opts.path.slice is not a function")
                end;
    action ← read_prop opts "action";
    merge_at obj (removelast pathProps) (List.last pathProps JUndef) value
             (strict_eqb action (JStr "add")).

Definition patchAuth (schemaMerge authClass authItem : json) : result json :=
  if negb (truthy schemaMerge) then
    type ← read_prop authItem "type";
    let type := if strict_eqb type (JStr "active-directory")
                then JStr "activeDirectory" else type in
    let patchedClass := object_assign [] authItem in
    let patchedClass := obj_set patchedClass "enabledSourceType" type in
    Ok (JObj (obj_delete patchedClass "type"))
  else
    let authClassCopy :=
      if negb (truthy authClass) then JObj []
      else JObj (object_assign [] authClass) in
    name ← read_prop authItem "name";
    patchedItem ←
      (if truthy name then
         match name with
         | JStr n =>
             if bool_decide (is_Some (String.index 0 RADIUS_SERVER_PREFIX n))
             then
               without ← delete_prop authItem "name";
               let p1 := if bool_decide (n = RADIUS_PRIMARY_SERVER)
                         then JObj [("primary", without)] else JUndef in
               Ok (if bool_decide (n = RADIUS_SECONDARY_SERVER)
                   then JObj [("secondary", without)] else p1)
             else Ok (JObj (object_assign [] authItem))
         | JArr _ => Throw (Unsupported "a name that is an array")
         | _ => Throw (TypeError "authItem.name.indexOf is not a function")
         end
       else Ok (JObj (object_assign [] authItem)));
    mapSchemaMerge authClassCopy patchedItem schemaMerge.

(** [l.find(f)] reduced to whether an element is found: holes count as
    [undefined], and nothing after the first match is looked at. *)
Fixpoint findM (f : json → result bool) (l : list json) : result bool :=
  match l with
  | [] => Ok false
  | x :: l' => b ← f x; if b : bool then Ok true else findM f l'
  end.

Definition shouldIgnore (item ignoreList : json) : result bool :=
  if negb (truthy ignoreList) then Ok false
  else
    infos ← match ignoreList with
            | JArr l => Ok l
            | _ => Throw (TypeError "ignoreList.find is not a function")
            end;
    findM (λ ignoreInfo,
      keys ← object_keys ignoreInfo;
      let property := default JUndef (JStr <$> head keys) in
      let pattern := get_prop ignoreInfo (to_key property) in
      v ← read_prop item (to_key property);
      Ok (truthy v && regex_test pattern v)) infos.

(** What [getReferencedPaths] pushes on [referenceInfo]. *)
Record reference := Reference {
  ref_property : string;
  ref_schemaClass : json;
  ref_name : json;
  ref_properties : json
}.

(** [/^(.+)Reference$/.exec(property)[1]] *)
Definition trimReference (property : string) : result string :=
  let n := String.length property - 9 in
  let stem := String.substring 0 n property in
  if ends_with "Reference" property && bool_decide (0 < n)
     && bool_decide (String.index 0 (String (ascii_of_nat 10) "") stem = None)
     && bool_decide (String.index 0 (String (ascii_of_nat 13) "") stem = None)
  then Ok stem
  else Throw (TypeError "Cannot read property '1' of null").

(** One read issued without waiting for it. *)
Definition issue (path : string) : M unit := λ w,
  (Done (), World (configId w) (task w) (doState w)
                  (reads w ++ [(path, bigIp_list path)])).

(** [Promise.all] over reads issued earlier ([None]: the promise
    [Promise.resolve(false)]). *)
Definition settle (paths : list (option string)) : M (list json) :=
  let rs := map (λ p, if p is Some p then bigIp_list p
                      else Ok (JBool false)) paths in
  match omap (λ r, if r is Throw e then Some e else None) rs with
  | [] => mret (omap (λ r, if r is Ok v then Some v else None) rs)
  | errors => λ w, (Failed (ReadFailed (first_rejected errors)), w)
  end.

(** The body of [Object.keys(item).forEach((property) => ...)] in
    [getReferencedPaths]: for a reference, issue the read and record how
    to tie its result to the config item. *)
Definition referencedPath (item : json) (index : nat)
    (acc : list (string * reference)) (property : string)
    : M (list (string * reference)) :=
  references ← lift (read_prop (configItem index) "references");
  let properties :=
    if truthy references then get_prop references property else JUndef in
  if truthy properties then
    link ← lift (read_prop (get_prop item property) "link");
    if truthy link then
      link ← lift (if link is JStr l then Ok l
                   else Throw (TypeError "Parameter 'url' must be a string"));
      let '(pathname, query) := url_parse link in
      let query := querystring_parse query in
      selectProperties ← lift (getPropertiesOfInterest properties);
      let query :=
        if bool_decide (0 < length selectProperties)
        then aset query "$select" (join_comma selectProperties) else query in
      let path := pathname +:+ "?" +:+ querystring_stringify query in
      let path := if starts_with "/mgmt" path
                  then drop_prefix 5 path else path in
      trimmedPropertyName ← lift (trimReference property);
      issue path;;
      schemaClass ← lift (read_prop (configItem index) "schemaClass");
      mret (acc ++ [(path, Reference trimmedPropertyName schemaClass
                                     (get_prop item "name") properties)])
    else mret acc
  else mret acc.

(** [getReferencedPaths] *)
Definition getReferencedPaths (item : json) (index : nat)
    (referenceInfo : list (string * reference))
    : M (list (string * reference)) :=
  keys ← lift (object_keys item);
  foldM_M (referencedPath item index) referenceInfo keys.

(** [dbVarsOfInterest]: what is in the current config plus what is in the
    declaration. *)
Definition dbVarsOfInterest (declaration : json) (st : state)
    : result (list json) :=
  let currentCurrentConfig :=
    if truthy (currentConfig st) then currentConfig st else JObj [] in
  let common := get_prop currentCurrentConfig "Common" in
  dbVariables ← (if truthy common then read_prop common "DbVariables"
                 else Ok JUndef);
  fromCurrent ← (if truthy dbVariables then object_keys dbVariables
                 else Ok []);
  declCommon ← read_prop declaration "Common";
  fromDeclaration ←
    (if truthy declCommon then
       keys ← object_keys declCommon;
       foldM (λ acc key,
         cls ← read_prop (get_prop declCommon key) "class";
         if strict_eqb cls (JStr "DbVariables") then
           dbVars ← object_keys (get_prop declCommon key);
           Ok (acc ++ dbVars)
         else Ok acc) [] keys
     else Ok []);
  Ok (JStr <$> filter (λ dbVar, dbVar ≠ "class") (fromCurrent ++ fromDeclaration)).

(** The devices of [cmDeviceInfo] that have our host name:
    [cmDeviceInfo.filter(device => device.hostname === hostName)]. *)
Definition matchingDevices (hostName cmDeviceInfo : json)
    : result (list json) :=
  all ← match cmDeviceInfo with
        | JArr l => Ok (filter (λ x, is_undef x = false) l)
        | JUndef | JNull => Throw (TypeError "Cannot read property 'filter'")
        | _ => Throw (TypeError "cmDeviceInfo.filter is not a function")
        end;
  DeclarationParser.filterM (λ device : json,
    h ← read_prop device "hostname";
    (Ok (strict_eqb h hostName) : result bool)) all.

(** [getTokenMap] *)
Definition getTokenMap (info : json) : M (json * json) :=
  hostName ← lift (read_prop info "hostname");
  cmDeviceInfo ← list_ "/tm/cm/device";
  devices ← lift (matchingDevices hostName cmDeviceInfo);
  match devices with
  | [device] =>
      deviceName ← lift (read_prop device "name");
      mret (hostName, deviceName)
  | _ => reject (Error "Too many devices match our name")
  end.

(** The callback of [this.configItems.map(...)]: the path of the read it
    issues, if any. *)
Definition queryPath (provisionedModules : list json)
    (tokenMap : json * json) (configItem : json) : result (option string) :=
  requiredModule ← read_prop configItem "requiredModule";
  if truthy requiredModule && negb (includes provisionedModules requiredModule)
  then Ok None
  else
    selectProperties ←
      getPropertiesOfInterest (get_prop configItem "properties");
    let query := [("$filter", "partition eq Common")] in
    let query :=
      if bool_decide (0 < length selectProperties)
      then aset query "$select" (join_comma selectProperties) else query in
    let path := to_key (get_prop configItem "path") +:+ "?" +:+
                querystring_stringify query in
    let path := replace_first "{{hostName}}" (to_key tokenMap.1) path in
    let path := replace_first "{{deviceName}}" (to_key tokenMap.2) path in
    Ok (Some path).

Definition queryConfigItem (provisionedModules : list json)
    (tokenMap : json * json) (configItem : json) : M (option string) :=
  query ← lift (queryPath provisionedModules tokenMap configItem);
  match query with
  | Some path => issue path;; mret (Some path)
  | None => mret None        (* Promise.resolve(false) *)
  end.

(** The body of [currentItem.forEach((item) => ...)] for an array
    result. *)
Definition fileItem (dbVars : list json) (index : nat)
    (acc : props * list (string * reference)) (item : json)
    : M (props * list (string * reference)) :=
  let '(currentConfig, referenceInfo) := acc in
  let ci := configItem index in
  let schemaClass := get_prop ci "schemaClass" in
  let sc := to_key schemaClass in
  ignored ← lift (shouldIgnore item (get_prop ci "ignore"));
  if ignored : bool then mret acc
  else
    let patchedItem := JObj (removeUnusedKeys item (get_prop ci "nameless")) in
    patchedItem ← lift (mapProperties patchedItem index);
    name ← lift (read_prop item "name");
    name ← lift (match name with
                 | JStr n => Ok (if starts_with "/Common/" n
                                 then split_second "/Common/" n else name)
                 | JUndef | JNull =>
                     Throw (TypeError "Cannot read property 'startsWith'")
                 | _ => Throw (TypeError "name.startsWith is not a function")
                 end);
    patchedItem ← lift (if strict_eqb schemaClass (JStr "RemoteAuthRole")
                        then set_prop patchedItem "name" name
                        else Ok patchedItem);
    let patchedItem := if strict_eqb schemaClass (JStr "SelfIp")
                       then patchSelfIp patchedItem else patchedItem in
    let patchedItem :=
      if strict_eqb schemaClass (JStr "DbVariables")
         && negb (includes dbVars (get_prop item "name"))
      then JNull else patchedItem in
    '(currentConfig, patchedItem) ←
      lift (if strict_eqb schemaClass (JStr "Authentication") then
              cls ← patchAuth (get_prop ci "schemaMerge")
                      (default JUndef (obj_get currentConfig sc)) patchedItem;
              Ok (obj_set currentConfig sc cls, JNull)
            else Ok (currentConfig, patchedItem));
    currentConfig ←
      lift (if truthy patchedItem then
              let cls := default JUndef (obj_get currentConfig sc) in
              let cls := if truthy cls then cls else JObj [] in
              cls ← set_prop cls (to_key name) patchedItem;
              Ok (obj_set currentConfig sc cls)
            else Ok currentConfig);
    referenceInfo ← getReferencedPaths item index referenceInfo;
    mret (currentConfig, referenceInfo).

(** The [SyslogRemoteServer] patch of a single-object result. *)
Definition patchSyslog (patchedItem : json) : result json :=
  remoteServers ← read_prop patchedItem "remoteServers";
  servers ← (if truthy remoteServers then array_elements remoteServers
             else Ok []);
  patchedItem ← foldM (λ patchedItem server,
    name ← read_prop server "name";
    server ← match name with
             | JStr n => if bool_decide (is_Some (String.index 0 "/Common/" n))
                         then set_prop server "name" (split_second "/Common/" n)
                         else Ok server
             | JArr _ => Throw (Unsupported "a name that is an array")
             | JUndef | JNull =>
                 Throw (TypeError "Cannot read property 'includes'")
             | _ => Throw (TypeError "server.name.includes is not a function")
             end;
    set_prop patchedItem (to_key (get_prop server "name"))
             (JObj (object_assign [] server))) patchedItem servers;
  delete_prop patchedItem "remoteServers".

(** The body of [results.forEach((currentItem, index) => ...)]. *)
Definition fileResult (dbVars : list json)
    (acc : props * list (string * reference)) (indexed : nat * json)
    : M (props * list (string * reference)) :=
  let '(currentConfig, referenceInfo) := acc in
  let '(index, currentItem) := indexed in
  if strict_eqb currentItem (JBool false) then mret acc
  else
    let ci := configItem index in
    schemaClass ← lift (read_prop ci "schemaClass");
    let sc := to_key schemaClass in
    if negb (truthy schemaClass) then
      keys ← lift (object_keys currentItem);
      mret (fold_left (λ cc key, obj_set cc key (get_prop currentItem key))
                      keys currentConfig, referenceInfo)
    else
      match currentItem with
      | JArr items =>
          if bool_decide (length items = 0)
             && negb (truthy (default JUndef (obj_get currentConfig sc)))
          then mret (obj_set currentConfig sc (JObj []), referenceInfo)
          else foldM_M (fileItem dbVars index) acc
                       (filter (λ x, is_undef x = false) items)
      | _ =>
          ignored ← lift (shouldIgnore currentItem (get_prop ci "ignore"));
          if ignored : bool then mret acc
          else
            let patchedItem :=
              JObj (removeUnusedKeys currentItem (get_prop ci "nameless")) in
            patchedItem ← lift (mapProperties patchedItem index);
            patchedItem ←
              lift (if strict_eqb schemaClass (JStr "Authentication")
                    then patchAuth (get_prop ci "schemaMerge")
                           (default JUndef (obj_get currentConfig sc))
                           patchedItem
                    else Ok patchedItem);
            patchedItem ←
              lift (if strict_eqb schemaClass (JStr "SyslogRemoteServer")
                    then patchSyslog patchedItem else Ok patchedItem);
            let currentConfig := obj_set currentConfig sc patchedItem in
            referenceInfo ← getReferencedPaths currentItem index referenceInfo;
            mret (currentConfig, referenceInfo)
      end.

(** What [removeUnusedKeys] and the truth mapping make of one referenced
    object. *)
Definition cleanReference (properties : list json) (reference : json)
    : result json :=
  JObj <$> foldM (λ patchedItem refProperty,
    truth ← read_prop refProperty "truth";
    if negb (is_undef truth) then
      v ← mapTruth patchedItem refProperty;
      Ok (obj_set patchedItem (to_key (get_prop refProperty "id")) v)
    else Ok patchedItem) (removeUnusedKeys reference JUndef) properties.

(** [referenceResult.forEach((reference) => ...)]: the cleaned references,
    in order. *)
Definition cleanReferences (info : reference) (referenceResult : json)
    : result (list json) :=
  references ← array_elements referenceResult;
  match references with
  | [] => Ok []
  | _ => properties ← array_elements (ref_properties info);
         mapM_result (cleanReference properties) references
  end.

(** The body of [referencesResults.forEach((referenceResult, index) => ...)]. *)
Definition spliceReference (currentConfig : props)
    (entry : reference * json) : result props :=
  let '(info, referenceResult) := entry in
  let sc := to_key (ref_schemaClass info) in
  let name := to_key (ref_name info) in
  cls ← read_prop (JObj currentConfig) sc;
  configItem ← read_prop cls name;
  (* configItem[property] = []; *)
  _ ← set_prop configItem (ref_property info) (JArr []);
  cleaned ← cleanReferences info referenceResult;
  configItem ← set_prop configItem (ref_property info) (JArr cleaned);
  cls ← set_prop cls name configItem;
  Ok (obj_set currentConfig sc cls).

(** [provisioning.filter(module => module.level !== 'none')
    .map(module => module.name)] *)
Definition provisionedModulesOf (provisioning : json) : result (list json) :=
  modules ← array_elements provisioning;
  modules ← DeclarationParser.filterM (λ module : json,
              level ← read_prop module "level";
              (Ok (negb (strict_eqb level (JStr "none"))) : result bool))
            modules;
  Ok ((λ module, get_prop module "name") <$> (modules : list json)).

(** The last [then] of [get]: commit the current config and reconcile the
    original config. *)
Definition commit (currentConfig : props) : M unit :=
  let current := JObj [("parsed", JBool true); ("Common", JObj currentConfig)] in
  set_currentConfig current;;
  id ← get_configId;
  st ← get_state;
  stored ← getOriginalConfigByConfigId id;
  (if truthy (originalConfig st) && negb (truthy stored)
   then setOriginalConfigByConfigId id (originalConfig st) else mret ());;
  stored ← getOriginalConfigByConfigId id;
  let originalConfig := if truthy stored then stored else current in
  let currentDbVariables :=
    default JUndef (obj_get currentConfig "DbVariables") in
  originalConfig ←
    lift (if truthy currentDbVariables then
            common ← read_prop originalConfig "Common";
            dbVariables ← read_prop common "DbVariables";
            let dbVariables :=
              if truthy dbVariables then dbVariables else JObj [] in
            keys ← object_keys currentDbVariables;
            dbVariables ← foldM (λ dbVariables dbVar,
              if negb (truthy (get_prop dbVariables dbVar))
              then set_prop dbVariables dbVar
                     (get_prop currentDbVariables dbVar)
              else Ok dbVariables) dbVariables keys;
            common ← set_prop common "DbVariables" dbVariables;
            set_prop originalConfig "Common" common
          else Ok originalConfig);
  setOriginalConfigByConfigId id originalConfig;;
  set_originalConfig originalConfig.

(** [get(declaration, state, doState)]: [state] and [doState] are in the
    world; the result is how the returned promise settles. *)
Definition get (declaration : json) : M unit :=
  st ← get_state;
  dbVars ← lift (dbVarsOfInterest declaration st);
  provisioning ← list_ "/tm/sys/provision";
  provisionedModules ← lift (provisionedModulesOf provisioning);
  info ← deviceInfo;
  machineId ← lift (read_prop info "machineId");
  set_configId machineId;;
  tokenMap ← getTokenMap info;
  queries ← mapM_M (queryConfigItem provisionedModules tokenMap) configItems;
  results ← settle queries;
  '(currentConfig, referenceInfo) ←
    foldM_M (fileResult dbVars) ([], [])
            (zip (seq 0 (length results)) results);
  referencesResults ← settle (Some <$> referenceInfo.*1);
  currentConfig ←
    lift (foldM spliceReference currentConfig
                (zip referenceInfo.*2 referencesResults));
  commit currentConfig.

End manager.
End ConfigManager.

(** ** Well-formed values and declarations *)

(** Keys are distinct in every object of the value. *)
Fixpoint wf_json (v : json) : bool :=
  match v with
  | JArr l => forallb wf_json l
  | JObj o => bool_decide (NoDup o.*1) && forallb (λ kv, wf_json kv.2) o
  | _ => true
  end.

(** No other property of the tenant's containers can be filed under
    [name] or under the class key [pc], whatever its container's class. *)
Definition names_apart (tenant : props) (cn k name pc : string) : bool :=
  forallb (λ kv : string * json,
    forallb (λ k',
      negb (DeclarationParser.isKeyOfInterest kv.1)
      || negb (DeclarationParser.isKeyOfInterest k')
      || bool_decide ((kv.1, k') = (cn, k))
      || (bool_decide (k' ∉ [name; pc])
          && bool_decide (kv.1 +:+ "_" +:+ k' ∉ [name; pc])))
      (obj_keys (own_props kv.2))) tenant.

(** ** Invariants of [parse] *)

Section parser_invariants.
Import DeclarationParser.
(** The declaration as given, and the sub-instance under study: tenant
    [tn], container [cn] of class [C], key [k], bound for the bucket [pc]
    of the bag of ([ct], [tn]) under [name]. *)
Variables (d0 : json) (tn cn k : string) (C : json) (property : props).
Variables (ct pc name : string).

(** The mutations of [parse] keep the keys of the tenant and of each of its
    containers. *)
Definition frame_kept (d : json) : Prop :=
  obj_keys (own_props (get_prop d tn)) = obj_keys (own_props (get_prop d0 tn))
  ∧ ∀ cn', obj_keys (own_props (get_path d [tn; cn']))
           = obj_keys (own_props (get_path d0 [tn; cn'])).

(** Before the sub-instance is visited. *)
Definition pending (st : state) : Prop :=
  get_path (declaration st) [tn; cn; k] = JObj property
  ∧ get_path (declaration st) [tn; cn; "class"] = C
  ∧ (∀ e, aget (get_bag (parsed st) ct tn) pc = Some e →
          ∃ b, e = Own (JObj b))
  ∧ (∀ ct' tn' key a b c,
       aget (get_bag (parsed st) ct' tn') key = Some (Shared a b c) →
       isKeyOfInterest c = true ∧ (a, b, c) ≠ (tn, cn, k)).

(** After it has been visited. *)
Definition filed (st : state) : Prop :=
  ∃ b, aget (get_bag (parsed st) ct tn) pc = Some (Own (JObj b))
       ∧ aget b name = Some (JObj (obj_delete property "class")).

End parser_invariants.

(** A mutation that needs an object to work on and leaves one behind. *)
Definition strict (f : json → result json) : Prop :=
  ∀ x x', f x = Ok x' → is_undef x = false ∧ is_undef x' = false.

(** ** Deep equality and the outcome of a diff *)

(** What JSON text can hold: no [undefined] anywhere. *)
Fixpoint is_json (v : json) : bool :=
  match v with
  | JUndef => false
  | JArr l => forallb is_json l
  | JObj o => forallb (λ kv, is_json kv.2) o
  | _ => true
  end.

(** No object of the value has the empty string as a key. *)
Fixpoint no_empty_key (v : json) : bool :=
  match v with
  | JArr l => forallb no_empty_key l
  | JObj o =>
      forallb (λ kv, negb (bool_decide (kv.1 = "")) && no_empty_key kv.2) o
  | _ => true
  end.

(** Deep equality: arrays element by element, objects key by key in any
    order. *)
Fixpoint deep_equal (a b : json) : bool :=
  match a, b with
  | JArr la, JArr lb =>
      (fix go (la lb : list json) : bool :=
         match la, lb with
         | [], [] => true
         | x :: la', y :: lb' => deep_equal x y && go la' lb'
         | _, _ => false
         end) la lb
  | JObj oa, JObj ob =>
      forallb (λ kv, match obj_get ob kv.1 with
                     | Some y => deep_equal kv.2 y
                     | None => false
                     end) oa
      && forallb (λ kv, bool_decide (is_Some (obj_get oa kv.1))) ob
  | _, _ => strict_eqb a b
  end.

(** What [lhs] becomes once every change of [observableDiff(lhs, rhs)] has
    been applied to it. *)
Fixpoint converge (a b : json) : json :=
  match a, b with
  | JArr la, JArr lb =>
      JArr ((fix go (la lb : list json) : list json :=
               match la, lb with
               | x :: la', y :: lb' => converge x y :: go la' lb'
               | _, lb' => lb'
               end) la lb)
  | JObj oa, JObj ob =>
      JObj ((fix go (oa : props) : props :=
               match oa with
               | [] => []
               | (k, x) :: oa' =>
                   match obj_get ob k with
                   | Some y => (k, converge x y) :: go oa'
                   | None => go oa'
                   end
               end) oa
            ++ filter (λ kv, obj_get oa kv.1 = None ∧ kv.1 ≠ "") ob)
  | _, _ => b
  end.

(** The three loops of [deepDiff], by name. *)
Fixpoint diff_elements (path : list DeepDiff.seg) (la lb : list json)
    (i : nat) : list DeepDiff.change :=
  match la, lb with
  | x :: la', y :: lb' =>
      diff_elements path la' lb' (S i) ++
      DeepDiff.deepDiff x y false false (path ++ [DeepDiff.Idx i])
  | _, _ => []
  end.

Definition diff_member (path : list DeepDiff.seg) (ro : props)
    (kx : string * json) : list DeepDiff.change :=
  match obj_get ro kx.1 with
  | Some y => DeepDiff.deepDiff kx.2 y true true (path ++ [DeepDiff.Key kx.1])
  | None => [DeepDiff.DiffDeleted (path ++ [DeepDiff.Key kx.1]) kx.2]
  end.

Definition diff_news (path : list DeepDiff.seg) (lo ro : props)
    : list DeepDiff.change :=
  omap (λ kv : string * json,
          if bool_decide (is_Some (obj_get lo kv.1)) then None
          else if bool_decide (kv.1 = "") then None
          else Some (DeepDiff.DiffNew (path ++ [DeepDiff.Key kv.1]) kv.2)) ro.

(** The object loop of [converge]. *)
Fixpoint converge_members (oa ob : props) : props :=
  match oa with
  | [] => []
  | (k, x) :: oa' =>
      match obj_get ob k with
      | Some y => (k, converge x y) :: converge_members oa' ob
      | None => converge_members oa' ob
      end
  end.

(** The slot [s] of [parent] holds [v]. *)
Definition slot (parent : json) (s : DeepDiff.seg) (v : json) : Prop :=
  match parent, s with
  | JObj o, DeepDiff.Key k => obj_get o k = Some v
  | JArr l, DeepDiff.Idx i => l !! i = Some v
  | _, _ => False
  end.

(** [parent] with [v] in its slot [s]. *)
Definition put (parent : json) (s : DeepDiff.seg) (v : json) : json :=
  match parent, s with
  | JObj o, DeepDiff.Key k => JObj (obj_set o k v)
  | JArr l, DeepDiff.Idx i => JArr (<[i := v]> l)
  | _, _ => parent
  end.

(** [applyChange] seen from the object [n] levels down the path of the
    change. *)
Definition applyBelow (n : nat) (it : json) (c : DeepDiff.change)
    : result json :=
  DeepDiff.applyAt it (drop n (DeepDiff.change_path c)) c.

(** ** The reconciliation of one class *)

(** [Common] is the only top-level key of the declaration. *)
Definition only_common (v : json) : bool :=
  forallb (λ k, bool_decide (k = "Common")) (obj_keys (own_props v)).

(** [declaration.Common[K]] is [v], with objects on the way. *)
Definition holds_class (K : string) (v : json) (declaration : json) : Prop :=
  ∃ o oc, declaration = JObj o
          ∧ obj_get o "Common" = Some (JObj oc) ∧ obj_get oc K = Some v.

(** A change that is not below [Common.K]. *)
Definition outside (K : string) (c : DeepDiff.change) : Prop :=
  ∃ T q, DeepDiff.change_path c = DeepDiff.Key T :: q
         ∧ (T ≠ "Common" ∨ ∃ K' q', q = DeepDiff.Key K' :: q' ∧ K' ≠ K).

(** A value that is an object and not an array or [null]. *)
Definition is_plain_object (v : json) : bool :=
  match v with JObj _ => true | _ => false end.

(** What [populateNonTruthClasses] stores for a string or an object. *)
Definition stored (v : json) : json :=
  if is_string v then v else JObj (object_assign [] v).

(** What the loop over [updatedPaths] stores. *)
Definition copied (v : json) : json :=
  if is_string v then v
  else if is_array v then v
  else JObj (object_assign [] v).

(** ** Example declarations *)

(** The declaration of the header comment of [declarationParser.js],
    tenant [Common], with a property [tags] that has no class. *)
Definition example_properties : props :=
  [("schemaVersion", JStr "0.1.0"); ("class", JStr "Device");
   ("Common", JObj [("class", JStr "Tenant");
      ("mySystem", JObj [("class", JStr "System");
         ("hostname", JStr "bigip.example.com");
         ("tags", JObj [("site", JStr "lab")]);
         ("myDns", JObj [("class", JStr "DNS");
            ("nameServers", JArr [JStr "1.2.3.4"])])]);
      ("myNetwork", JObj [("class", JStr "Network");
         ("commonVlan", JObj [("class", JStr "VLAN"); ("tag", JNum 2345);
            ("1.1", JObj [("class", JStr "Interface");
                          ("tagged", JBool true)])])])])].
Definition example_declaration : json := JObj example_properties.

(** A tenant with containers [A] and [B] that each hold a sub-instance
    [x]. *)
Definition two_containers_properties : props :=
  [("class", JStr "Device");
   ("T", JObj [("class", JStr "Tenant");
      ("A", JObj [("class", JStr "Network");
                  ("x", JObj [("class", JStr "VLAN"); ("tag", JNum 100)])]);
      ("B", JObj [("class", JStr "Network");
                  ("x", JObj [("class", JStr "VLAN"); ("tag", JNum 200)])])])].
Definition two_containers : json := JObj two_containers_properties.

(** The parsed document of a call that returns. *)
Definition parsed_of (r : result (DeclarationParser.output * json)) : json :=
  match r with
  | Ok (out, _) => DeclarationParser.parsedDeclaration out
  | Throw _ => JUndef
  end.

(** The declaration as a call that returns leaves it. *)
Definition declaration_after (r : result (DeclarationParser.output * json))
    : json :=
  match r with
  | Ok (_, d) => d
  | Throw _ => JUndef
  end.

(** Two parsed declarations for the diff handler, with [DNS] the one class
    of truth: the desired one and what the device has. *)
Definition desired_common : props :=
  [("hostname", JStr "bigip.example.com");
   ("DNS", JObj [("nameServers", JArr [JStr "1.2.3.4"]);
                 ("search", JArr [JStr "f5.com"])]);
   ("NTP", JObj [("timezone", JStr "UTC")]);
   ("retries", JNum 3)].

Definition desired_declaration : props := [("Common", JObj desired_common)].

Definition current_common : props :=
  [("hostname", JStr "old.example.com");
   ("DNS", JObj [("nameServers", JArr [JStr "8.8.8.8"; JStr "8.8.4.4"]);
                 ("description", JStr "default")]);
   ("NTP", JObj [("timezone", JStr "PST")])].

Definition current_declaration : props := [("Common", JObj current_common)].

(** The resolved document, [undefined] for a rejection. *)
Definition resolved (r : result json) : json :=
  match r with
  | Ok v => v
  | Throw _ => JUndef
  end.

(** ** What a call of [get] has done so far *)

Section progress.
Import ConfigManager.
Variable bigIp_list : string → result json.
(** The world in which [get] was called. *)
Variable w0 : world.

(** Reads as [issue] records them. *)
Definition read_log (paths : list string) : list (string * result json) :=
  map (λ p, (p, bigIp_list p)) paths.

(** None of the reads failed. *)
Definition all_ok (l : list (string * result json)) : Prop :=
  ∀ p e, (p, Throw e) ∉ l.

(** Nothing is committed, the reads awaited so far went well, and the
    reads of [pending] have been issued. *)
Definition logged (pending : list string) (w : world) : Prop :=
  task w = task w0 ∧ doState w = doState w0
  ∧ ∃ ok, reads w = reads w0 ++ ok ++ read_log pending ∧ all_ok ok.

(** The call has failed with nothing committed; a failure that comes from
    a read is the error of a read of this call. *)
Definition aborted (f : failure) (w : world) : Prop :=
  task w = task w0 ∧ doState w = doState w0
  ∧ ∃ new, reads w = reads w0 ++ new
           ∧ ∀ e, f = ReadFailed e → ∃ p, (p, Throw e) ∈ new.

(** [m], run in a world that satisfies [P], ends in [Q]. *)
Definition triple {A} (P : world → Prop) (m : M A)
    (Q : outcome A → world → Prop) : Prop :=
  ∀ w, P w → Q (m w).1 (m w).2.

(** Postconditions that accept every aborted run. *)
Definition absorbs {A} (Q : outcome A → world → Prop) : Prop :=
  ∀ f w, aborted f w → Q (Failed f) w.

(** [m] either aborts or goes on with the reads of [pending a] issued. *)
Definition runs {A} (pending : list string) (m : M A)
    (pending' : A → list string) : Prop :=
  triple (logged pending) m
    (λ r w, match r with
            | Done a => logged (pending' a) w
            | Failed f => aborted f w
            end).

(** How [get] ends: every read went well, or it failed with nothing
    committed. *)
Definition settled_or_aborted (r : outcome unit) (w : world) : Prop :=
  ∃ new, reads w = reads w0 ++ new
         ∧ (all_ok new ∨ ∃ f, r = Failed f ∧ aborted f w).

End progress.

(** ** What a call that succeeds has computed *)

(** Every successful run of [m] returns a value that satisfies [Φ]. *)
Definition gives {A} (m : ConfigManager.M A) (Φ : A → Prop) : Prop :=
  ∀ w a w', m w = (ConfigManager.Done a, w') → Φ a.

(** Every successful run of [m] ends in a world that satisfies [Ψ]. *)
Definition ends {A} (m : ConfigManager.M A)
    (Ψ : ConfigManager.world → Prop) : Prop :=
  ∀ w a w', m w = (ConfigManager.Done a, w') → Ψ w'.

(** The class, the name and the property that a reference record
    addresses in the current config. *)
Definition reference_key (info : ConfigManager.reference)
    : string * string * string :=
  (to_key (ConfigManager.ref_schemaClass info),
   to_key (ConfigManager.ref_name info),
   ConfigManager.ref_property info).

(** ** An example device *)

(** Two descriptors in the style of [configItems.json]: VLANs, whose
    interfaces are behind a reference, and db variables. *)
Definition vlan_descriptor : json :=
  JObj [("path", JStr "/tm/net/vlan"); ("schemaClass", JStr "VLAN");
        ("properties", JArr [JObj [("id", JStr "mtu")];
                             JObj [("id", JStr "tag")]]);
        ("references",
         JObj [("interfacesReference",
                JArr [JObj [("id", JStr "tagged"); ("truth", JBool true)]])])].

Definition db_descriptor : json :=
  JObj [("path", JStr "/tm/sys/db"); ("schemaClass", JStr "DbVariables");
        ("properties", JArr [JObj [("id", JStr "value")]]);
        ("singleValue", JBool true)].

Definition example_configItems : list json := [vlan_descriptor; db_descriptor].

(** The same VLAN descriptor with a rule that ignores the VLAN
    [external]. *)
Definition vlan_descriptor_ignoring : json :=
  JObj (own_props vlan_descriptor
        ++ [("ignore", JArr [JObj [("name", JStr "^external$")]])]).

(** Stand-ins for Node's [url.parse], [querystring] and [RegExp], enough
    for the links, queries and patterns of the example. *)
Definition example_url_parse (link : string) : string * string :=
  let rest := drop_prefix 17 link in             (* https://localhost *)
  (before_first "?" rest, default "" (after_first "?" rest)).

Definition example_querystring_parse (query : string) : alist string :=
  if bool_decide (query = "") then []
  else [(before_first "=" query, default "" (after_first "=" query))].

Definition example_querystring_stringify (query : alist string) : string :=
  String.concat "&" (map (λ kv, kv.1 +:+ "=" +:+ kv.2) query).

Definition example_regex_test (pattern v : json) : bool :=
  match pattern, v with
  | JStr p, JStr s => String.eqb p ("^" +:+ s +:+ "$")
  | _, _ => false
  end.

Definition vlan_external : json :=
  JObj [("kind", JStr "tm:net:vlan:vlanstate"); ("name", JStr "external");
        ("selfLink", JStr "https://localhost/mgmt/tm/net/vlan/~Common~external");
        ("mtu", JNum 1500); ("tag", JNum 4094);
        ("interfacesReference",
         JObj [("link", JStr "https://localhost/mgmt/tm/net/vlan/~Common~external/interfaces?ver=13.1.1");
               ("isSubcollection", JBool true)])].

Definition one_device : json :=
  JArr [JObj [("name", JStr "bigip1"); ("hostname", JStr "bigip.example.com")]].

Definition two_devices : json :=
  JArr [JObj [("name", JStr "bigip1"); ("hostname", JStr "bigip.example.com")];
        JObj [("name", JStr "bigip2"); ("hostname", JStr "bigip.example.com")]].

Definition interfaces_of_external : json :=
  JArr [JObj [("kind", JStr "tm:net:vlan:interfaces:interfacesstate");
              ("name", JStr "1.1"); ("tagged", JBool true)]].

(** [bigIp.list] of the example: the cluster devices, how the read of the
    interfaces settles, and the value of the one db variable. *)
Definition example_device (cmDevices : json) (interfaces : result json)
    (advisory : json) (path : string) : result json :=
  if bool_decide (path = "/tm/sys/provision")
  then Ok (JArr [JObj [("name", JStr "ltm"); ("level", JStr "nominal")]])
  else if bool_decide (path = "/tm/cm/device") then Ok cmDevices
  else if starts_with "/tm/net/vlan?" path then Ok (JArr [vlan_external])
  else if starts_with "/tm/net/vlan/~Common~external/interfaces" path
  then interfaces
  else if starts_with "/tm/sys/db?" path
  then Ok (JArr [JObj [("name", JStr "ui.advisory.text");
                       ("value", advisory)]])
  else Throw (Error "404").

Definition example_deviceInfo : result json :=
  Ok (JObj [("machineId", JStr "m-1"); ("hostname", JStr "bigip.example.com")]).

(** [get] on the example, with the given descriptors and device. *)
Definition example_get (descriptors : list json)
    (device : string → result json) : json → ConfigManager.M unit :=
  ConfigManager.get descriptors device example_deviceInfo (hd (Error ""))
    example_regex_test example_url_parse example_querystring_parse
    example_querystring_stringify "system_auth_name" "system_auth_name1"
    "system_auth_name2".

(** A first call: nothing in the task state, no original config kept. *)
Definition fresh_world : ConfigManager.world :=
  ConfigManager.World JUndef (ConfigManager.State JUndef JUndef) ∅ [].

(** A declaration that sets the one db variable. *)
Definition db_declaration : json :=
  JObj [("Common",
         JObj [("myVars", JObj [("class", JStr "DbVariables");
                                ("ui.advisory.text", JStr "wanted")])])].

(** The example device with one cluster device, the interfaces of the VLAN
    as given and the db variable [hello]. *)
Definition device_with (interfaces : result json) : string → result json :=
  example_device one_device interfaces (JStr "hello").

(** An original config kept for the device [m-1], in which the db variable
    has the value [v]. *)
Definition kept_original (v : json) : json :=
  JObj [("parsed", JBool true);
        ("Common", JObj [("DbVariables", JObj [("ui.advisory.text", v)])])].

Definition world_with_original (v : json) : ConfigManager.world :=
  ConfigManager.World JUndef (ConfigManager.State JUndef JUndef)
    {["m-1" := kept_original v]} [].

(** A task state saved by a prior version: the original config is in
    [state.originalConfig] and [doState] keeps none. *)
Definition legacy_world (v : json) : ConfigManager.world :=
  ConfigManager.World JUndef (ConfigManager.State JUndef (kept_original v))
    ∅ [].

(** The original config that [doState] keeps for the device [m-1]. *)
Definition original_of (w : ConfigManager.world) : json :=
  default JUndef (ConfigManager.doState w !! "m-1").

(** ** What the helpers of the config manager look at *)

(** The keys that [removeUnusedKeys] deletes. *)
Definition unused (nameless : json) (key : string) : bool :=
  ends_with "Reference" key
  || bool_decide (key ∈ ["kind"; "selfLink"]
                        ++ (if truthy nameless then ["name"] else [])).

(** Whether the entry [ignoreInfo] of an ignore list matches [item]: the
    first key of the entry names the property, its value is the pattern. *)
Definition ignores (regex_test : json → json → bool) (item ignoreInfo : json)
    : bool :=
  let property :=
    to_key (default JUndef (JStr <$> head (obj_keys (own_props ignoreInfo)))) in
  truthy (get_prop item property)
  && regex_test (get_prop ignoreInfo property) (get_prop item property).

(** ** The snapshot that [get] keeps *)

(** The fill-in loop of the last [then] of [get]: the db variables of the
    current config that the original config has no (truthy) value for are
    copied into it. *)
Definition fillDbVariables (currentConfig : props) (originalConfig : json)
    : result json :=
  let currentDbVariables :=
    default JUndef (obj_get currentConfig "DbVariables") in
  if truthy currentDbVariables then
    common ← read_prop originalConfig "Common";
    dbVariables ← read_prop common "DbVariables";
    let dbVariables :=
      if truthy dbVariables then dbVariables else JObj [] in
    keys ← object_keys currentDbVariables;
    dbVariables ← foldM (λ dbVariables dbVar,
      if negb (truthy (get_prop dbVariables dbVar))
      then set_prop dbVariables dbVar
             (get_prop currentDbVariables dbVar)
      else Ok dbVariables) dbVariables keys;
    common ← set_prop common "DbVariables" dbVariables;
    set_prop originalConfig "Common" common
  else Ok originalConfig.

(** The original config that the last [then] of [get] starts from: the
    one [doState] keeps for the device, else the one of the task state (a
    state saved by a prior version), else the current config. *)
Definition snapshot_base (w : ConfigManager.world) (current : json) : json :=
  let stored :=
    default JUndef (ConfigManager.doState w
                      !! to_key (ConfigManager.configId w)) in
  let original := ConfigManager.originalConfig (ConfigManager.task w) in
  let kept := if truthy original && negb (truthy stored)
              then original else stored in
  if truthy kept then kept else current.

(** A step that leaves the task state, the kept original configs and the
    config id alone. *)
Definition quiet (w w' : ConfigManager.world) : Prop :=
  ConfigManager.configId w' = ConfigManager.configId w
  ∧ ConfigManager.task w' = ConfigManager.task w
  ∧ ConfigManager.doState w' = ConfigManager.doState w.

(** A step that changes no original config but that of the current config
    id. *)
Definition apart (w w' : ConfigManager.world) : Prop :=
  ConfigManager.configId w' = ConfigManager.configId w
  ∧ ∀ id, id ≠ to_key (ConfigManager.configId w) →
          ConfigManager.doState w' !! id = ConfigManager.doState w !! id.

(** [m] takes every world to one that [R] relates it to, however it
    ends. *)
Definition moves {A} (R : relation ConfigManager.world)
    (m : ConfigManager.M A) : Prop :=
  ∀ w, R w (m w).2.

(** ** The config responder ([nodejs/configResponse.js]) *)

Module ConfigResponse.
Section responder.
(** [sharedConstants.BASE_URL], [ENDPOINTS.CONFIG] and [STATUS.STATUS_OK] *)
Variables BASE_URL ENDPOINTS_CONFIG STATUS_OK : string.

(** The responder reads the original configs that [doState] keeps. *)
Definition getSelfLink (id : json) : string :=
  BASE_URL +:+ "/" +:+ ENDPOINTS_CONFIG +:+ "/" +:+ to_key id.

Definition exists_ (id : json) : ConfigManager.M bool :=
  stored ← ConfigManager.getOriginalConfigByConfigId id;
  mret (truthy stored).

Definition getCode : Z := 200%Z.
Definition getStatus : string := STATUS_OK.
Definition getMessage : string := "".
Definition getErrors : list json := [].

Definition getData (id : json) : ConfigManager.M json :=
  ConfigManager.getOriginalConfigByConfigId id.

End responder.
End ConfigResponse.

(** ** Examples for the helpers *)

(** A descriptor property list, a user as the device reports it and the
    ignore list of the example. *)
Definition vlan_properties : json :=
  JArr [JObj [("id", JStr "mtu")]; JObj [("id", JStr "tag")]].

Definition reported_user : props :=
  [("name", JStr "admin"); ("partitionAccess", JStr "all-partitions")].

Definition radius_merge : json :=
  JObj [("path", JArr [JStr "radius"; JStr "servers"])].

Definition ignore_external : json :=
  JArr [JObj [("name", JStr "^external$")]].

Definition task_with_db_variable : ConfigManager.state :=
  ConfigManager.State
    (JObj [("Common",
            JObj [("DbVariables", JObj [("ui.system.preferences", JStr "x")])])])
    JUndef.

(** ** Classes that only one of the two declarations has *)

(** [declaration.Common] is an object in which the class [K] is [x], or
    is missing when [x] is [None]. *)
Definition class_is (K : string) (x : option json) (declaration : json)
    : Prop :=
  ∃ o oc, declaration = JObj o
          ∧ obj_get o "Common" = Some (JObj oc) ∧ obj_get oc K = x.

(** A current declaration with a VLAN that the desired declaration of the
    example does not have, and one without DNS. *)
Definition current_with_vlan : props :=
  [("Common",
    JObj (current_common
          ++ [("VLAN", JObj [("external", JObj [("tag", JNum 4094)])])]))].

Definition current_without_dns : props :=
  [("Common", JObj [("hostname", JStr "old.example.com")])].

(** ** The tenants of a declaration *)

(** A key of the declaration that [getTenants] keeps: it is not ignored
    and the value under it has the class [Tenant]. *)
Definition is_tenant (declaration : props) (key : string) : bool :=
  DeclarationParser.isKeyOfInterest key
  && strict_eqb (get_path (JObj declaration) [key; "class"]) (JStr "Tenant").

(** The tenants that [parse] reports, none for a parse that throws. *)
Definition tenants_of (r : result (DeclarationParser.output * json))
    : list string :=
  match r with
  | Ok (out, _) => DeclarationParser.tenants out
  | Throw _ => []
  end.

(** A declaration whose tenant is [null]. *)
Definition null_tenant_properties : props :=
  [("schemaVersion", JStr "1.0.0"); ("class", JStr "Device");
   ("Common", JNull)].

(** ** The keys that a descriptor property maps *)

(** The keys of the item that [mapProperties] may write for the descriptor
    property [property]: its [id], the targets of its [transform] and the
    key under which its [newId] starts. *)
Definition mapped_keys (property : json) : list string :=
  let id := to_key (get_prop property "id") in
  let transform := get_prop property "transform" in
  let transforms :=
    if truthy transform then
      match transform with
      | JArr l => filter (λ x, is_undef x = false) l
      | _ => []
      end
    else [] in
  let targets :=
    (λ trans, if truthy (get_prop trans "newId")
              then to_key (get_prop trans "newId")
              else to_key (get_prop trans "id")) <$> transforms in
  let renamed :=
    match get_prop property "newId" with
    | JStr newId =>
        match String.index 0 "." newId with
        | Some (S _) => [hd "" (split "." newId)]
        | _ => [newId]
        end
    | _ => []
    end in
  id :: targets ++ renamed.

(** A descriptor of self IPs and a self IP as the device reports it. *)
Definition selfIp_properties : list json :=
  [JObj [("id", JStr "vlan")];
   JObj [("id", JStr "trafficGroup"); ("newId", JStr "group.name")];
   JObj [("id", JStr "floating"); ("truth", JStr "enabled")]].

Definition selfIp_configItems : list json :=
  [JObj [("path", JStr "/tm/net/self");
         ("properties", JArr selfIp_properties)]].

Definition reported_selfIp : json :=
  JObj [("name", JStr "internal-self");
        ("vlan", JStr "/Common/internal");
        ("trafficGroup", JStr "traffic-group-local-only");
        ("floating", JStr "disabled")].

(** ** Invariants of [parse] for a property that has no class *)

Section plain_invariants.
Import DeclarationParser.
(** Tenant [tn], container [cn] of class [C], key [k] holding the value
    [v], bound for the bag of ([ct], [tn]) under [name]. *)
Variables (tn cn k : string) (C v : json) (ct name : string).

(** Before the property is visited. *)
Definition pending_plain (st : state) : Prop :=
  get_path (declaration st) [tn; cn; k] = v
  ∧ get_path (declaration st) [tn; cn; "class"] = C
  ∧ (∀ ct' tn' key a b c,
       aget (get_bag (parsed st) ct' tn') key = Some (Shared a b c) →
       isKeyOfInterest c = true ∧ (a, b, c) ≠ (tn, cn, k)).

(** After it has been visited. *)
Definition filed_plain (st : state) : Prop :=
  aget (get_bag (parsed st) ct tn) name = Some (Own v).

End plain_invariants.

(** An authentication item as the device reports it, and the primary
    radius server under the names that the device gives radius servers. *)
Definition reported_auth : props :=
  [("type", JStr "active-directory"); ("fallback", JStr "true")].

Definition reported_radius_server : props :=
  [("name", JStr "system_auth_name1"); ("server", JStr "1.2.3.4");
   ("port", JNum 1812)].

(** A db variable that the declaration of the example does not set. *)
Definition other_db_variable : json :=
  JObj [("kind", JStr "tm:sys:db:dbstate"); ("name", JStr "ui.system.preferences");
        ("value", JStr "default")].

(** * Properties *)

(** ** Association-list lemmas *)

Section alist_lemmas.
Context {V : Type}.
Implicit Types (o : alist V) (k : string) (v : V).

Lemma aget_aset_eq o k v : aget (aset o k v) k = Some v.
Proof.
  induction o as [|[k' v'] o IH]; simpl.
  - by rewrite decide_True.
  - destruct (decide (k' = k)); simpl.
    + by rewrite decide_True.
    + by rewrite decide_False.
Qed.

Lemma aget_aset_ne o k k' v : k' ≠ k → aget (aset o k v) k' = aget o k'.
Proof.
  intros Hne. induction o as [|[k0 v0] o IH]; simpl.
  - by rewrite decide_False.
  - destruct (decide (k0 = k)) as [->|]; simpl.
    + by rewrite !decide_False.
    + destruct (decide (k0 = k')); [done|apply IH].
Qed.

Lemma aget_aset o k k' v :
  aget (aset o k v) k' = if decide (k' = k) then Some v else aget o k'.
Proof.
  destruct (decide (k' = k)) as [->|]; auto using aget_aset_eq, aget_aset_ne.
Qed.

Lemma aset_keys o k v : is_Some (aget o k) → (aset o k v).*1 = o.*1.
Proof.
  induction o as [|[k' v'] o IH]; simpl; intros [x Hx]; [done|].
  destruct (decide (k' = k)) as [->|]; simpl; [done|].
  f_equal. apply IH. eauto.
Qed.

Lemma aset_keys_new o k v : aget o k = None → (aset o k v).*1 = o.*1 ++ [k].
Proof.
  induction o as [|[k' v'] o IH]; simpl; [done|].
  destruct (decide (k' = k)); [done|]. intros. simpl. f_equal. auto.
Qed.

Lemma aget_Some_elem o k v : aget o k = Some v → (k, v) ∈ o.
Proof.
  induction o as [|[k' v'] o IH]; simpl; [done|].
  destruct (decide (k' = k)) as [->|].
  - intros [= ->]. left.
  - intros. right. auto.
Qed.

Lemma aget_Some_key o k v : aget o k = Some v → k ∈ o.*1.
Proof.
  intros H%aget_Some_elem.
  apply list_elem_of_fmap. by exists (k, v).
Qed.

Lemma aget_None o k : aget o k = None ↔ k ∉ o.*1.
Proof.
  induction o as [|[k' v'] o IH]; simpl.
  - split; [intros _; apply not_elem_of_nil|done].
  - destruct (decide (k' = k)) as [->|].
    + split; [done|]. intros Hk. destruct Hk. left.
    + rewrite IH, not_elem_of_cons. naive_solver.
Qed.

Lemma aget_is_Some o k : is_Some (aget o k) ↔ k ∈ o.*1.
Proof.
  rewrite <-not_eq_None_Some, aget_None.
  destruct (decide (k ∈ o.*1)); naive_solver.
Qed.

Lemma elem_aget_nodup o k v : NoDup o.*1 → (k, v) ∈ o → aget o k = Some v.
Proof.
  induction o as [|[k' v'] o IH]; simpl.
  - intros _ H. by apply not_elem_of_nil in H.
  - intros [Hk Hnd]%NoDup_cons [H|H]%elem_of_cons.
    + injection H as -> ->. by rewrite decide_True.
    + destruct (decide (k' = k)) as [->|]; [|auto].
      destruct Hk. apply list_elem_of_fmap. by exists (k, v).
Qed.

Lemma aget_adel_eq o k : aget (adel o k) k = None.
Proof.
  apply aget_None. unfold adel. intros [[k' v] [-> H]]%list_elem_of_fmap.
  apply list_elem_of_filter in H as [H _]. by apply H.
Qed.

Lemma aget_adel_ne o k k' : k' ≠ k → aget (adel o k) k' = aget o k'.
Proof.
  intros Hne. unfold adel. induction o as [|[k0 v0] o IH]; [done|].
  rewrite filter_cons. simpl. destruct (decide (k0 ≠ k)) as [Hk|Hk]; simpl.
  - destruct (decide (k0 = k')); auto.
  - apply dec_stable in Hk as ->. by rewrite decide_False.
Qed.

Lemma adel_keys_nodup o k : NoDup o.*1 → NoDup (adel o k).*1.
Proof.
  unfold adel. induction o as [|[k0 v0] o IH]; [done|].
  rewrite filter_cons. simpl. intros [Hk Hnd]%NoDup_cons.
  destruct (decide (k0 ≠ k)); simpl; [|auto].
  apply NoDup_cons. split; [|auto].
  intros [[k' v] [-> H]]%list_elem_of_fmap.
  apply list_elem_of_filter in H as [_ H].
  apply Hk. apply list_elem_of_fmap. by exists (k', v).
Qed.

(** Copying the properties one by one onto an object that has none of
    them appends them in order. *)
Lemma fold_aset_app o acc :
  NoDup o.*1 → (∀ k, k ∈ o.*1 → k ∉ acc.*1) →
  fold_left (λ t kv, aset t kv.1 kv.2) o acc = acc ++ o.
Proof.
  revert acc. induction o as [|[k v] o IH]; simpl; intros acc Hnd Hdisj.
  - by rewrite app_nil_r.
  - apply NoDup_cons in Hnd as [Hk Hnd].
    assert (aset acc k v = acc ++ [(k, v)]) as ->.
    { assert (k ∉ acc.*1) as Hacc by (apply Hdisj; left).
      clear IH Hdisj. induction acc as [|[k' v'] acc IH]; simpl; [done|].
      apply not_elem_of_cons in Hacc as [? ?].
      rewrite decide_False by done. f_equal. auto. }
    rewrite IH, <-app_assoc; [done|done|].
    intros k' Hk'. rewrite fmap_app, elem_of_app. simpl.
    intros [?|Hs]; [|apply list_elem_of_singleton in Hs as ->; done].
    eapply Hdisj; [right|]; done.
Qed.

Lemma aget_fmap {W} (f : V → W) o k :
  aget (prod_map id f <$> o) k = f <$> aget o k.
Proof.
  induction o as [|[k' v'] o IH]; simpl; [done|].
  destruct (decide (k' = k)); [done|apply IH].
Qed.
End alist_lemmas.

Lemma object_assign_fresh (o : props) :
  NoDup o.*1 → object_assign [] (JObj o) = o.
Proof.
  intros Hnd. unfold object_assign. simpl.
  rewrite (fold_aset_app (V:=json)); [done|done|].
  intros k _. apply not_elem_of_nil.
Qed.



(** ** The exception monad *)

Lemma bind_Ok {A B} (m : result A) (f : A → result B) y :
  m ≫= f = Ok y ↔ ∃ x, m = Ok x ∧ f x = Ok y.
Proof. destruct m; simpl; naive_solver. Qed.

Lemma fmap_Ok {A B} (m : result A) (f : A → B) y :
  f <$> m = Ok y ↔ ∃ x, m = Ok x ∧ y = f x.
Proof. destruct m; simpl; naive_solver. Qed.

Lemma foldM_app {A S} (f : S → A → result S) s l1 l2 :
  foldM f s (l1 ++ l2) = foldM f s l1 ≫= λ s', foldM f s' l2.
Proof.
  revert s. induction l1 as [|x l1 IH]; intros s; simpl; [done|].
  destruct (f s x); simpl; [apply IH|done].
Qed.

(** An invariant of every step is an invariant of the loop. *)
Lemma foldM_invariant {A S} (f : S → A → result S) (P : S → Prop) l s s' :
  foldM f s l = Ok s' → P s →
  (∀ x s s', x ∈ l → f s x = Ok s' → P s → P s') → P s'.
Proof.
  revert s. induction l as [|x l IH]; simpl; intros s H Hs Hstep.
  - congruence.
  - apply bind_Ok in H as (s1 & Hx & H).
    eapply IH; [done| |].
    + eapply Hstep; [left|done..].
    + intros y t t' Hy. apply Hstep. by right.
Qed.

(** A loop over distinct elements that takes [P] to [Q] at [x] and keeps
    both elsewhere. *)
Lemma foldM_once {A S} (f : S → A → result S) (P Q : S → Prop) x l s s' :
  NoDup l → x ∈ l → foldM f s l = Ok s' → P s →
  (∀ y s s', y ∈ l → y ≠ x → f s y = Ok s' → (P s → P s') ∧ (Q s → Q s')) →
  (∀ s s', f s x = Ok s' → P s → Q s') →
  Q s'.
Proof.
  intros Hnd Hx H Hs Hother Hat.
  apply list_elem_of_split in Hx as (l1 & l2 & ->).
  apply NoDup_app in Hnd as (_ & Hl1 & [Hl2 _]%NoDup_cons).
  rewrite foldM_app in H. apply bind_Ok in H as (s1 & H1 & H).
  simpl in H. apply bind_Ok in H as (s2 & Hx & H2).
  eapply (foldM_invariant f Q); [exact H2| |].
  - eapply Hat; [done|].
    eapply (foldM_invariant f P); [exact H1|done|].
    intros y t t' Hy Hf.
    apply (Hother y t t'); [|intros ->; eapply Hl1; [done|left]|done].
    apply elem_of_app. by left.
  - intros y t t' Hy Hf.
    apply (Hother y t t'); [|by intros ->|done].
    apply elem_of_app. right. by right.
Qed.

(** ** Reading and writing properties *)

Lemma object_keys_Ok v keys :
  object_keys v = Ok keys →
  keys = obj_keys (own_props v) ∧ is_nullish v = false.
Proof. destruct v; simpl; intros [= <-]; done. Qed.

Lemma read_prop_defined v key :
  is_nullish v = false → read_prop v key = Ok (get_prop v key).
Proof. by destruct v. Qed.

Lemma read_prop_Ok v key x :
  read_prop v key = Ok x → x = get_prop v key ∧ is_nullish v = false.
Proof. destruct v; simpl; intros [= <-]; done. Qed.

Lemma key_index_Some n k i :
  key_index n k = Some i → i < n ∧ index_key i = k.
Proof.
  unfold key_index. intros H. apply fmap_Some in H as [[i' x] [H ->]].
  apply list_find_Some in H as (Hl & Hk & _). simpl.
  apply lookup_seq in Hl as [-> ?]. auto.
Qed.

Lemma key_index_inj n k k' i :
  key_index n k = Some i → key_index n k' = Some i → k = k'.
Proof.
  intros [_ <-]%key_index_Some [_ <-]%key_index_Some. done.
Qed.

Lemma set_prop_get_eq v k x v' :
  set_prop v k x = Ok v' → get_prop v' k = x.
Proof.
  destruct v; simpl; try done.
  - destruct (key_index (length items) k) as [i|] eqn:Hi; [|done].
    intros [= <-]. simpl. rewrite length_insert, Hi.
    apply key_index_Some in Hi as [Hi _].
    by rewrite list_lookup_insert_eq.
  - intros [= <-]. simpl. unfold obj_get, obj_set. by rewrite aget_aset_eq.
Qed.

Lemma set_prop_get_ne v k k' x v' :
  set_prop v k x = Ok v' → k' ≠ k → get_prop v' k' = get_prop v k'.
Proof.
  destruct v; simpl; try done.
  - destruct (key_index (length items) k) as [i|] eqn:Hi; [|done].
    intros [= <-] Hne. simpl. rewrite length_insert.
    destruct (key_index (length items) k') as [i'|] eqn:Hi'; [|done].
    rewrite list_lookup_insert_ne; [done|].
    intros ->. apply Hne. eauto using key_index_inj.
  - intros [= <-] Hne. simpl. unfold obj_get, obj_set.
    by rewrite aget_aset_ne.
Qed.

Lemma update_path_get_same v p f v' :
  update_path v p f = Ok v' →
  ∃ x', f (get_path v p) = Ok x' ∧ get_path v' p = x'.
Proof.
  revert v v'. induction p as [|k p IH]; simpl; intros v v' H; [eauto|].
  destruct (update_path (get_prop v k) p f) as [x|] eqn:Hx; [|done].
  simpl in H. apply IH in Hx as (x' & Hf & Hx'). exists x'. split; [done|].
  by erewrite set_prop_get_eq.
Qed.

Lemma update_path_get_other v p q f v' :
  update_path v q f = Ok v' → length p = length q → p ≠ q →
  get_path v' p = get_path v p.
Proof.
  revert v v' p. induction q as [|k q IH]; intros v v' [|k0 p] H Hlen Hne;
    simpl in *; try done.
  destruct (update_path (get_prop v k) q f) as [x|] eqn:Hx; [|done].
  simpl in H. destruct (decide (k0 = k)) as [->|Hk].
  - erewrite set_prop_get_eq by done. eapply IH; [done|lia|congruence].
  - by erewrite set_prop_get_ne.
Qed.

Lemma zip_insert_keys (ns : list string) (l : list json) i x y :
  l !! i = Some y → is_undef y = false → is_undef x = false →
  (filter (λ kv : string * json, is_undef kv.2 = false) (zip ns (<[i:=x]> l))).*1
  = (filter (λ kv : string * json, is_undef kv.2 = false) (zip ns l)).*1.
Proof.
  revert ns i. induction l as [|z l IH]; intros [|n ns] i; try done.
  destruct i as [|i]; simpl; intros Hl Hy Hx.
  - injection Hl as ->. rewrite !filter_cons. simpl.
    by rewrite !decide_True by done.
  - rewrite !filter_cons. simpl.
    destruct (decide (is_undef z = false)); simpl; [f_equal|]; eauto.
Qed.

Lemma set_prop_keys v key x v' :
  set_prop v key x = Ok v' → is_undef (get_prop v key) = false →
  is_undef x = false →
  obj_keys (own_props v') = obj_keys (own_props v).
Proof.
  destruct v; simpl; try done.
  - destruct (key_index (length items) key) as [i|] eqn:Hi; [|done].
    intros [= <-] Hget Hx. simpl. unfold indexed, obj_keys.
    rewrite length_insert.
    destruct (items !! i) as [y|] eqn:Hy; [|done].
    by eapply zip_insert_keys.
  - intros [= <-] Hget Hx. simpl. unfold obj_set, obj_get, obj_keys in *.
    apply aset_keys. destruct (aget props key); [eauto|done].
Qed.

Lemma set_prop_defined v key x v' :
  set_prop v key x = Ok v' → is_undef v = false ∧ is_undef v' = false.
Proof.
  destruct v; simpl; try done.
  - destruct (key_index _ _); [|done]. by intros [= <-].
  - by intros [= <-].
Qed.

Lemma update_path_cons v key p f v' :
  update_path v (key :: p) f = Ok v' →
  ∃ x, update_path (get_prop v key) p f = Ok x ∧ set_prop v key x = Ok v'.
Proof.
  simpl. destruct (update_path (get_prop v key) p f) as [x|]; [eauto|done].
Qed.

Lemma update_path_keys v p f v' :
  update_path v p f = Ok v' → p ≠ [] → strict f →
  obj_keys (own_props v') = obj_keys (own_props v)
  ∧ is_undef v = false ∧ is_undef v' = false.
Proof.
  intros H Hp Hf. revert v v' H.
  induction p as [|key p IH]; [done|]. intros v v' H.
  apply update_path_cons in H as (x & Hx & Hset).
  assert (is_undef (get_prop v key) = false ∧ is_undef x = false) as [? ?].
  { destruct p as [|key' p]; [by apply Hf|]. by apply IH in Hx as (_ & ? & ?). }
  split; [by eapply set_prop_keys|by eapply set_prop_defined].
Qed.

Lemma delete_prop_strict key : strict (λ v, delete_prop v key).
Proof.
  intros [] x'; simpl; try (by intros [= <-]); try done.
  destruct (key_index _ _); by intros [= <-].
Qed.

Lemma set_prop_strict key x : strict (λ v, set_prop v key x).
Proof. intros v v' H. by eapply set_prop_defined. Qed.

Section parser_frame.
Import DeclarationParser.
Variables (d0 : json) (tn : string).

Lemma frame_kept_refl : frame_kept d0 tn d0.
Proof. by split. Qed.

Lemma frame_kept_update d a b c f d' :
  strict f → update_path d [a; b; c] f = Ok d' →
  frame_kept d0 tn d → frame_kept d0 tn d'.
Proof.
  intros Hf Hup [Ht Hc].
  apply update_path_cons in Hup as (t' & Ht' & Hset).
  destruct (decide (tn = a)) as [->|Hne].
  - assert (get_prop d' a = t') as Hd' by (by eapply set_prop_get_eq).
    split.
    + rewrite Hd', <-Ht. by eapply update_path_keys.
    + intros cn'. rewrite <-Hc. simpl. rewrite Hd'.
      apply update_path_cons in Ht' as (c' & Hc' & Hset').
      destruct (decide (cn' = b)) as [->|Hb].
      * erewrite set_prop_get_eq by done. by eapply update_path_keys.
      * by erewrite set_prop_get_ne.
  - assert (get_prop d' tn = get_prop d tn) as Hd'
      by (by eapply set_prop_get_ne).
    split; [by rewrite Hd'|]. intros cn'. rewrite <-Hc. simpl. by rewrite Hd'.
Qed.
End parser_frame.

(** ** One step of [parse] *)

Section parser_steps.
Import DeclarationParser.

Lemma aset_aset {V} (o : alist V) key x y :
  aset (aset o key x) key y = aset o key y.
Proof.
  induction o as [|[k' v'] o IH]; simpl.
  - by rewrite decide_True.
  - destruct (decide (k' = key)) as [->|]; simpl.
    + by rewrite decide_True.
    + rewrite decide_False by done. by rewrite IH.
Qed.

Lemma get_bag_set_bag p ct1 tn1 b ct' tn' :
  get_bag (set_bag p ct1 tn1 b) ct' tn'
  = if decide (ct' = ct1 ∧ tn' = tn1) then b else get_bag p ct' tn'.
Proof.
  unfold get_bag, set_bag. rewrite aget_aset.
  destruct (decide (ct' = ct1)) as [->|Hct]; simpl.
  - rewrite aget_aset. destruct (decide (tn' = tn1)) as [->|Htn].
    + by rewrite decide_True.
    + rewrite decide_False by naive_solver. by destruct (aget p ct1).
  - by rewrite decide_False by naive_solver.
Qed.

Lemma get_bag_set_bag_self p ct1 tn1 ct' tn' :
  get_bag (set_bag p ct1 tn1 (get_bag p ct1 tn1)) ct' tn' = get_bag p ct' tn'.
Proof.
  rewrite get_bag_set_bag. destruct (decide _) as [[-> ->]|]; done.
Qed.

(** What a visit of [key] can do, by the branch of [parse] it takes. *)
Lemma fileProperty_cases tn' cn' C' st key st' :
  fileProperty tn' cn' C' st key = Ok st' →
  let b := get_bag (parsed st) (to_key C') tn' in
  let name' := fullName C' cn' key in
  let property := get_path (declaration st) [tn'; cn'; key] in
  (isKeyOfInterest key = false ∧ st' = st)
  ∨ (isKeyOfInterest key = true ∧
     ∃ e, declaration st' = declaration st
          ∧ parsed st' = set_bag (parsed st) (to_key C') tn' (aset b name' e)
          ∧ (∀ a' b' c', e = Shared a' b' c' → (a', b', c') = (tn', cn', key))
          ∧ (∀ o, property = JObj o →
                  truthy (default JUndef (obj_get o "class")) = false))
  ∨ (isKeyOfInterest key = true ∧
     ∃ d bucket bucket',
       let pc' := to_key (get_prop property "class") in
       update_path (declaration st) [tn'; cn'; key]
                   (λ property, delete_prop property "class") = Ok d
       ∧ declaration st' = d
       ∧ set_prop bucket name'
           (JObj (object_assign [] (get_path d [tn'; cn'; key]))) = Ok bucket'
       ∧ parsed st' = set_bag (parsed st) (to_key C') tn'
                              (aset b pc' (Own bucket'))
       ∧ (aget b pc' = Some (Own bucket) ∧ truthy bucket = true
          ∨ bucket = JObj [] ∧
            ∀ e, aget b pc' = Some e → truthy (entry_value d e) = false))
  ∨ (isKeyOfInterest key = true ∧
     ∃ d d' a' b' c',
       let pc' := to_key (get_prop property "class") in
       update_path (declaration st) [tn'; cn'; key]
                   (λ property, delete_prop property "class") = Ok d
       ∧ aget b pc' = Some (Shared a' b' c')
       ∧ update_path d [a'; b'; c']
           (λ o, set_prop o name'
              (JObj (object_assign [] (get_path d [tn'; cn'; key])))) = Ok d'
       ∧ declaration st' = d'
       ∧ parsed st' = set_bag (parsed st) (to_key C') tn' b).
Proof.
  intros H b name' property. unfold fileProperty in H.
  destruct (isKeyOfInterest key) eqn:Hkey; [|left; split; congruence].
  right. fold property in H.
  apply bind_Ok in H as (cls & Hcls & H).
  destruct (is_object_type property && truthy cls) eqn:Htyped.
  - right. apply andb_true_iff in Htyped as [Hobj Hcl].
    rewrite Hobj in Hcls.
    assert (cls = get_prop property "class") as Hclass.
    { destruct property; simpl in *; congruence. }
    unfold fileInstance in H.
    apply bind_Ok in H as (d & Hd & H). fold b in H.
    set (b1 := match aget b (to_key cls) with
               | Some e => if truthy (entry_value d e) then b
                           else aset b (to_key cls) (Own (JObj []))
               | None => aset b (to_key cls) (Own (JObj []))
               end) in *.
    destruct (aget b1 (to_key cls)) as [[bucket|a' b' c']|] eqn:Hb1; [| |done].
    + left. split; [done|].
      apply bind_Ok in H as (bucket' & Hset & H).
      injection H as <-. simpl.
      exists d, bucket, bucket'. rewrite <-Hclass.
      split_and!; try done.
      * f_equal. subst b1. destruct (aget b (to_key cls)) as [e|] eqn:He.
        -- destruct (truthy (entry_value d e)); [done|apply aset_aset].
        -- apply aset_aset.
      * subst b1. destruct (aget b (to_key cls)) as [e|] eqn:He.
        -- destruct (truthy (entry_value d e)) eqn:Htr.
           ++ left. rewrite Hb1 in He. injection He as <-. done.
           ++ right. rewrite aget_aset_eq in Hb1.
              split; [congruence|]. by intros ? [= <-].
        -- right. rewrite aget_aset_eq in Hb1. split; [congruence|done].
    + right. split; [done|].
      apply bind_Ok in H as (d' & Hd' & H).
      injection H as <-. simpl.
      assert (b1 = b ∧ aget b (to_key cls) = Some (Shared a' b' c'))
        as [Hbb Hsh].
      { subst b1. destruct (aget b (to_key cls)) as [e|] eqn:He.
        - destruct (truthy (entry_value d e)); [split; congruence|].
          rewrite aget_aset_eq in Hb1. done.
        - rewrite aget_aset_eq in Hb1. done. }
      exists d, d', a', b', c'. rewrite <-Hclass, Hbb. done.
  - left. split; [done|]. injection H as <-. simpl. eexists.
    split_and!; [done|done| |].
    + intros a' b' c'. destruct (is_object_type property); [|done].
      by intros [= -> -> ->].
    + intros o Ho. rewrite Ho in *. simpl in *. injection Hcls as <-.
      done.
Qed.

End parser_steps.

Lemma filterM_sublist {A} (f : A → result bool) l r :
  DeclarationParser.filterM f l = Ok r → sublist r l.
Proof.
  revert r. induction l as [|x l IH]; simpl; intros r H.
  - injection H as <-. constructor.
  - apply bind_Ok in H as (b & _ & H). apply bind_Ok in H as (r' & Hr' & H).
    injection H as <-. destruct b; [apply sublist_skip|apply sublist_cons]; auto.
Qed.

Lemma filterM_elem {A} (f : A → result bool) l r x :
  DeclarationParser.filterM f l = Ok r → x ∈ l → f x = Ok true → x ∈ r.
Proof.
  revert r. induction l as [|y l IH]; simpl; intros r H Hx Hf.
  - by apply elem_of_nil in Hx.
  - apply bind_Ok in H as (b & Hb & H). apply bind_Ok in H as (r' & Hr' & H).
    injection H as <-. apply elem_of_cons in Hx as [->|Hx].
    + rewrite Hf in Hb. injection Hb as <-. left.
    + destruct b; [right|]; auto.
Qed.

Lemma wf_json_obj o :
  wf_json (JObj o) = true →
  NoDup o.*1 ∧ ∀ key v, obj_get o key = Some v → wf_json v = true.
Proof.
  simpl. intros [Hnd%bool_decide_eq_true Hall]%andb_true_iff. split; [done|].
  intros key v Hv%aget_Some_elem. rewrite forallb_forall in Hall.
  by apply list_elem_of_In, Hall in Hv.
Qed.

(** ** The sub-instance through the loops of [parse] *)

Section parser_target.
Import DeclarationParser.
Variables (d0 : json) (tn cn k : string) (C pcv : json) (property : props).
Hypothesis Hk : isKeyOfInterest k = true.
Hypothesis Hclass : obj_get property "class" = Some pcv.
Hypothesis Htruthy : truthy pcv = true.
Hypothesis Hnodup : NoDup property.*1.

Local Abbreviation ct := (to_key C).
Local Abbreviation pc := (to_key pcv).
Local Abbreviation name := (fullName C cn k).
Local Abbreviation Pending := (pending tn cn k C property ct pc).
Local Abbreviation Filed := (filed tn property ct pc name).

Lemma interest_not_class key : isKeyOfInterest key = true → key ≠ "class".
Proof.
  unfold isKeyOfInterest, KEYS_TO_IGNORE. intros H%bool_decide_eq_true ->.
  apply H. set_solver.
Qed.

Lemma step_frame tn' cn' C' st key st' :
  fileProperty tn' cn' C' st key = Ok st' →
  frame_kept d0 tn (declaration st) → frame_kept d0 tn (declaration st').
Proof.
  intros H Hfr. apply fileProperty_cases in H
    as [[_ ->]|[(_ & e & -> & _)|[(_ & d & ? & ? & Hd & -> & _)
       |(_ & d & d' & ? & ? & ? & Hd & _ & Hd' & -> & _)]]]; try done.
  - eapply frame_kept_update; [apply delete_prop_strict|done..].
  - eapply frame_kept_update; [apply set_prop_strict|done|].
    eapply frame_kept_update; [apply delete_prop_strict|done..].
Qed.

Lemma step_pending tn' cn' C' st key st' :
  fileProperty tn' cn' C' st key = Ok st' →
  (tn', cn', key) ≠ (tn, cn, k) →
  (tn' = tn → to_key C' = ct → fullName C' cn' key ≠ pc) →
  Pending st → Pending st'.
Proof.
  intros H Hne Hnames (Hprop & Hcls & Hbucket & Hshared).
  apply fileProperty_cases in H
    as [[_ ->]|[(Hkey & e & Hd & Hp & He & _)
       |[(Hkey & d & bucket & bucket' & Hd & Hd' & Hset & Hp & Hb)
       |(Hkey & d & d' & a' & b' & c' & Hd & Hsh & Hd' & Hdd & Hp)]]];
    [done|..].
  - (* stored as it is *)
    unfold pending. rewrite Hd, Hp. split_and!; [done|done|..].
    + intros e'. rewrite get_bag_set_bag.
      destruct (decide _) as [[Hct ->]|]; [|apply Hbucket].
      rewrite aget_aset_ne, <-Hct by (intros Heq; by apply Hnames).
      apply Hbucket.
    + intros ct' tn'' key' a b c. rewrite get_bag_set_bag.
      destruct (decide _) as [[-> ->]|]; [|apply Hshared].
      rewrite aget_aset. destruct (decide (key' = _)) as [->|]; [|apply Hshared].
      intros [= ->]. specialize (He _ _ _ eq_refl). injection He as -> -> ->.
      done.
  - (* filed in a bucket of the parsed document *)
    assert (∀ p, length p = 3 → p ≠ [tn'; cn'; key] →
                 get_path d p = get_path (declaration st) p) as Hsame.
    { intros p ??. by eapply update_path_get_other. }
    unfold pending. rewrite Hd' in *. rewrite Hp.
    split_and!.
    + rewrite Hsame; [done|done|congruence].
    + rewrite Hsame; [done|done|].
      intros [= -> -> Heq]. by apply interest_not_class in Hkey.
    + intros e'. rewrite get_bag_set_bag.
      destruct (decide _) as [[Hct ->]|]; [|apply Hbucket].
      rewrite aget_aset. destruct (decide _) as [Hpc|]; [|rewrite <-Hct; apply Hbucket].
      intros [= <-].
      assert (∃ b0, bucket = JObj b0) as [b0 ->].
      { destruct Hb as [[Hb _]|[-> _]]; [|eauto].
        rewrite <-Hpc, <-Hct in Hb. apply Hbucket in Hb as [b0 [= ->]]. eauto. }
      simpl in Hset. injection Hset as <-. eauto.
    + intros ct' tn'' key' a b c. rewrite get_bag_set_bag.
      destruct (decide _) as [[-> ->]|]; [|apply Hshared].
      rewrite aget_aset. destruct (decide _); [done|apply Hshared].
  - (* filed in an object of the declaration *)
    apply Hshared in Hsh as [Hc' Hnot].
    assert (∀ p, length p = 3 → p ≠ [tn'; cn'; key] → p ≠ [a'; b'; c'] →
                 get_path d' p = get_path (declaration st) p) as Hsame.
    { intros p ???. erewrite (update_path_get_other d); [|done..].
      by eapply update_path_get_other. }
    unfold pending. rewrite Hdd, Hp. split_and!.
    + rewrite Hsame; [done|done|congruence|congruence].
    + rewrite Hsame; [done|done|..].
      * intros [= -> -> Heq]. by apply interest_not_class in Hkey.
      * intros [= -> -> Heq]. by apply interest_not_class in Hc'.
    + intros e'. rewrite get_bag_set_bag_self. apply Hbucket.
    + intros ct' tn'' key' a b c. rewrite get_bag_set_bag_self.
      apply Hshared.
Qed.

Lemma step_filed tn' cn' C' st key st' :
  fileProperty tn' cn' C' st key = Ok st' →
  (tn' = tn → to_key C' = ct →
   fullName C' cn' key ≠ pc ∧ fullName C' cn' key ≠ name) →
  Filed st → Filed st'.
Proof.
  intros H Hnames (b0 & Hb0 & Hinst).
  apply fileProperty_cases in H
    as [[_ ->]|[(Hkey & e & Hd & Hp & He & _)
       |[(Hkey & d & bucket & bucket' & Hd & Hd' & Hset & Hp & Hb)
       |(Hkey & d & d' & a' & b' & c' & Hd & Hsh & Hd' & Hdd & Hp)]]];
    [by exists b0|..]; unfold filed; rewrite Hp.
  - exists b0. split; [|done]. rewrite get_bag_set_bag.
    destruct (decide _) as [[Hct ->]|]; [|done].
    rewrite aget_aset_ne, <-Hct; [done|].
    intros Heq. destruct Hnames as [? ?]; [done|done|congruence].
  - rewrite get_bag_set_bag.
    destruct (decide _) as [[Hct ->]|]; [|by exists b0].
    rewrite aget_aset. destruct (decide _) as [Hpc|];
      [|exists b0; by rewrite <-Hct].
    rewrite <-Hpc, <-Hct, Hb0 in Hb.
    destruct Hb as [[[= <-] _]|[_ Hfalse]];
      [|by specialize (Hfalse _ eq_refl)].
    simpl in Hset. injection Hset as <-. eexists. split; [done|].
    unfold obj_set. rewrite aget_aset_ne; [done|].
    intros Heq. destruct Hnames as [? ?]; [done|done|congruence].
  - rewrite get_bag_set_bag_self. by exists b0.
Qed.

Lemma step_target st st' :
  fileProperty tn cn C st k = Ok st' → Pending st → Filed st'.
Proof.
  intros H (Hprop & Hcls & Hbucket & Hshared).
  assert (get_prop (JObj property) "class" = pcv) as Hget.
  { simpl. by rewrite Hclass. }
  apply fileProperty_cases in H
    as [[? _]|[(_ & e & _ & _ & _ & Hplain)
       |[(_ & d & bucket & bucket' & Hd & Hd' & Hset & Hp & Hb)
       |(_ & d & d' & a' & b' & c' & Hd & Hsh & _)]]].
  - congruence.
  - specialize (Hplain _ Hprop). rewrite Hclass in Hplain. simpl in Hplain.
    congruence.
  - rewrite Hprop, Hget in *.
    apply update_path_get_same in Hd as (x' & Hdel & Hx').
    rewrite Hprop in Hdel. simpl in Hdel. injection Hdel as <-.
    rewrite Hx', object_assign_fresh in Hset
      by (by apply (adel_keys_nodup (V:=json))).
    assert (∃ b0, bucket = JObj b0) as [b0 ->].
    { destruct Hb as [[Hb _]|[-> _]]; [|eauto].
      apply Hbucket in Hb as [b0 [= ->]]. eauto. }
    simpl in Hset. injection Hset as <-.
    unfold filed. rewrite Hp, get_bag_set_bag, decide_True by done.
    eexists. split; [apply aget_aset_eq|]. apply (aget_aset_eq (V:=json)).
  - rewrite Hprop, Hget in Hsh. by apply Hbucket in Hsh as [? ?].
Qed.

(** *** The declaration around the sub-instance *)

Variables (top tenant container : props).
Hypothesis Hd0 : d0 = JObj top.
Hypothesis Htop : NoDup top.*1.
Hypothesis Htn : obj_get top tn = Some (JObj tenant).
Hypothesis Htn_int : isKeyOfInterest tn = true.
Hypothesis Htenant : obj_get tenant "class" = Some (JStr "Tenant").
Hypothesis Htenant_nodup : NoDup tenant.*1.
Hypothesis Hcn : obj_get tenant cn = Some (JObj container).
Hypothesis Hcn_int : isKeyOfInterest cn = true.
Hypothesis Hcontainer_nodup : NoDup container.*1.
Hypothesis HC : obj_get container "class" = Some C.
Hypothesis Hprop : obj_get container k = Some (JObj property).
Hypothesis Hapart : names_apart tenant cn k name pc = true.

Local Abbreviation Frame := (λ st, frame_kept d0 tn (declaration st)).

Lemma names_ok cn' C' key :
  key ∈ obj_keys (own_props (get_path d0 [tn; cn'])) →
  isKeyOfInterest cn' = true → isKeyOfInterest key = true →
  (cn', key) ≠ (cn, k) →
  fullName C' cn' key ≠ pc ∧ fullName C' cn' key ≠ name.
Proof.
  rewrite Hd0. simpl. rewrite Htn. simpl.
  destruct (obj_get tenant cn') as [c'|] eqn:Hc'; simpl;
    [|by intros ?%elem_of_nil].
  intros Hkey Hi1 Hi2 Hne. apply aget_Some_elem in Hc'.
  unfold names_apart in Hapart. rewrite forallb_forall in Hapart.
  apply list_elem_of_In, Hapart in Hc'. simpl in Hc'.
  rewrite forallb_forall in Hc'. apply list_elem_of_In, Hc' in Hkey.
  rewrite Hi1, Hi2 in Hkey. simpl in Hkey.
  apply orb_true_iff in Hkey as [Heq|Hkey];
    [by apply bool_decide_eq_true in Heq|].
  apply andb_true_iff in Hkey as [H1%bool_decide_eq_true H2%bool_decide_eq_true].
  unfold fullName. destruct (strict_eqb C' (JStr "System")); set_solver.
Qed.

Lemma container_other tn' cn' st st' :
  fileContainer tn' st cn' = Ok st' →
  (tn', cn') ≠ (tn, cn) → (tn' = tn → isKeyOfInterest cn' = true) →
  Frame st →
  Frame st' ∧ (Pending st → Pending st') ∧ (Filed st → Filed st').
Proof.
  unfold fileContainer. intros H Hne Hint Hfr.
  apply bind_Ok in H as (C' & HC' & H).
  apply bind_Ok in H as (keys & Hkeys & H).
  set (st1 := State _ _) in H.
  assert (∀ key, key ∈ keys → isKeyOfInterest key = true → tn' = tn →
                 fullName C' cn' key ≠ pc ∧ fullName C' cn' key ≠ name)
    as Hnames.
  { intros key Hkey Hi ->. apply names_ok; [|by apply Hint|done|congruence].
    destruct Hfr as [_ Hfr]. rewrite <-Hfr.
    by apply object_keys_Ok in Hkeys as [<- _]. }
  assert (∀ key s s', key ∈ keys → fileProperty tn' cn' C' s key = Ok s' →
            (tn' = tn → to_key C' = ct →
             fullName C' cn' key ≠ pc ∧ fullName C' cn' key ≠ name)
            ∨ s' = s) as Hstep.
  { intros key s s' Hkey Hs.
    destruct (isKeyOfInterest key) eqn:Hi; [left; eauto|right].
    unfold fileProperty in Hs. rewrite Hi in Hs. congruence. }
  split_and!.
  - eapply (foldM_invariant _ Frame); [exact H|done|].
    intros key s s' _ Hs. by eapply step_frame.
  - intros Hpend. eapply (foldM_invariant _ Pending); [exact H| |].
    + destruct Hpend as (? & ? & Hb & Hsh). unfold pending, st1. simpl.
      split_and!; [done|done|..].
      * intros e. rewrite get_bag_set_bag_self. apply Hb.
      * intros ??????. rewrite get_bag_set_bag_self. apply Hsh.
    + intros key s s' Hkey Hs.
      destruct (Hstep key s s') as [Hn| ->]; [done..| |done].
      eapply step_pending; [done| |]; [congruence|].
      intros ??. by apply Hn.
  - intros Hfiled. eapply (foldM_invariant _ Filed); [exact H| |].
    + destruct Hfiled as (b0 & ? & ?). exists b0. unfold st1. simpl.
      by rewrite get_bag_set_bag_self.
    + intros key s s' Hkey Hs.
      destruct (Hstep key s s') as [Hn| ->]; [done..| |done].
      by eapply step_filed.
Qed.

Lemma container_target st st' :
  fileContainer tn st cn = Ok st' →
  Frame st → Pending st → Frame st' ∧ Filed st'.
Proof.
  unfold fileContainer. intros H Hfr Hpend.
  apply bind_Ok in H as (C' & HC' & H).
  apply bind_Ok in H as (keys & Hkeys & H).
  set (st1 := State _ _) in H.
  apply read_prop_Ok in HC' as [HC' _].
  apply object_keys_Ok in Hkeys as [Hkeys _].
  assert (C' = C) as ->.
  { rewrite HC'. by destruct Hpend as (_ & ? & _). }
  assert (keys = container.*1) as ->.
  { rewrite Hkeys. destruct Hfr as [_ ->]. rewrite Hd0. simpl.
    rewrite Htn. simpl. by rewrite Hcn. }
  assert (Pending st1) as Hpend1.
  { destruct Hpend as (? & ? & Hb & Hsh). unfold pending, st1. simpl.
    split_and!; [done|done|..].
    - intros e. rewrite get_bag_set_bag_self. apply Hb.
    - intros ??????. rewrite get_bag_set_bag_self. apply Hsh. }
  apply (foldM_once (fileProperty tn cn C)
           (λ s, Frame s ∧ Pending s) (λ s, Frame s ∧ Filed s)
           k container.*1 st1 st'); [done|by eapply aget_Some_key|done|done|..].
  - intros key s s' Hkey Hne Hs.
    assert (isKeyOfInterest key = true →
            fullName C cn key ≠ pc ∧ fullName C cn key ≠ name) as Hn.
    { intros Hi. apply names_ok; [|done|done|congruence].
      rewrite Hd0. simpl. rewrite Htn. simpl. by rewrite Hcn. }
    destruct (isKeyOfInterest key) eqn:Hi.
    + split; intros [? ?]; (split; [by eapply step_frame|]).
      * eapply step_pending; [done|congruence| |done]. intros _ _. by apply Hn.
      * eapply step_filed; [done| |done]. intros _ _. by apply Hn.
    + unfold fileProperty in Hs. rewrite Hi in Hs. injection Hs as <-. done.
  - intros s s' Hs [? ?]. split; [by eapply step_frame|by eapply step_target].
Qed.

Lemma tenant_other tn' st st' :
  fileTenant st tn' = Ok st' → tn' ≠ tn → Frame st →
  Frame st' ∧ (Pending st → Pending st') ∧ (Filed st → Filed st').
Proof.
  unfold fileTenant. intros H Hne Hfr.
  apply bind_Ok in H as (containers & _ & H).
  assert (∀ cn' s s', fileContainer tn' s cn' = Ok s' → Frame s →
            Frame s' ∧ (Pending s → Pending s') ∧ (Filed s → Filed s'))
    as Hstep.
  { intros cn' s s' Hs. eapply container_other; [done|congruence|done]. }
  split_and!.
  - eapply (foldM_invariant _ Frame); [exact H|done|].
    intros cn' s s' _ Hs ?. by eapply Hstep.
  - intros ?. eapply (foldM_invariant _ (λ s, Frame s ∧ Pending s)) in H
      as [_ ?]; [done|done|].
    intros cn' s s' _ Hs [? ?]. apply Hstep in Hs as (? & Hp & _); auto.
  - intros ?. eapply (foldM_invariant _ (λ s, Frame s ∧ Filed s)) in H
      as [_ ?]; [done|done|].
    intros cn' s s' _ Hs [? ?]. apply Hstep in Hs as (? & _ & Hf); auto.
Qed.

Lemma tenant_target st st' :
  fileTenant st tn = Ok st' → Frame st → Pending st → Frame st' ∧ Filed st'.
Proof.
  unfold fileTenant, getKeysOfInterest. intros H Hfr Hpend.
  apply bind_Ok in H as (containers & Hcs & H).
  apply fmap_Ok in Hcs as (keys & Hkeys & ->).
  apply object_keys_Ok in Hkeys as [-> _].
  destruct Hfr as [Hfr1 Hfr2]. rewrite Hfr1, Hd0 in H. simpl in H.
  rewrite Htn in H. simpl in H.
  apply (foldM_once _ (λ s, Frame s ∧ Pending s) (λ s, Frame s ∧ Filed s)
           cn _ st st') in H; [done| | |done|..].
  - by apply NoDup_filter.
  - apply list_elem_of_filter. split; [done|by eapply aget_Some_key].
  - intros cn' s s' [Hi _]%list_elem_of_filter Hne Hs.
    split; intros [? ?];
      eapply container_other in Hs as (? & ? & ?); eauto; congruence.
  - intros s s' Hs [? ?]. by eapply container_target.
Qed.

Lemma filed_resolve st :
  Filed st →
  get_path (resolve (declaration st) (parsed st)) [ct; tn; pc; name]
  = JObj (obj_delete property "class").
Proof.
  intros (b0 & Hb & Hinst). unfold resolve, get_bag in *. simpl.
  unfold obj_get. rewrite aget_fmap.
  destruct (aget (parsed st) ct) as [t|] eqn:Ht; [|done]. simpl in *.
  unfold obj_get. rewrite aget_fmap.
  destruct (aget t tn) as [b|] eqn:Hbag; [|done]. simpl in *.
  unfold obj_get. rewrite aget_fmap, Hb. simpl.
  unfold obj_get. by rewrite Hinst.
Qed.

(** The sub-instance is in the parsed document under its full name,
    without its [class]. *)
Lemma parse_files_instance out d' :
  parse d0 = Ok (out, d') →
  get_path (parsedDeclaration out) [ct; tn; pc; name]
  = JObj (obj_delete property "class").
Proof.
  unfold parse. intros H.
  apply bind_Ok in H as (tenants & Hts & H).
  apply bind_Ok in H as (st & Hst & H). injection H as <- <-. simpl.
  apply filed_resolve.
  rewrite Hd0, object_assign_fresh in Hts by done.
  eapply (foldM_once fileTenant (λ s, Frame s ∧ Pending s)
            (λ s, Frame s ∧ Filed s) tn tenants) in Hst as [_ ?]; [done|..].
  - eapply sublist_NoDup; [|by eapply filterM_sublist]. done.
  - eapply filterM_elem; [done|by eapply aget_Some_key|].
    cbv beta. rewrite Htn_int, Htn. simpl. by rewrite Htenant.
  - split; [apply frame_kept_refl|]. unfold pending. simpl.
    rewrite Hd0. simpl. rewrite Htn. simpl. rewrite Hcn. simpl.
    rewrite Hprop, HC. simpl. split_and!; done.
  - intros tn' s s' _ Hne Hs.
    split; intros [? ?]; eapply tenant_other in Hs as (? & ? & ?); eauto.
  - intros s s' Hs [? ?]. by eapply tenant_target.
Qed.

End parser_target.

(** ** Instance names *)

Lemma string_length_app (a b : string) :
  String.length (a +:+ b) = String.length a + String.length b.
Proof. induction a as [|c a IH]; simpl; [done|]. by rewrite IH. Qed.

Lemma string_app_inj_r (a b s : string) : a +:+ s = b +:+ s → a = b.
Proof.
  revert b. induction a as [|c a IH]; intros [|c' b] H; simpl in *.
  - done.
  - apply (f_equal String.length) in H.
    rewrite !string_length_app in H. simpl in H. lia.
  - apply (f_equal String.length) in H.
    rewrite !string_length_app in H. simpl in H. lia.
  - injection H as -> H. f_equal. by apply IH.
Qed.

Lemma strict_eqb_str v s : strict_eqb v (JStr s) = true ↔ v = JStr s.
Proof.
  destruct v; simpl; try (split; [done|by intros [=]]).
  rewrite bool_decide_eq_true. split; [by intros ->|by intros [= ->]].
Qed.

Lemma fullName_System cn k :
  DeclarationParser.fullName (JStr "System") cn k = k.
Proof. done. Qed.

Lemma fullName_other C cn k :
  C ≠ JStr "System" → DeclarationParser.fullName C cn k = cn +:+ "_" +:+ k.
Proof.
  intros HC. unfold DeclarationParser.fullName.
  destruct (strict_eqb C (JStr "System")) eqn:H; [|done].
  by apply strict_eqb_str in H.
Qed.

Section parser_claims.
Import DeclarationParser.






(** C3 on the declaration of the header comment: the first call files
    [myDns] under its class, the second call, on the same declaration
    object, finds it without [class] and files it as a plain property. *)
Lemma parse_twice_differs :
  let first := parse example_declaration in
  let second := parse (declaration_after first) in
  get_path (parsed_of first) ["System"; "Common"; "DNS"; "myDns"]
  = JObj [("nameServers", JArr [JStr "1.2.3.4"])]
  ∧ get_path (parsed_of second) ["System"; "Common"; "DNS"] = JUndef
  ∧ get_path (parsed_of second) ["System"; "Common"; "myDns"]
    = JObj [("nameServers", JArr [JStr "1.2.3.4"])]
  ∧ parsed_of first ≠ parsed_of second.
Proof. vm_compute. split_and!; [done..|discriminate]. Qed.

(** C8 on the declaration of the header comment: the caller's declaration
    loses the [class] of [myDns], and the parsed document holds the
    caller's [tags] object itself. *)
Lemma parse_mutates_declaration :
  get_path example_declaration ["Common"; "mySystem"; "myDns"; "class"]
  = JStr "DNS"
  ∧ get_path (declaration_after (parse example_declaration))
             ["Common"; "mySystem"; "myDns"; "class"] = JUndef
  ∧ ∃ st, foldM fileTenant (State example_declaration []) ["Common"] = Ok st
          ∧ aget (get_bag (parsed st) "System" "Common") "tags"
            = Some (Shared "Common" "mySystem" "tags").
Proof. vm_compute. split_and!; [done..|]. eexists. split; reflexivity. Qed.

End parser_claims.

(** ** The structural diff *)

Section diff_lemmas.
Import DeepDiff.

Lemma deepDiff_unfold a b ld rd path :
  is_undef a = false → is_undef b = false →
  deepDiff a b ld rd path =
    if negb (bool_decide (realTypeOf a = realTypeOf b))
    then [DiffEdit path a b]
    else match a, b with
         | JArr la, JArr lb =>
             array_tail path ItemNew lb (length la) ++
             array_tail path ItemDeleted la (length lb) ++
             diff_elements path la lb 0
         | JObj lo, JObj ro =>
             flat_map (diff_member path ro) lo ++ diff_news path lo ro
         | _, _ => if strict_eqb a b then [] else [DiffEdit path a b]
         end.
Proof.
  intros Ha Hb.
  destruct a, b; try done; clear Ha Hb; simpl; rewrite ?orb_true_r; simpl.
  - do 2 f_equal. generalize 0. revert items0.
    induction items as [|x la IH]; intros [|y lb] i; simpl; try done.
    by rewrite IH.
  - f_equal. induction props as [|[k x] lo IH]; simpl; [done|].
    unfold diff_member at 1. simpl. by rewrite IH.
Qed.

Lemma converge_arr la lb :
  converge (JArr la) (JArr lb)
  = JArr (zip_with converge la lb ++ drop (length la) lb).
Proof.
  simpl. f_equal. revert lb.
  induction la as [|x la IH]; intros [|y lb]; simpl; try done.
  by rewrite IH.
Qed.

Lemma converge_obj lo ro :
  converge (JObj lo) (JObj ro)
  = JObj (converge_members lo ro
          ++ filter (λ kv, obj_get lo kv.1 = None ∧ kv.1 ≠ "") ro).
Proof.
  simpl. do 2 f_equal. induction lo as [|[k x] lo IH]; simpl; [done|].
  by rewrite IH.
Qed.

Lemma is_json_defined v : is_json v = true → is_undef v = false.
Proof. by destruct v. Qed.

Lemma deepDiff_undefined a b ld rd path c :
  is_undef a = true ∨ is_undef b = true →
  c ∈ deepDiff a b ld rd path → change_path c = path.
Proof.
  intros Hab Hc.
  assert (∀ l : list change, c ∈ l → Forall (λ c, change_path c = path) l →
            change_path c = path) as Hall.
  { intros l Hl HF. by eapply Forall_forall in HF. }
  eapply Hall; [exact Hc|].
  destruct a, b, ld, rd; simpl in *; repeat constructor; naive_solver.
Qed.

(** Every change reported below [path] has a path that extends it. *)
Lemma deepDiff_prefix a : ∀ b ld rd path c,
  c ∈ deepDiff a b ld rd path → ∃ rest, change_path c = path ++ rest.
Proof.
  induction a as [| |a0|a0|a0|la IH|lo IH]; intros b ld rd path c Hc.
  1: { exists []. rewrite app_nil_r. eapply deepDiff_undefined; [|done]. by left. }
  all: destruct (is_undef b) eqn:Hb;
    [exists []; rewrite app_nil_r; eapply deepDiff_undefined; [|done]; by right|].
  all: rewrite deepDiff_unfold in Hc by done.
  all: destruct (negb _);
    [apply list_elem_of_singleton in Hc as ->; exists []; by rewrite app_nil_r|].
  1-4: destruct b; try done; destruct (strict_eqb _ _);
    try (by apply elem_of_nil in Hc);
    apply list_elem_of_singleton in Hc as ->; exists []; by rewrite app_nil_r.
  - destruct b as [| | | | |lb|]; try done;
      try (destruct (strict_eqb _ _);
           [by apply elem_of_nil in Hc|
            apply list_elem_of_singleton in Hc as ->; exists [];
            by rewrite app_nil_r]).
    rewrite !elem_of_app in Hc. destruct Hc as [Hc|[Hc|Hc]].
    + unfold array_tail in Hc. rewrite elem_of_reverse in Hc.
      apply list_elem_of_lookup in Hc as [i Hi].
      apply list_lookup_imap_Some in Hi as (x & _ & ->).
      exists []. by rewrite app_nil_r.
    + unfold array_tail in Hc. rewrite elem_of_reverse in Hc.
      apply list_elem_of_lookup in Hc as [i Hi].
      apply list_lookup_imap_Some in Hi as (x & _ & ->).
      exists []. by rewrite app_nil_r.
    + clear Hb. revert Hc. generalize 0. revert lb.
      induction IH as [|x la Hx _ IHla]; intros [|y lb] i Hc; simpl in Hc;
        try (by apply elem_of_nil in Hc).
      apply elem_of_app in Hc as [Hc|Hc]; [by eapply IHla|].
      apply Hx in Hc as [rest ->]. exists (Idx i :: rest).
      by rewrite <-app_assoc.
  - destruct b as [| | | | | |ro]; try done;
      try (destruct (strict_eqb _ _);
           [by apply elem_of_nil in Hc|
            apply list_elem_of_singleton in Hc as ->; exists [];
            by rewrite app_nil_r]).
    apply elem_of_app in Hc as [Hc|Hc].
    + apply list_elem_of_In, in_flat_map in Hc as ([k x] & Hkx & Hc).
      apply list_elem_of_In in Hkx, Hc.
      eapply Forall_forall in IH; [|exact Hkx]. unfold diff_member in Hc.
      simpl in *. destruct (obj_get ro k).
      * apply IH in Hc as [rest ->]. exists (Key k :: rest).
        by rewrite <-app_assoc.
      * apply list_elem_of_singleton in Hc as ->. by exists [Key k].
    + unfold diff_news in Hc. apply list_elem_of_omap in Hc as ([k y] & _ & Hc).
      simpl in Hc. repeat case_bool_decide; try done.
      injection Hc as <-. by exists [Key k].
Qed.

(** ** Applying changes *)

Lemma aset_same {V} (o : alist V) key v : aget o key = Some v → aset o key v = o.
Proof.
  induction o as [|[k' v'] o IH]; simpl; [done|].
  destruct (decide (k' = key)) as [->|]; [by intros [= ->]|].
  intros. f_equal. auto.
Qed.

Lemma slot_inv parent s v :
  slot parent s v →
  is_nullish parent = false ∧ is_undef parent = false ∧ get_seg parent s = v.
Proof.
  destruct parent, s; simpl; try done.
  - intros ->. done.
  - unfold obj_get. intros ->. done.
Qed.

Lemma slot_set parent s v v' :
  slot parent s v → set_seg parent s v' = Ok (put parent s v').
Proof.
  destruct parent, s; simpl; try done.
  intros H%lookup_lt_Some. by rewrite decide_True.
Qed.

Lemma slot_put parent s v v' :
  slot parent s v → slot (put parent s v') s v'.
Proof.
  destruct parent, s; simpl; try done.
  - intros H%lookup_lt_Some. by apply list_lookup_insert_eq.
  - intros _. apply (aget_aset_eq (V:=json)).
Qed.

Lemma put_same parent s v : slot parent s v → put parent s v = parent.
Proof.
  destruct parent, s; simpl; try done.
  - intros H. f_equal. by apply list_insert_id.
  - intros H. f_equal. by apply (aset_same (V:=json)).
Qed.

Lemma put_put parent s v v' : put (put parent s v) s v' = put parent s v'.
Proof.
  destruct parent, s; simpl; try done.
  - f_equal. apply list_insert_insert_eq.
  - f_equal. apply (aset_aset (V:=json)).
Qed.

Lemma set_seg_defined it s x it' :
  set_seg it s x = Ok it' → is_undef it' = false.
Proof.
  destruct it, s; simpl; try done; try (by intros [= <-]).
  - destruct (key_index _ _); [|done]. by intros [= <-].
  - destruct (decide _); by intros [= <-].
Qed.

Lemma applyAt_defined it path c it' :
  applyAt it path c = Ok it' → is_undef it' = false.
Proof.
  destruct path as [|s [|s' path]]; simpl; [done|..].
  - destruct (is_nullish it) eqn:Hit; [done|].
    destruct c; simpl.
    + apply set_seg_defined.
    + destruct it, s; simpl; try done; try (by intros [= <-]).
      all: destruct (key_index _ _); by intros [= <-].
    + apply set_seg_defined.
    + intros (arr' & _ & H)%bind_Ok. by eapply set_seg_defined.
  - destruct (is_nullish it); [done|].
    intros (child' & _ & H)%bind_Ok. by eapply set_seg_defined.
Qed.

Lemma applyBelow_last n it path s c :
  change_path c = path ++ [s] → length path = n → is_nullish it = false →
  applyBelow n it c = applyLast it s c.
Proof.
  intros Hc <- Hit. unfold applyBelow.
  rewrite Hc, drop_app_length. simpl. by rewrite Hit.
Qed.

(** Changes that go through the slot [s] of [parent] act on what the slot
    holds. *)
Lemma applyBelow_lift n s cs : ∀ parent child child',
  slot parent s child → is_undef child = false →
  (∀ c, c ∈ cs → ∃ s' q, drop n (change_path c) = s :: s' :: q) →
  foldM (applyBelow (S n)) child cs = Ok child' →
  foldM (applyBelow n) parent cs = Ok (put parent s child').
Proof.
  induction cs as [|c cs IH]; intros parent child child' Hslot Hdef Hcs H.
  - simpl in *. injection H as <-. by rewrite put_same.
  - simpl in H. apply bind_Ok in H as (child1 & Hc & H).
    destruct (Hcs c) as (s' & q & Hq); [left|].
    assert (applyBelow n parent c = Ok (put parent s child1)) as Hstep.
    { unfold applyBelow in *.
      assert (drop (S n) (change_path c) = s' :: q) as Hq'.
      { replace (S n) with (n + 1) by lia. by rewrite <-drop_drop, Hq. }
      rewrite Hq' in Hc. rewrite Hq.
      apply slot_inv in Hslot as Hs. destruct Hs as (Hnull & _ & Hget).
      cbn [applyAt]. rewrite Hnull, Hget, Hdef.
      change (applyAt child (s' :: q) c) with
        (applyAt child (s' :: q) c) in *.
      simpl in Hc. simpl. rewrite Hc. simpl. by eapply slot_set. }
    simpl. rewrite Hstep. simpl.
    rewrite <-(put_put parent s child1 child').
    eapply IH; [by eapply slot_put| |intros; apply Hcs; by right|done].
    unfold applyBelow in Hc. by eapply applyAt_defined.
Qed.

Lemma applyBelow_step n s c parent child child' :
  slot parent s child → is_undef child = false →
  (∃ s' q, drop n (change_path c) = s :: s' :: q) →
  applyBelow (S n) child c = Ok child' →
  applyBelow n parent c = Ok (put parent s child').
Proof.
  intros Hslot Hdef Hpath Hc.
  pose proof (applyBelow_lift n s [c] parent child child' Hslot Hdef) as H.
  simpl in H. rewrite Hc in H. simpl in H.
  destruct (applyBelow n parent c) as [x|e]; simpl in H.
  - apply H; [|done]. by intros ? ->%list_elem_of_singleton.
  - discriminate H; [|done]. by intros ? ->%list_elem_of_singleton.
Qed.

Lemma apply_array_change n parent path s cur index it cur' :
  slot parent s (JArr cur) → length path = n →
  applyArrayChange (JArr cur) index it = Ok (JArr cur') →
  applyBelow n parent (DiffArray (path ++ [s]) index it)
  = Ok (put parent s (JArr cur')).
Proof.
  intros Hslot Hn Hchange.
  apply slot_inv in Hslot as Hs. destruct Hs as (Hnull & _ & Hget).
  erewrite applyBelow_last; [|done..]. simpl.
  rewrite Hget. simpl. rewrite Hchange. simpl. by eapply slot_set.
Qed.

(** The new tail of an array, last index first: the first assignment
    leaves holes that the following ones fill. *)
Lemma apply_news_filled n path s la : ∀ tail suffix parent,
  length path = n →
  slot parent s (JArr (la ++ replicate (length tail) JUndef ++ suffix)) →
  foldM (applyBelow n) parent
    (reverse (imap (λ j y, DiffArray (path ++ [s]) (length la + j) (ItemNew y))
                   tail))
  = Ok (put parent s (JArr (la ++ tail ++ suffix))).
Proof.
  induction tail as [|y tail IH] using rev_ind; intros suffix parent Hn Hslot.
  - simpl in *. by rewrite put_same.
  - rewrite imap_app, reverse_app. simpl.
    rewrite length_app in Hslot. simpl in Hslot.
    erewrite apply_array_change; [|done|done|].
    2:{ simpl. rewrite decide_True; [done|].
        rewrite !length_app, length_replicate. lia. }
    simpl.
    assert (<[length la + (length tail + 0) := y]>
              (la ++ replicate (length tail + 1) JUndef ++ suffix)
            = la ++ replicate (length tail) JUndef ++ y :: suffix) as ->.
    { rewrite Nat.add_0_r, insert_app_r_alt by lia.
      f_equal. rewrite replicate_add, <-app_assoc. simpl.
      rewrite insert_app_r_alt by (rewrite length_replicate; lia).
      f_equal. rewrite length_replicate.
      by replace (length la + length tail - length la - length tail) with 0
        by lia. }
    rewrite (IH (y :: suffix)); [|done|by eapply slot_put].
    rewrite put_put. do 3 f_equal. by rewrite <-app_assoc.
Qed.

Lemma apply_news n path s la lb parent :
  length path = n → slot parent s (JArr la) →
  foldM (applyBelow n) parent (array_tail (path ++ [s]) ItemNew lb (length la))
  = Ok (put parent s (JArr (la ++ drop (length la) lb))).
Proof.
  intros Hn Hslot. unfold array_tail.
  destruct (drop (length la) lb) as [|y tail _] using rev_ind.
  - simpl. rewrite app_nil_r. by rewrite put_same.
  - rewrite imap_app, reverse_app. simpl.
    erewrite apply_array_change; [|done|done|].
    2:{ simpl. rewrite decide_False by lia. done. }
    simpl.
    replace (length la + (length tail + 0) - length la) with (length tail)
      by lia.
    rewrite (apply_news_filled n path s la tail [y]); [|done|by eapply slot_put].
    by rewrite put_put.
Qed.

(** The tail that is going, last index first. *)
Lemma apply_dels n path s keep : ∀ tail parent,
  length path = n → slot parent s (JArr (keep ++ tail)) →
  foldM (applyBelow n) parent
    (reverse (imap (λ j x, DiffArray (path ++ [s]) (length keep + j)
                                     (ItemDeleted x)) tail))
  = Ok (put parent s (JArr keep)).
Proof.
  induction tail as [|x tail IH] using rev_ind; intros parent Hn Hslot.
  - simpl in *. rewrite app_nil_r in Hslot. by rewrite put_same.
  - rewrite imap_app, reverse_app. simpl.
    rewrite (apply_array_change n parent path s (keep ++ tail ++ [x])
               _ _ (keep ++ tail)); [|done|done|].
    2:{ simpl. unfold arrayRemove. do 2 f_equal.
        rewrite app_assoc, Nat.add_0_r, <-length_app.
        rewrite resize_app_le, resize_all by lia.
        rewrite drop_ge; [apply app_nil_r|]. rewrite length_app. simpl. lia. }
    simpl. rewrite IH; [|done|by eapply slot_put]. by rewrite put_put.
Qed.

Lemma aget_app_notin {V} (l1 l2 : alist V) key :
  key ∉ l1.*1 → aget (l1 ++ l2) key = aget l2 key.
Proof.
  induction l1 as [|[k' v'] l1 IH]; simpl; [done|].
  intros [? ?]%not_elem_of_cons. rewrite decide_False by done. auto.
Qed.

Lemma aset_app_notin {V} (l1 l2 : alist V) key v :
  key ∉ l1.*1 → aset (l1 ++ l2) key v = l1 ++ aset l2 key v.
Proof.
  induction l1 as [|[k' v'] l1 IH]; simpl; [done|].
  intros [? ?]%not_elem_of_cons. rewrite decide_False by done.
  f_equal. auto.
Qed.

Lemma adel_notin {V} (l : alist V) key : key ∉ l.*1 → adel l key = l.
Proof.
  unfold adel. induction l as [|[k' v'] l IH]; [done|]. simpl.
  intros [? ?]%not_elem_of_cons. rewrite filter_cons. simpl.
  rewrite decide_True by done. f_equal. auto.
Qed.

Lemma adel_app {V} (l1 l2 : alist V) key :
  adel (l1 ++ l2) key = adel l1 key ++ adel l2 key.
Proof. unfold adel. apply filter_app. Qed.

Lemma aset_new {V} (l : alist V) key v :
  key ∉ l.*1 → aset l key v = l ++ [(key, v)].
Proof.
  intros H. rewrite <-(app_nil_r l) at 1. by rewrite aset_app_notin.
Qed.

Section apply_diff.
Variables (n : nat) (path : list seg) (s : seg).
Hypothesis Hn : length path = n.

(** What the induction gives for the values below the one at hand. *)
Local Abbreviation Converges := (λ x : json,
  ∀ b path' s' parent ld rd,
    is_json x = true → is_json b = true →
    wf_json x = true → wf_json b = true →
    slot parent s' x →
    foldM (applyBelow (length path')) parent
          (deepDiff x b ld rd (path' ++ [s']))
    = Ok (put parent s' (converge x b))).

Lemma through_slot x b ld rd s' c :
  c ∈ deepDiff x b ld rd ((path ++ [s]) ++ [s']) →
  ∃ s'' q, drop n (change_path c) = s :: s'' :: q.
Proof.
  intros [rest ->]%deepDiff_prefix. exists s', rest.
  rewrite <-!app_assoc, <-Hn, drop_app_length. done.
Qed.

Lemma apply_elements : ∀ la lb pre suf parent,
  Forall Converges la →
  forallb is_json la = true → forallb is_json lb = true →
  forallb wf_json la = true → forallb wf_json lb = true →
  slot parent s (JArr (pre ++ take (length lb) la ++ suf)) →
  foldM (applyBelow n) parent
        (diff_elements (path ++ [s]) la lb (length pre))
  = Ok (put parent s (JArr (pre ++ zip_with converge la lb ++ suf))).
Proof.
  induction la as [|x la IH]; intros lb pre suf parent HF Hja Hjb Hwa Hwb Hslot.
  - destruct lb; simpl in *; by rewrite put_same.
  - destruct lb as [|y lb]; [simpl in *; by rewrite put_same|].
    apply Forall_cons in HF as [Hx HF]. simpl in *.
    apply andb_true_iff in Hja as [? ?], Hjb as [? ?], Hwa as [? ?],
      Hwb as [? ?].
    rewrite foldM_app.
    specialize (IH lb (pre ++ [x]) suf parent).
    rewrite length_app, Nat.add_1_r, <-!app_assoc in IH. simpl in IH.
    rewrite IH by done. simpl.
    set (cur := pre ++ x :: zip_with converge la lb ++ suf).
    erewrite (applyBelow_lift n s _ _ (JArr cur));
      [|by eapply slot_put|done|intros c; apply through_slot|].
    2:{ replace (S n) with (length (path ++ [s]))
          by (rewrite length_app; simpl; lia).
        apply Hx; [done..|]. simpl. subst cur.
        by rewrite list_lookup_middle. }
    rewrite put_put. simpl. do 3 f_equal. subst cur.
    rewrite <-(Nat.add_0_r (length pre)). by rewrite insert_app_r.
Qed.

Lemma apply_members ro : ∀ lo kept parent,
  Forall (λ kv, Converges kv.2) lo →
  forallb (λ kv, is_json kv.2) lo = true →
  forallb (λ kv, is_json kv.2) ro = true →
  forallb (λ kv, wf_json kv.2) lo = true →
  forallb (λ kv, wf_json kv.2) ro = true →
  NoDup (kept ++ lo).*1 →
  slot parent s (JObj (kept ++ lo)) →
  foldM (applyBelow n) parent (flat_map (diff_member (path ++ [s]) ro) lo)
  = Ok (put parent s (JObj (kept ++ converge_members lo ro))).
Proof.
  induction lo as [|[k x] lo IH];
    intros kept parent HF Hja Hjb Hwa Hwb Hnd Hslot.
  - simpl in *. by rewrite put_same.
  - apply Forall_cons in HF as [Hx HF]. simpl in *.
    apply andb_true_iff in Hja as [? ?], Hwa as [? ?].
    assert (k ∉ kept.*1) as Hk.
    { rewrite fmap_app in Hnd. apply NoDup_app in Hnd as (_ & Hnd & _).
      intros Hin. apply (Hnd _ Hin). left. }
    rewrite foldM_app.
    destruct (obj_get ro k) as [y|] eqn:Hy.
    + replace (diff_member (path ++ [s]) ro (k, x))
        with (deepDiff x y true true ((path ++ [s]) ++ [Key k]))
        by (unfold diff_member; simpl; by rewrite Hy).
      assert (is_json y = true ∧ wf_json y = true) as [? ?].
      { apply aget_Some_elem in Hy.
        rewrite forallb_forall in Hjb, Hwb. apply list_elem_of_In in Hy.
        split; [apply (Hjb _ Hy)|apply (Hwb _ Hy)]. }
      erewrite (applyBelow_lift n s _ _ (JObj (kept ++ (k, x) :: lo)));
        [|done|done|intros c; apply through_slot|].
      2:{ replace (S n) with (length (path ++ [s]))
            by (rewrite length_app; simpl; lia).
          apply Hx; [done..|]. simpl. unfold obj_get.
          rewrite aget_app_notin by done. simpl. by rewrite decide_True. }
      simpl. unfold obj_set. rewrite aset_app_notin by done. simpl.
      rewrite decide_True by done.
      specialize (IH (kept ++ [(k, converge x y)])
                     (put parent s (JObj (kept ++ (k, converge x y) :: lo)))).
      rewrite <-!app_assoc in IH. simpl in IH.
      rewrite IH; [by rewrite put_put|done..| |by eapply slot_put].
      by rewrite !fmap_app in *.
    + replace (diff_member (path ++ [s]) ro (k, x))
        with [DiffDeleted ((path ++ [s]) ++ [Key k]) x]
        by (unfold diff_member; simpl; by rewrite Hy).
      erewrite (applyBelow_lift n s [_] _ (JObj (kept ++ (k, x) :: lo))
                  (JObj (kept ++ lo)));
        [|done|done| |].
      2:{ intros c ->%list_elem_of_singleton. exists (Key k), [].
          simpl. by rewrite <-app_assoc, <-Hn, drop_app_length. }
      2:{ simpl. unfold applyBelow. simpl.
          replace (S n) with (length (path ++ [s]))
            by (rewrite length_app; simpl; lia).
          rewrite drop_app_length. simpl. unfold obj_delete.
          rewrite adel_app, adel_notin by done. unfold adel at 1.
          rewrite filter_cons. simpl. rewrite decide_False by naive_solver.
          fold (adel lo k). rewrite adel_notin; [done|].
          rewrite fmap_app in Hnd. apply NoDup_app in Hnd as (_ & _ & Hnd).
          simpl in Hnd. by apply NoDup_cons in Hnd as [? _]. }
      simpl. rewrite (IH kept); [by rewrite put_put|done..| |by eapply slot_put].
      rewrite fmap_app in *. simpl in Hnd.
      by apply NoDup_app in Hnd as (? & ? & [_ ?]%NoDup_cons);
        apply NoDup_app; split_and!; [done|set_solver|done].
Qed.

Lemma apply_obj_news lo : ∀ ro cur parent,
  (∀ kv, kv ∈ ro → obj_get lo kv.1 = None → kv.1 ∉ cur.*1) →
  NoDup ro.*1 →
  slot parent s (JObj cur) →
  foldM (applyBelow n) parent (diff_news (path ++ [s]) lo ro)
  = Ok (put parent s
          (JObj (cur ++ filter (λ kv, obj_get lo kv.1 = None ∧ kv.1 ≠ "") ro))).
Proof.
  induction ro as [|[k v] ro IH]; intros cur parent Hcur Hnd Hslot.
  - simpl. rewrite app_nil_r. by rewrite put_same.
  - simpl in Hnd. apply NoDup_cons in Hnd as [Hk Hnd].
    unfold diff_news. simpl. rewrite filter_cons. simpl.
    fold (diff_news (path ++ [s]) lo ro).
    destruct (bool_decide (is_Some (obj_get lo k))) eqn:Hlo.
    { apply bool_decide_eq_true in Hlo as [x Hx].
      rewrite decide_False by (rewrite Hx; naive_solver).
      apply IH; [|done..]. intros kv ?. apply Hcur. by right. }
    apply bool_decide_eq_false in Hlo.
    apply eq_None_not_Some in Hlo.
    destruct (bool_decide (k = "")) eqn:Hempty.
    { apply bool_decide_eq_true in Hempty.
      rewrite decide_False by naive_solver.
      apply IH; [|done..]. intros kv ?. apply Hcur. by right. }
    apply bool_decide_eq_false in Hempty.
    rewrite decide_True by done. simpl.
    assert (k ∉ cur.*1) as Hfresh by (apply (Hcur (k, v)); [left|done]).
    erewrite (applyBelow_step n s _ _ (JObj cur) (JObj (cur ++ [(k, v)])));
      [|done|done| |].
    2:{ exists (Key k), [].
        simpl. by rewrite <-app_assoc, <-Hn, drop_app_length. }
    2:{ unfold applyBelow. simpl.
        replace (S n) with (length (path ++ [s]))
          by (rewrite length_app; simpl; lia).
        rewrite drop_app_length. simpl. unfold obj_set.
        by rewrite aset_new. }
    simpl. rewrite (IH (cur ++ [(k, v)])); [|..|done|by eapply slot_put].
    + rewrite put_put. by rewrite <-app_assoc.
    + intros kv Hkv Hnone. rewrite fmap_app. simpl.
      apply not_elem_of_app. split; [apply Hcur; [by right|done]|].
      intros Heq%list_elem_of_singleton. apply Hk.
      apply list_elem_of_fmap. by exists kv.
Qed.

End apply_diff.

Lemma apply_edit path s parent a b :
  slot parent s a →
  foldM (applyBelow (length path)) parent [DiffEdit (path ++ [s]) a b]
  = Ok (put parent s b).
Proof.
  intros Hslot. apply slot_inv in Hslot as Hs. destruct Hs as (Hnull & _ & _).
  simpl. erewrite applyBelow_last; [|done..]. simpl.
  by rewrite (slot_set _ _ a).
Qed.

Lemma converge_other a b : realTypeOf a ≠ realTypeOf b → converge a b = b.
Proof. by destruct a, b. Qed.

Lemma strict_eqb_eq a b : strict_eqb a b = true → a = b.
Proof.
  destruct a, b; simpl; try done; by intros ->%bool_decide_eq_true.
Qed.

Lemma converge_members_keys lo ro key :
  key ∈ (converge_members lo ro).*1 → key ∈ lo.*1.
Proof.
  induction lo as [|[k' x] lo IH]; simpl; [done|].
  destruct (obj_get ro k'); simpl; set_solver.
Qed.

(** Applying the changes that [deepDiff] reports for the value [a] of a
    slot, in the order reported, leaves [converge a b] in the slot. *)
Lemma apply_diff a : ∀ b path s parent ld rd,
  is_json a = true → is_json b = true →
  wf_json a = true → wf_json b = true →
  slot parent s a →
  foldM (applyBelow (length path)) parent (deepDiff a b ld rd (path ++ [s]))
  = Ok (put parent s (converge a b)).
Proof.
  induction a as [| |a0|a0|a0|la IH|lo IH];
    intros b path s parent ld rd Ha Hb Hwa Hwb Hslot; [done|..].
  all: rewrite deepDiff_unfold by (by apply is_json_defined).
  all: destruct (bool_decide (realTypeOf _ = realTypeOf b)) eqn:Hty;
    simpl negb; cbv iota;
    [apply bool_decide_eq_true in Hty
    |apply bool_decide_eq_false in Hty;
     rewrite converge_other by done; by apply apply_edit].
  1-4: destruct b; try done;
    match goal with
    | |- context [strict_eqb ?x ?y] => destruct (strict_eqb x y) eqn:Heq
    end;
    [apply strict_eqb_eq in Heq; simplify_eq; simpl; by rewrite put_same
    |by apply apply_edit].
  - destruct b as [| | | | |lb|]; try done. simpl in Ha, Hb, Hwa, Hwb.
    rewrite converge_arr, !foldM_app.
    rewrite (apply_news (length path)) by done. simpl.
    destruct (decide (length la ≤ length lb)) as [Hle|Hgt].
    + unfold array_tail at 1. rewrite (drop_ge la) by done. simpl.
      rewrite (apply_elements (length path) path s eq_refl la lb [] 
                 (drop (length la) lb)); [|done..|].
      * rewrite put_put. simpl. done.
      * simpl. rewrite (take_ge la) by done. by eapply slot_put.
    + rewrite (drop_ge lb) by lia. rewrite app_nil_r, put_same by done.
      unfold array_tail. rewrite foldM_app.
      rewrite <-(take_drop (length lb) la) in Hslot.
      pose proof (apply_dels (length path) path s (take (length lb) la)
                    (drop (length lb) la) parent eq_refl Hslot) as Hdels.
      rewrite length_take, Nat.min_l in Hdels by lia.
      rewrite Hdels. simpl.
      rewrite (apply_elements (length path) path s eq_refl la lb [] []);
        [|done..|].
      * rewrite put_put. simpl. by rewrite app_nil_r.
      * simpl. rewrite app_nil_r. by eapply slot_put.
  - destruct b as [| | | | | |ro]; try done. simpl in Ha, Hb, Hwa, Hwb.
    apply andb_true_iff in Hwa as [Hnda%bool_decide_eq_true Hwa],
      Hwb as [Hndb%bool_decide_eq_true Hwb].
    rewrite converge_obj, foldM_app.
    rewrite (apply_members (length path) path s eq_refl ro lo []); [|done..].
    simpl.
    rewrite (apply_obj_news (length path) path s eq_refl lo ro
               (converge_members lo ro)); [|..|done|by eapply slot_put].
    + by rewrite put_put.
    + intros kv _ Hnone Hin%converge_members_keys.
      by apply aget_None in Hnone.
Qed.

(** ** Deep equality *)

Lemma deep_equal_refl b : wf_json b = true → deep_equal b b = true.
Proof.
  induction b as [| |a0|a0|a0|la IH|lo IH]; intros Hwf; simpl;
    try done; try (by apply bool_decide_eq_true_2).
  - simpl in Hwf. induction IH as [|x la Hx _ IHla]; [done|].
    simpl in Hwf. apply andb_true_iff in Hwf as [? ?].
    by rewrite Hx, IHla.
  - simpl in Hwf.
    apply andb_true_iff in Hwf as [Hnd%bool_decide_eq_true Hwf].
    apply andb_true_iff. split; apply forallb_forall; intros [k x] Hkx.
    + apply list_elem_of_In in Hkx. simpl.
      unfold obj_get. rewrite (elem_aget_nodup lo k x) by done.
      eapply Forall_forall in IH; [|exact Hkx]. apply IH.
      rewrite forallb_forall in Hwf. apply list_elem_of_In in Hkx.
      apply (Hwf _ Hkx).
    + apply list_elem_of_In in Hkx. simpl. apply bool_decide_eq_true_2.
      unfold obj_get. by rewrite (elem_aget_nodup lo k x).
Qed.

Lemma converge_members_elem lo ro key v :
  (key, v) ∈ converge_members lo ro →
  ∃ x y, (key, x) ∈ lo ∧ obj_get ro key = Some y ∧ v = converge x y.
Proof.
  induction lo as [|[k' x] lo IH]; simpl; [by intros ?%elem_of_nil|].
  destruct (obj_get ro k') as [y|] eqn:Hy.
  - intros [[= -> ->]|Hin]%elem_of_cons.
    + exists x, y. split_and!; [left|done..].
    + destruct (IH Hin) as (x' & y' & ? & ? & ?). exists x', y'.
      split_and!; [by right|done..].
  - intros Hin. destruct (IH Hin) as (x' & y' & ? & ? & ?). exists x', y'.
    split_and!; [by right|done..].
Qed.

Lemma converge_members_has lo ro key :
  key ∈ lo.*1 → is_Some (obj_get ro key) →
  key ∈ (converge_members lo ro).*1.
Proof.
  induction lo as [|[k' x] lo IH]; simpl; [by intros ?%elem_of_nil|].
  intros [->|Hin]%elem_of_cons Hro.
  - destruct Hro as [y ->]. left.
  - destruct (obj_get ro k'); [right|]; auto.
Qed.

(** What the changes leave behind is deep-equal to [b]. *)
Lemma converge_equal a : ∀ b,
  wf_json b = true → no_empty_key b = true →
  deep_equal (converge a b) b = true.
Proof.
  induction a as [| |a0|a0|a0|la IH|lo IH]; intros b Hwf Hne.
  1-5: destruct b; by apply deep_equal_refl.
  - destruct b as [| | | | |lb|]; try (by apply deep_equal_refl).
    rewrite converge_arr. simpl in Hwf, Hne. revert lb Hwf Hne.
    induction IH as [|x la Hx _ IHla]; intros lb Hwf Hne.
    + simpl drop. simpl zip_with. simpl app.
      by apply (deep_equal_refl (JArr lb)).
    + destruct lb as [|y lb]; [done|]. simpl in Hwf, Hne.
      apply andb_true_iff in Hwf as [? ?], Hne as [? ?].
      specialize (IHla lb). simpl in *. rewrite Hx by done. by apply IHla.
  - destruct b as [| | | | | |ro]; try (by apply deep_equal_refl).
    rewrite converge_obj. simpl in Hwf, Hne.
    apply andb_true_iff in Hwf as [Hnd%bool_decide_eq_true Hwf].
    rewrite forallb_forall in Hwf, Hne.
    simpl. apply andb_true_iff. split; apply forallb_forall; intros [k v] Hkv.
    + apply list_elem_of_In, elem_of_app in Hkv as [Hkv|Hkv]; simpl.
      * apply converge_members_elem in Hkv as (x & y & Hx & Hy & ->).
        rewrite Hy. eapply Forall_forall in IH; [|exact Hx].
        apply aget_Some_elem, list_elem_of_In in Hy.
        apply IH; [apply (Hwf _ Hy)|].
        specialize (Hne _ Hy). by apply andb_true_iff in Hne as [_ ?].
      * apply list_elem_of_filter in Hkv as [_ Hkv].
        unfold obj_get. rewrite (elem_aget_nodup ro k v) by done.
        apply deep_equal_refl. apply list_elem_of_In in Hkv.
        apply (Hwf _ Hkv).
    + simpl. apply bool_decide_eq_true_2. unfold obj_get.
      apply aget_is_Some. rewrite fmap_app. apply elem_of_app.
      destruct (aget lo k) as [x|] eqn:Hlo.
      * left. apply converge_members_has; [by eapply aget_Some_key|].
        apply aget_is_Some, list_elem_of_fmap. exists (k, v).
        split; [done|by apply list_elem_of_In].
      * right. apply list_elem_of_fmap. exists (k, v). split; [done|].
        apply list_elem_of_filter. split; [|by apply list_elem_of_In].
        split; [done|]. specialize (Hne _ Hkv). simpl in Hne.
        apply andb_true_iff in Hne as [Hk _].
        by apply negb_true_iff, bool_decide_eq_false in Hk.
Qed.

Lemma flat_map_nil {A B} (f : A → list B) l :
  flat_map f l = [] ↔ ∀ x, x ∈ l → f x = [].
Proof.
  induction l as [|y l IH]; simpl.
  - split; [by intros _ x ?%elem_of_nil|done].
  - split.
    + intros [? ?]%app_eq_nil x [->|?]%elem_of_cons; [done|]. by apply IH.
    + intros H. rewrite (H y) by left. apply IH. intros x ?. apply H.
      by right.
Qed.

Lemma omap_nil {A B} (f : A → option B) l :
  omap f l = [] ↔ ∀ x, x ∈ l → f x = None.
Proof.
  induction l as [|y l IH]; simpl.
  - split; [by intros _ x ?%elem_of_nil|done].
  - destruct (f y) eqn:Hy; simpl.
    + split; [done|]. intros H. specialize (H y). rewrite Hy in H.
      discriminate H. left.
    + rewrite IH. split.
      * intros H x [->|?]%elem_of_cons; auto.
      * intros H x ?. apply H. by right.
Qed.

Lemma array_tail_nil path mk l from :
  array_tail path mk l from = [] ↔ length l ≤ from.
Proof.
  unfold array_tail. split.
  - intros H%(f_equal length).
    rewrite length_reverse, length_imap, length_drop in H. simpl in H. lia.
  - intros H. by rewrite drop_ge.
Qed.

(** [deepDiff] reports no change exactly for deep-equal values (a key
    that is the empty string apart, which the loop over the new keys
    skips). *)
Lemma deepDiff_nil a : ∀ b ld rd path,
  is_json a = true → is_json b = true → no_empty_key b = true →
  deepDiff a b ld rd path = [] → deep_equal a b = true.
Proof.
  induction a as [| |a0|a0|a0|la IH|lo IH];
    intros b ld rd path Ha Hb Hne H; [done|..].
  all: rewrite deepDiff_unfold in H by (by apply is_json_defined).
  all: destruct (bool_decide (realTypeOf _ = realTypeOf b)) eqn:Hty;
    simpl negb in H; cbv iota in H; [|done].
  all: apply bool_decide_eq_true in Hty.
  1-4: destruct b; try done; simpl;
    match type of H with
    | context [strict_eqb ?x ?y] => by destruct (strict_eqb x y) eqn:Heq
    end.
  - destruct b as [| | | | |lb|]; try done.
    apply app_eq_nil in H as [H1 [H2 H3]%app_eq_nil].
    apply array_tail_nil in H1, H2.
    assert (length la = length lb) as Hlen by lia. clear H1 H2 Hty.
    simpl in Ha, Hb, Hne. simpl. revert H3. generalize 0.
    revert lb Hb Hne Hlen.
    induction IH as [|x la Hx _ IHla]; intros [|y lb] Hb Hne Hlen i H3;
      simpl in *; try done.
    apply andb_true_iff in Ha as [? ?], Hb as [? ?], Hne as [? ?].
    apply app_eq_nil in H3 as [Hrest Hhead].
    rewrite (Hx y false false _) by done. simpl.
    eapply (IHla ltac:(done) lb); [done|done|lia|done].
  - destruct b as [| | | | | |ro]; try done.
    apply app_eq_nil in H as [H1 H2]. simpl in Ha, Hb, Hne. simpl.
    rewrite forallb_forall in Ha, Hb, Hne.
    apply andb_true_iff. split; apply forallb_forall; intros [k v] Hkv.
    + simpl. eapply flat_map_nil in H1; [|by apply list_elem_of_In].
      unfold diff_member in H1. simpl in H1.
      destruct (obj_get ro k) as [y|] eqn:Hy; [|done].
      apply list_elem_of_In in Hkv as Hin.
      eapply Forall_forall in IH; [|exact Hin].
      apply aget_Some_elem, list_elem_of_In in Hy.
      eapply IH; [apply (Ha _ Hkv)|apply (Hb _ Hy)| |exact H1].
      specialize (Hne _ Hy). simpl in Hne.
      by apply andb_true_iff in Hne as [_ ?].
    + simpl. unfold diff_news in H2.
      eapply omap_nil in H2; [|by apply list_elem_of_In]. simpl in H2.
      destruct (bool_decide (is_Some (obj_get lo k))); [done|].
      specialize (Hne _ Hkv). simpl in Hne.
      apply andb_true_iff in Hne as [Hk _].
      apply negb_true_iff in Hk. by rewrite Hk in H2.
Qed.

Lemma deep_equal_diff a : ∀ b ld rd path,
  is_json a = true → is_json b = true →
  deep_equal a b = true → deepDiff a b ld rd path = [].
Proof.
  induction a as [| |a0|a0|a0|la IH|lo IH];
    intros b ld rd path Ha Hb H; [done|..].
  all: rewrite deepDiff_unfold by (by apply is_json_defined).
  all: destruct b; try done; simpl negb; cbv iota.
  1-3: simpl in H; simpl; by rewrite H.
  - rename items into lb. simpl in Ha, Hb, H.
    assert (length la = length lb ∧ diff_elements path la lb 0 = [])
      as [Hlen Hel].
    { generalize 0. revert lb Hb H.
      induction IH as [|x la Hx _ IHla]; intros [|y lb] Hb H i;
        simpl in *; try done.
      apply andb_true_iff in Ha as [? ?], Hb as [? ?], H as [? ?].
      destruct (IHla ltac:(done) lb ltac:(done) ltac:(done) (S i))
        as [-> ->].
      by rewrite Hx. }
    rewrite Hel, app_nil_r.
    rewrite (proj2 (array_tail_nil _ _ _ _)) by lia.
    by rewrite (proj2 (array_tail_nil _ _ _ _)) by lia.
  - rename props into ro. simpl in Ha, Hb, H.
    apply andb_true_iff in H as [H1 H2].
    rewrite forallb_forall in Ha, Hb, H1, H2.
    unfold diff_news.
    rewrite (proj2 (flat_map_nil _ _)), (proj2 (omap_nil _ _)); [done|..].
    + intros [k v] Hkv%list_elem_of_In. specialize (H2 _ Hkv). simpl in *.
      by rewrite H2.
    + intros [k x] Hkx. apply list_elem_of_In in Hkx as Hin.
      specialize (H1 _ Hin). unfold diff_member. simpl in *.
      destruct (obj_get ro k) as [y|] eqn:Hy; [|done].
      eapply Forall_forall in IH; [|exact Hkx].
      apply aget_Some_elem, list_elem_of_In in Hy.
      apply IH; [apply (Ha _ Hin)|apply (Hb _ Hy)|done].
Qed.

(** ** The steps of [process] *)

Lemma clone_inner_id v : is_json v = true → DiffHandler.clone_inner v = v.
Proof.
  induction v as [| |a0|a0|a0|la IH|lo IH]; intros Hv; simpl; try done.
  - f_equal. simpl in Hv. induction IH as [|x la Hx _ IHla]; [done|].
    simpl in *. apply andb_true_iff in Hv as [? ?].
    rewrite is_json_defined, Hx, IHla by done. done.
  - f_equal. simpl in Hv. induction IH as [|[k x] lo Hx _ IHlo]; [done|].
    simpl in *. apply andb_true_iff in Hv as [? ?].
    rewrite is_json_defined, Hx, IHlo by done. done.
Qed.

Lemma clone_id v : is_json v = true → DiffHandler.clone v = Ok v.
Proof.
  intros Hv. unfold DiffHandler.clone.
  by rewrite is_json_defined, clone_inner_id.
Qed.

(** A change applied to an object through its key [T] leaves the other
    keys alone. *)
Lemma applyAt_obj_frame o T rest c it' :
  applyAt (JObj o) (Key T :: rest) c = Ok it' →
  ∃ x, it' = JObj x ∧ ∀ k, k ≠ T → aget x k = aget o k.
Proof.
  destruct rest as [|s' rest]; cbn [applyAt is_nullish].
  - destruct c; simpl.
    + intros [= <-]. eexists. split; [done|]. intros.
      by apply (aget_aset_ne (V:=json)).
    + intros [= <-]. eexists. split; [done|]. intros.
      by apply (aget_adel_ne (V:=json)).
    + intros [= <-]. eexists. split; [done|]. intros.
      by apply (aget_aset_ne (V:=json)).
    + intros (arr' & _ & [= <-])%bind_Ok. eexists. split; [done|]. intros.
      by apply (aget_aset_ne (V:=json)).
  - intros (child' & _ & H)%bind_Ok. simpl in H. injection H as <-.
    eexists. split; [done|]. intros. by apply (aget_aset_ne (V:=json)).
Qed.

Lemma applyAt_common_frame o oc T rest c it' :
  aget o "Common" = Some (JObj oc) →
  applyAt (JObj o) (Key "Common" :: Key T :: rest) c = Ok it' →
  ∃ x, it' = JObj (aset o "Common" (JObj x))
       ∧ ∀ k, k ≠ T → aget x k = aget oc k.
Proof.
  intros Hc. cbn [applyAt is_nullish get_seg seg_key get_prop].
  unfold obj_get. rewrite Hc. cbn [default is_undef].
  intros (child' & H & Hset)%bind_Ok.
  apply applyAt_obj_frame in H as (x & -> & Hx).
  simpl in Hset. injection Hset as <-. exists x. split; [done|]. auto.
Qed.

Section observer.
Import DiffHandler.
Variables (truth : list string) (K : string).

Lemma observe_outside v from ups c from' ups' :
  outside K c → holds_class K v from →
  observe truth (from, ups) c = Ok (from', ups') →
  holds_class K v from' ∧ (K ∈ ups → K ∈ ups').
Proof.
  intros (T & q & Hp & Hcase) (o & oc & -> & Hc & HK). unfold observe.
  rewrite Hp. destruct q as [|[k'|i] q']; simpl;
    try (intros [= <- <-]; split; [by exists o, oc|done]).
  destruct (bool_decide (k' ∈ truth));
    [|intros [= <- <-]; split; [by exists o, oc|done]].
  intros (f1 & Happ & [= <- <-])%bind_Ok.
  split; [|destruct (bool_decide _); set_solver].
  unfold applyChange in Happ. simpl truthy in Happ. cbv iota in Happ.
  rewrite Hp in Happ.
  destruct (decide (T = "Common")) as [->|HT].
  - destruct Hcase as [?|(K' & q'' & [= -> ->] & HK')]; [done|].
    eapply applyAt_common_frame in Happ as (x & -> & Hx); [|done].
    exists (aset o "Common" (JObj x)), x. split; [done|].
    unfold obj_get. rewrite (aget_aset_eq (V:=json)), Hx by done. done.
  - apply applyAt_obj_frame in Happ as (x & -> & Hx).
    exists x, oc. unfold obj_get. by rewrite Hx.
Qed.

Lemma observe_outside_all v l : ∀ from ups from' ups',
  (∀ c, c ∈ l → outside K c) → holds_class K v from →
  foldM (observe truth) (from, ups) l = Ok (from', ups') →
  holds_class K v from' ∧ (K ∈ ups → K ∈ ups').
Proof.
  induction l as [|c l IH]; intros from ups from' ups' Hl Hv H; simpl in H.
  - by injection H as <- <-.
  - apply bind_Ok in H as ([f1 u1] & Hc & H).
    eapply observe_outside in Hc as [? ?]; [|apply Hl; left|done].
    eapply IH in H as [? ?]; [|intros; apply Hl; by right|done]. auto.
Qed.

(** The changes below a class of truth are all applied. *)
Lemma observe_applies l : ∀ o ups from' ups',
  K ∈ truth →
  (∀ c, c ∈ l → ∃ T q, change_path c = Key T :: Key K :: q) →
  foldM (observe truth) (JObj o, ups) l = Ok (from', ups') →
  foldM (applyBelow 0) (JObj o) l = Ok from'
  ∧ (K ∈ ups → K ∈ ups') ∧ (l ≠ [] → K ∈ ups').
Proof.
  induction l as [|c l IH]; intros o ups from' ups' HK Hl H; simpl in H.
  - by injection H as <- <-.
  - apply bind_Ok in H as ([f1 u1] & Hc & H).
    destruct (Hl c) as (T & q & Hp); [left|].
    unfold observe in Hc. rewrite Hp in Hc. simpl in Hc.
    rewrite bool_decide_eq_true_2 in Hc by done.
    apply bind_Ok in Hc as (f1' & Happ & [= <- <-]).
    unfold applyChange in Happ. simpl truthy in Happ. cbv iota in Happ.
    assert (K ∈ (if bool_decide (K ∈ ups) then ups else ups ++ [K]))
      as Hin.
    { destruct (bool_decide (K ∈ ups)) eqn:Hups; [|set_solver].
      by apply bool_decide_eq_true in Hups. }
    rewrite Hp in Happ.
    apply applyAt_obj_frame in Happ as Hf. destruct Hf as (x & -> & _).
    eapply IH in H as (H & Hups & _); [|done|intros; apply Hl; by right].
    assert (applyBelow 0 (JObj o) c = Ok (JObj x)) as Hstep.
    { unfold applyBelow. by rewrite Hp. }
    cbn [foldM]. rewrite Hstep. simpl. split; [done|].
    split; [|by auto]. intros Hk. apply Hups.
    by rewrite bool_decide_eq_true_2.
Qed.

Lemma observe_truth l from ups from' ups' k :
  foldM (observe truth) (from, ups) l = Ok (from', ups') →
  k ∈ ups' → k ∈ ups ∨ k ∈ truth.
Proof.
  intros H.
  apply (foldM_invariant _ (λ st, k ∈ st.2 → k ∈ ups ∨ k ∈ truth) _ _ _ H);
    [by left|].
  intros c [f u] [f' u'] _ Hc Hu. simpl in *. unfold observe in Hc.
  destruct (change_path c !! 1) as [[k'|i]|]; try (by injection Hc as <- <-).
  destruct (bool_decide (k' ∈ truth)) eqn:Hk';
    try (by injection Hc as <- <-).
  apply bool_decide_eq_true in Hk'.
  apply bind_Ok in Hc as (? & _ & [= <- <-]).
  destruct (bool_decide (k' ∈ u)); [done|].
  intros [?| ->%list_elem_of_singleton]%elem_of_app; auto.
Qed.

Lemma observe_elsewhere l from ups from' ups' :
  (∀ c, c ∈ l → change_path c !! 1 ≠ Some (Key K)) →
  foldM (observe truth) (from, ups) l = Ok (from', ups') →
  K ∉ ups → K ∉ ups'.
Proof.
  intros Hl H.
  apply (foldM_invariant _ (λ st, K ∉ ups → K ∉ st.2) _ _ _ H); [done|].
  intros c [f u] [f' u'] Hin Hc Hu. simpl in *. unfold observe in Hc.
  specialize (Hl c Hin).
  destruct (change_path c !! 1) as [[k'|i]|]; try (by injection Hc as <- <-).
  destruct (bool_decide (k' ∈ truth)); try (by injection Hc as <- <-).
  apply bind_Ok in Hc as (? & _ & [= <- <-]).
  destruct (bool_decide (k' ∈ u)); [done|].
  intros Hups [?| ->%list_elem_of_singleton]%elem_of_app; [by apply Hu|].
  done.
Qed.

Lemma aget_split {V} (o : alist V) key v :
  aget o key = Some v → ∃ l1 l2, o = l1 ++ (key, v) :: l2 ∧ key ∉ l1.*1.
Proof.
  induction o as [|[k' v'] o IH]; simpl; [done|].
  destruct (decide (k' = key)) as [->|Hne].
  - intros [= ->]. exists [], o. split; [done|]. apply not_elem_of_nil.
  - intros (l1 & l2 & -> & Hk)%IH. exists ((k', v') :: l1), l2.
    split; [done|]. simpl. apply not_elem_of_cons. auto.
Qed.

Lemma diff_member_path path ro kx c :
  c ∈ diff_member path ro kx → ∃ q, change_path c = path ++ Key kx.1 :: q.
Proof.
  unfold diff_member. destruct (obj_get ro kx.1).
  - intros [rest ->]%deepDiff_prefix. exists rest. by rewrite <-app_assoc.
  - intros ->%list_elem_of_singleton. by exists [].
Qed.

(** The changes of two objects, around those of a key they share. *)
Lemma diff_obj_split lo ro key x y ld rd path :
  NoDup lo.*1 → aget lo key = Some x → aget ro key = Some y →
  ∃ pre post,
    deepDiff (JObj lo) (JObj ro) ld rd path
    = pre ++ deepDiff x y true true (path ++ [Key key]) ++ post
    ∧ ∀ c, c ∈ pre ++ post →
        ∃ k' q, change_path c = path ++ Key k' :: q ∧ k' ≠ key
                ∧ (k' ∈ lo.*1 ∨ q = []).
Proof.
  intros Hnd Hx Hy. rewrite deepDiff_unfold by done. simpl.
  destruct (aget_split _ _ _ Hx) as (l1 & l2 & -> & Hl1).
  assert (key ∉ l2.*1) as Hl2.
  { rewrite fmap_app in Hnd. apply NoDup_app in Hnd as (_ & _ & Hnd).
    simpl in Hnd. by apply NoDup_cons in Hnd as [? _]. }
  exists (flat_map (diff_member path ro) l1),
    (flat_map (diff_member path ro) l2
     ++ diff_news path (l1 ++ (key, x) :: l2) ro).
  split.
  - rewrite flat_map_app. simpl. unfold diff_member at 2. simpl.
    unfold obj_get. rewrite Hy. by rewrite <-!app_assoc.
  - intros c Hc. rewrite !elem_of_app in Hc. destruct Hc as [Hc|[Hc|Hc]].
    + apply list_elem_of_In, in_flat_map in Hc as ([k' x'] & Hin & Hc).
      apply list_elem_of_In in Hin, Hc.
      apply diff_member_path in Hc as [q Hq]. exists k', q. simpl in *.
      split_and!; [done| |left].
      * intros ->. apply Hl1. apply list_elem_of_fmap. by exists (key, x').
      * rewrite fmap_app. apply elem_of_app. left.
        apply list_elem_of_fmap. by exists (k', x').
    + apply list_elem_of_In, in_flat_map in Hc as ([k' x'] & Hin & Hc).
      apply list_elem_of_In in Hin, Hc.
      apply diff_member_path in Hc as [q Hq]. exists k', q. simpl in *.
      split_and!; [done| |left].
      * intros ->. apply Hl2. apply list_elem_of_fmap. by exists (key, x').
      * rewrite fmap_app. apply elem_of_app. right. simpl. right.
        apply list_elem_of_fmap. by exists (k', x').
    + unfold diff_news in Hc.
      apply list_elem_of_omap in Hc as ([k' v] & Hin & Hc). simpl in Hc.
      destruct (bool_decide (is_Some _)) eqn:Hs; [done|].
      destruct (bool_decide (k' = "")); [done|]. injection Hc as <-.
      exists k', []. split_and!; [done| |by right]. intros ->.
      apply bool_decide_eq_false in Hs. apply Hs. unfold obj_get.
      rewrite Hx. eauto.
Qed.

(** The changes below [Common.K] bring the class to [converge vf vt]. *)
Lemma observe_block vf vt from ups from' ups' :
  K ∈ truth → holds_class K vf from →
  is_json vf = true → is_json vt = true →
  wf_json vf = true → wf_json vt = true →
  foldM (observe truth) (from, ups)
        (deepDiff vf vt true true [Key "Common"; Key K]) = Ok (from', ups') →
  holds_class K (converge vf vt) from' ∧ (K ∈ ups → K ∈ ups')
  ∧ (deepDiff vf vt true true [Key "Common"; Key K] ≠ [] → K ∈ ups').
Proof.
  intros HK (o & oc & -> & Hc & Hv) ? ? ? ? H.
  apply observe_applies in H as (H & ? & ?); [|done|].
  2:{ intros c [rest ->]%deepDiff_prefix. by exists "Common", rest. }
  split; [|done].
  rewrite (applyBelow_lift 0 (Key "Common") _ (JObj o) (JObj oc)
             (put (JObj oc) (Key K) (converge vf vt))) in H; [|done|done|..].
  - injection H as <-. eexists _, _. split; [done|]. unfold obj_get.
    by rewrite !(aget_aset_eq (V:=json)).
  - intros c [rest ->]%deepDiff_prefix. by exists (Key K), rest.
  - by apply (apply_diff vf vt [Key "Common"] (Key K)).
Qed.

(** ** The two copy loops *)

Lemma populate_truth declaration nonTruth :
  populateNonTruthClasses declaration truth = Ok nonTruth →
  K ∈ truth → aget nonTruth K = None.
Proof.
  unfold populateNonTruthClasses.
  intros (keys & _ & [= <-])%bind_Ok HK.
  assert (aget ([] : props) K = None) as Hacc by done.
  match goal with |- context [fold_left ?f keys []] => set (step := f) end.
  revert Hacc. generalize ([] : props).
  induction keys as [|key keys IH]; intros acc Hacc; [done|].
  simpl. apply IH. unfold step.
  destruct (bool_decide (key ∈ truth)) eqn:Hkey; [done|].
  apply bool_decide_eq_false in Hkey.
  assert (K ≠ key) by congruence. unfold obj_set.
  destruct (is_string _); [by rewrite (aget_aset_ne (V:=json))|].
  destruct (is_object_type _); [by rewrite (aget_aset_ne (V:=json))|done].
Qed.

Lemma populate_other o nonTruth v :
  populateNonTruthClasses (JObj o) truth = Ok nonTruth →
  K ∉ truth → aget o K = Some v →
  is_string v || is_object_type v = true →
  aget nonTruth K = Some (stored v).
Proof.
  unfold populateNonTruthClasses.
  intros (keys & [-> _]%object_keys_Ok & [= <-])%bind_Ok HK Hv Hty.
  assert (K ∈ obj_keys (own_props (JObj o))
          ∨ aget ([] : props) K = Some (stored v)) as Hacc.
  { left. by eapply aget_Some_key. }
  match goal with |- context [fold_left ?f _ []] => set (step := f) end.
  change (obj_keys (own_props (JObj o))) with (obj_keys o) in *.
  revert Hacc. generalize ([] : props).
  induction (obj_keys o) as [|key keys IH]; intros acc Hacc.
  { simpl. destruct Hacc as [?%elem_of_nil|?]; done. }
  simpl. apply IH. unfold step. destruct (decide (key = K)) as [->|Hne].
  - right. rewrite bool_decide_eq_false_2 by done.
    unfold get_prop, obj_get. rewrite Hv. simpl. unfold stored, obj_set.
    destruct (is_string v); [by rewrite (aget_aset_eq (V:=json))|].
    simpl in Hty. rewrite Hty. by rewrite (aget_aset_eq (V:=json)).
  - destruct Hacc as [[?|?]%elem_of_cons|Hacc]; [done|by left|right].
    destruct (bool_decide (key ∈ truth)); [done|]. unfold obj_set.
    destruct (is_string (default JUndef (obj_get o key)));
      [by rewrite (aget_aset_ne (V:=json))|].
    destruct (is_object_type (default JUndef (obj_get o key)));
      [by rewrite (aget_aset_ne (V:=json))|done].
Qed.

Lemma populate_skipped o nonTruth v :
  populateNonTruthClasses (JObj o) truth = Ok nonTruth →
  aget o K = Some v →
  is_string v || is_object_type v = false →
  aget nonTruth K = None.
Proof.
  unfold populateNonTruthClasses.
  intros (keys & _ & [= <-])%bind_Ok Hv Hty.
  apply orb_false_iff in Hty as [Hstr Hobj].
  assert (aget ([] : props) K = None) as Hacc by done.
  match goal with |- context [fold_left ?f keys []] => set (step := f) end.
  revert Hacc. generalize ([] : props).
  induction keys as [|key keys IH]; intros acc Hacc; [done|].
  simpl. apply IH. unfold step.
  destruct (bool_decide (key ∈ truth)); [done|].
  destruct (decide (key = K)) as [->|Hne].
  - simpl. unfold obj_get. rewrite Hv. simpl. by rewrite Hstr, Hobj.
  - unfold obj_set.
    destruct (is_string (default JUndef (obj_get o key)));
      [by rewrite (aget_aset_ne (V:=json))|].
    destruct (is_object_type (default JUndef (obj_get o key)));
      [by rewrite (aget_aset_ne (V:=json))|done].
Qed.

Lemma copyUpdated_other from acc path acc' key :
  copyUpdated from acc path = Ok acc' → key ≠ path →
  aget acc' key = aget acc key.
Proof.
  unfold copyUpdated. intros (common & _ & (v & _ & H)%bind_Ok)%bind_Ok Hne.
  unfold obj_set in H.
  destruct (is_string v); [|destruct (is_array v)]; injection H as <-;
    by apply (aget_aset_ne (V:=json)).
Qed.

Lemma copyUpdated_class o oc acc path acc' :
  aget o "Common" = Some (JObj oc) →
  copyUpdated (JObj o) acc path = Ok acc' →
  acc' = aset acc path (copied (get_prop (JObj oc) path)).
Proof.
  intros Hc. unfold copyUpdated. simpl. unfold obj_get. rewrite Hc. simpl.
  unfold copied, obj_set.
  destruct (is_string _); [|destruct (is_array _)]; by intros [= <-].
Qed.

Lemma copy_kept from ups : ∀ acc final,
  foldM (copyUpdated from) acc ups = Ok final → K ∉ ups →
  aget final K = aget acc K.
Proof.
  induction ups as [|path ups IH]; intros acc final H Hups; simpl in H.
  - by injection H as <-.
  - apply bind_Ok in H as (acc1 & Hc & H).
    apply not_elem_of_cons in Hups as [? ?].
    rewrite (IH _ _ H) by done. by eapply copyUpdated_other.
Qed.

Lemma copy_class o oc v ups : ∀ acc final,
  aget o "Common" = Some (JObj oc) → aget oc K = Some v →
  foldM (copyUpdated (JObj o)) acc ups = Ok final →
  K ∈ ups ∨ aget acc K = Some (copied v) →
  aget final K = Some (copied v).
Proof.
  intros acc final Hc Hv. revert acc final.
  induction ups as [|path ups IH]; intros acc final H Hacc; simpl in H.
  - injection H as <-. by destruct Hacc as [?%elem_of_nil|?].
  - apply bind_Ok in H as (acc1 & Hstep & H).
    eapply IH; [done|]. destruct (decide (path = K)) as [->|Hne].
    + right. apply (copyUpdated_class _ oc) in Hstep as ->; [|done].
      simpl. unfold obj_get. rewrite Hv. simpl.
      by rewrite (aget_aset_eq (V:=json)).
    + destruct Hacc as [[?|?]%elem_of_cons|Hacc]; [done|by left|right].
      by rewrite (copyUpdated_other _ _ _ _ _ Hstep).
Qed.

End observer.

Lemma converge_members_sub lo ro :
  sublist (converge_members lo ro).*1 lo.*1.
Proof.
  induction lo as [|[k x] lo IH]; simpl; [done|].
  destruct (obj_get ro k); simpl; [by apply sublist_skip|by apply sublist_cons].
Qed.

Lemma converge_nodup a b o :
  wf_json a = true → wf_json b = true → converge a b = JObj o → NoDup o.*1.
Proof.
  intros Ha Hb.
  assert (∀ o', b = JObj o' → NoDup o'.*1) as Hbo.
  { intros o' ->. by apply wf_json_obj in Hb as [? _]. }
  destruct a as [| | | | |la|lo]; try (by simpl; apply Hbo).
  { destruct b; try done; by apply Hbo. }
  destruct b as [| | | | | |ro]; try done.
  rewrite converge_obj. intros [= <-].
  apply wf_json_obj in Ha as [Hlo _], Hb as [Hro _].
  rewrite fmap_app. apply NoDup_app. split_and!.
  - eapply sublist_NoDup; [|apply converge_members_sub]. done.
  - intros key Hin%converge_members_keys
      [[k' v] [-> [[Hnone _] _]%list_elem_of_filter]]%list_elem_of_fmap.
    simpl in *. by apply aget_None in Hnone.
  - eapply sublist_NoDup; [done|]. apply fmap_sublist, sublist_filter.
Qed.

Lemma deep_equal_copied c vt :
  (∀ o, c = JObj o → NoDup o.*1) →
  is_string vt || is_array vt || is_plain_object vt = true →
  deep_equal c vt = true → copied c = c.
Proof.
  intros Hnd Hty Heq. unfold copied.
  destruct vt; try done; destruct c; try done.
  simpl. by rewrite object_assign_fresh by (by apply Hnd).
Qed.

End diff_lemmas.

(** ** What [process] resolves with *)

Section reconciler_claims.
Import DeepDiff DiffHandler.

Lemma process_Ok truth desired desiredCommon current final :
  is_json (JObj desired) = true →
  obj_get desired "Common" = Some (JObj desiredCommon) →
  process truth (JObj desired) current = Ok final →
  ∃ from nonTruth from' updatedPaths finalCommon,
    clone current = Ok from
    ∧ populateNonTruthClasses (JObj desiredCommon) truth = Ok nonTruth
    ∧ foldM (observe truth) (from, [])
            (observableDiff from (JObj desired)) = Ok (from', updatedPaths)
    ∧ foldM (copyUpdated from') nonTruth updatedPaths = Ok finalCommon
    ∧ final = JObj [("Common", JObj finalCommon)].
Proof.
  intros Hjson Hcommon. unfold process.
  rewrite (clone_id (JObj desired)) by done. cbn [mbind result_bind].
  intros (from & Hfrom & H)%bind_Ok.
  cbn [read_prop get_prop] in H. rewrite Hcommon in H.
  cbn [default mbind result_bind] in H.
  apply bind_Ok in H as (nonTruth & Hnon & H).
  apply bind_Ok in H as ([from' ups] & Hobs & H).
  apply bind_Ok in H as (finalCommon & Hcopy & [= <-]).
  by exists from, nonTruth, from', ups, finalCommon.
Qed.

Lemma get_class finalCommon K :
  get_path (JObj [("Common", JObj finalCommon)]) ["Common"; K]
  = default JUndef (aget finalCommon K).
Proof. done. Qed.


(** C2. For a class of truth [K] that both documents have under [Common]:
    when the two values are deep-equal and [Common] is all that [current]
    holds, the merged document leaves the class out; when they differ and
    the desired value is a string, an array or a plain object, the merged
    document has a class deep-equal to the desired one. *)
Theorem process_truth_class
    (classesOfTruth : list string) (K : string)
    (desired current desiredCommon currentCommon : props)
    (vt vf final : json) :
  is_json (JObj desired) = true → wf_json (JObj desired) = true →
  is_json (JObj current) = true → wf_json (JObj current) = true →
  obj_get desired "Common" = Some (JObj desiredCommon) →
  obj_get current "Common" = Some (JObj currentCommon) →
  obj_get desiredCommon K = Some vt → obj_get currentCommon K = Some vf →
  bool_decide (K ∈ classesOfTruth) = true →
  no_empty_key vt = true →
  process classesOfTruth (JObj desired) (JObj current) = Ok final →
  (deep_equal vf vt = true → only_common (JObj current) = true →
   get_path final ["Common"; K] = JUndef)
  ∧ (deep_equal vf vt = false →
     is_string vt || is_array vt || is_plain_object vt = true →
     deep_equal (get_path final ["Common"; K]) vt = true).
Proof.
  intros Hjd Hwd Hjc Hwc Hdc Hcc Hvt Hvf Htruth%bool_decide_eq_true Hne H.
  eapply process_Ok in H
    as (from & nonTruth & from' & ups & finalCommon
        & Hfrom & Hnon & Hobs & Hcopy & ->); [|done..].
  rewrite clone_id in Hfrom by done. injection Hfrom as <-.
  rewrite get_class.
  (* the values on the way down *)
  apply wf_json_obj in Hwd as [Hndd Hwd], Hwc as [Hndc Hwc].
  apply Hwd in Hdc as Hwdc. apply Hwc in Hcc as Hwcc.
  apply wf_json_obj in Hwdc as [Hnddc Hwdc], Hwcc as [Hndcc Hwcc].
  apply Hwdc in Hvt as Hwvt. apply Hwcc in Hvf as Hwvf.
  assert (is_json vt = true ∧ is_json vf = true) as [Hjvt Hjvf].
  { simpl in Hjd, Hjc. rewrite forallb_forall in Hjd, Hjc.
    apply aget_Some_elem, list_elem_of_In, Hjd in Hdc.
    apply aget_Some_elem, list_elem_of_In, Hjc in Hcc.
    simpl in Hdc, Hcc. rewrite forallb_forall in Hdc, Hcc.
    apply aget_Some_elem, list_elem_of_In, Hdc in Hvt.
    apply aget_Some_elem, list_elem_of_In, Hcc in Hvf. done. }
  (* the changes, around those of the class *)
  unfold observableDiff in Hobs.
  destruct (diff_obj_split current desired "Common" _ _ false false []
              Hndc Hcc Hdc) as (pre & post & Hroot & Hout).
  destruct (diff_obj_split currentCommon desiredCommon K _ _ true true
              [Key "Common"] Hndcc Hvf Hvt) as (pre' & post' & Hin & Hout').
  cbn [app] in Hroot, Hin, Hout, Hout'.
  rewrite Hroot, Hin in Hobs.
  split.
  - intros Heq Honly.
    rewrite (deep_equal_diff vf vt) in Hobs by done.
    rewrite (copy_kept K _ _ _ _ Hcopy);
      [by erewrite populate_truth|].
    eapply observe_elsewhere; [|exact Hobs|apply not_elem_of_nil].
    intros c Hc. rewrite !elem_of_app in Hc.
    assert (c ∈ pre ++ post ∨ c ∈ pre' ++ post') as [Hc'|Hc'].
    { rewrite !elem_of_app.
      destruct Hc as [Hc|[[Hc|[Hc|Hc]]|Hc]]; auto.
      by apply elem_of_nil in Hc. }
    + destruct (Hout c Hc') as (k' & q & -> & Hk' & [Hkey| ->]); [|done].
      unfold only_common in Honly. simpl in Honly.
      rewrite forallb_forall in Honly.
      apply list_elem_of_In, Honly, bool_decide_eq_true in Hkey. done.
    + destruct (Hout' c Hc') as (k' & q & -> & Hk' & _). simpl. congruence.
  - intros Hdiff Hty.
    rewrite foldM_app in Hobs.
    apply bind_Ok in Hobs as ([f1 u1] & H1 & Hobs).
    rewrite foldM_app in Hobs.
    apply bind_Ok in Hobs as ([f4 u4] & Hmid & H5).
    rewrite foldM_app in Hmid.
    apply bind_Ok in Hmid as ([f2 u2] & H2 & Hmid).
    rewrite foldM_app in Hmid.
    apply bind_Ok in Hmid as ([f3 u3] & H3 & H4).
    assert (∀ c, c ∈ pre ++ post → outside K c) as Houtside.
    { intros c (k' & q & Hp & Hk' & _)%Hout. exists k', q. auto. }
    assert (∀ c, c ∈ pre' ++ post' → outside K c) as Houtside'.
    { intros c (k' & q & Hp & Hk' & _)%Hout'. exists "Common", (Key k' :: q).
      split; [done|]. right. by exists k', q. }
    eapply (observe_outside_all classesOfTruth K vf) in H1 as [Hc1 _];
      [|intros; apply Houtside, elem_of_app; by left
       |by exists current, currentCommon].
    eapply (observe_outside_all classesOfTruth K vf) in H2 as [Hc2 _];
      [|intros; apply Houtside', elem_of_app; by left|done].
    eapply (observe_block classesOfTruth K vf vt) in H3
      as (Hc3 & _ & Hu3); [|done..].
    eapply (observe_outside_all classesOfTruth K) in H4 as [Hc4 Hu4];
      [|intros; apply Houtside', elem_of_app; by right|done].
    eapply (observe_outside_all classesOfTruth K) in H5 as [Hc5 Hu5];
      [|intros; apply Houtside, elem_of_app; by right|done].
    assert (K ∈ ups) as Hups.
    { apply Hu5, Hu4, Hu3. intros Hnil.
      eapply (deepDiff_nil vf vt) in Hnil; [|done..]. congruence. }
    destruct Hc5 as (o5 & oc5 & -> & Ho5 & Hoc5).
    erewrite (copy_class K); [|done|done|done|by left]. simpl.
    pose proof (converge_equal vf vt Hwvt Hne) as Heq.
    erewrite deep_equal_copied; [done| |done..].
    intros o Ho. by eapply (converge_nodup vf vt).
Qed.


Lemma process_truth_class_witness :
  deep_equal
    (get_path (resolved (process ["DNS"] (JObj desired_declaration)
                                 (JObj current_declaration)))
              ["Common"; "DNS"])
    (JObj [("nameServers", JArr [JStr "1.2.3.4"]);
           ("search", JArr [JStr "f5.com"])]) = true.
Proof.
  assert (∃ final, process ["DNS"] (JObj desired_declaration)
                           (JObj current_declaration) = Ok final)
    as [final H] by (vm_compute; eauto).
  rewrite H. cbn [resolved].
  destruct (process_truth_class ["DNS"] "DNS" desired_declaration
              current_declaration desired_common current_common
              (JObj [("nameServers", JArr [JStr "1.2.3.4"]);
                     ("search", JArr [JStr "f5.com"])])
              (JObj [("nameServers", JArr [JStr "8.8.8.8"; JStr "8.8.4.4"]);
                     ("description", JStr "default")])
              final) as [_ Hdiffer]; [reflexivity..|exact H|].
  apply Hdiffer; reflexivity.
Defined.


(** A class of truth that is the same in both documents is left out of the
    merged document. *)
Lemma process_omits_unchanged_class :
  bool_decide ("DNS" ∈ ["DNS"]) = true
  ∧ deep_equal (get_path (JObj desired_declaration) ["Common"; "DNS"])
               (get_path (JObj desired_declaration) ["Common"; "DNS"]) = true
  ∧ ∃ final,
      process ["DNS"] (JObj desired_declaration) (JObj desired_declaration)
      = Ok final
      ∧ get_path final ["Common"; "DNS"] = JUndef
      ∧ deep_equal (get_path final ["Common"; "DNS"])
                   (get_path (JObj desired_declaration) ["Common"; "DNS"])
        = false.
Proof. vm_compute. eauto 10. Qed.

End reconciler_claims.

(** ** The config manager: what a call of [get] does to the world *)

Section manager_lemmas.
Import ConfigManager.
Variable configItems : list json.
Variable bigIp_list : string → result json.
Variable bigIp_deviceInfo : result json.
Variable first_rejected : list exn → exn.
Variable regex_test : json → json → bool.
Variable url_parse : string → string * string.
Variable querystring_parse : string → alist string.
Variable querystring_stringify : alist string → string.
Variable RADIUS_SERVER_PREFIX RADIUS_PRIMARY_SERVER RADIUS_SECONDARY_SERVER
  : string.
(** [Promise.all] rejects with the error of one of the reads that
    failed. *)
Hypothesis first_rejected_elem : ∀ l, l ≠ [] → first_rejected l ∈ l.
Variable w0 : world.

Local Abbreviation Logged := (logged bigIp_list w0).
Local Abbreviation Runs := (runs bigIp_list w0).

Lemma bind_run {A B} (m : M A) (k : A → M B) w :
  (m ≫= k) w = match m w with
               | (Done a, w') => k a w'
               | (Failed f, w') => (Failed f, w')
               end.
Proof. done. Qed.

Lemma triple_bind {A B} P (m : M A) (k : A → M B) (R : A → world → Prop) Q :
  triple P m (λ r w, match r with
                     | Done a => R a w
                     | Failed f => Q (Failed f) w
                     end) →
  (∀ a, triple (R a) (k a) Q) → triple P (m ≫= k) Q.
Proof.
  intros Hm Hk w Hw. specialize (Hm w Hw). rewrite bind_run.
  destruct (m w) as [[a|f] w1]; simpl in *; [by apply Hk|done].
Qed.

Lemma triple_weaken {A} (P P' : world → Prop) (m : M A) Q :
  (∀ w, P' w → P w) → triple P m Q → triple P' m Q.
Proof. intros HP Hm w Hw. by apply Hm, HP. Qed.

Lemma logged_aborted ps w e : Logged ps w → aborted w0 (Raised e) w.
Proof.
  intros (? & ? & ok & Hreads & _). split_and!; [done..|].
  exists (ok ++ read_log bigIp_list ps). by split.
Qed.

Lemma absorbs_runs {A} (g : A → list string) :
  absorbs w0 (λ (r : outcome A) w, match r with
                                   | Done a => Logged (g a) w
                                   | Failed f => aborted w0 f w
                                   end).
Proof. by intros f w. Qed.

Lemma absorbs_get : absorbs w0 (settled_or_aborted w0).
Proof.
  intros f w Hf. pose proof Hf as (_ & _ & new & Hreads & _).
  exists new. split; [done|]. right. by exists f.
Qed.

Lemma read_log_failed paths p e :
  (p, Throw e) ∈ read_log bigIp_list (omap id paths) →
  Throw e ∈ map (λ p, if p is Some p then bigIp_list p
                      else Ok (JBool false)) paths.
Proof.
  unfold read_log. rewrite !list_elem_of_In, !in_map_iff.
  intros (p' & [= -> He] & Hin). exists (Some p). split; [done|].
  apply list_elem_of_In, list_elem_of_omap in Hin as ([q|] & Hq & [= <-]).
  by apply list_elem_of_In.
Qed.

Lemma failed_read_log paths e :
  Throw e ∈ map (λ p, if p is Some p then bigIp_list p
                      else Ok (JBool false)) paths →
  ∃ p, (p, Throw e) ∈ read_log bigIp_list (omap id paths).
Proof.
  unfold read_log. rewrite list_elem_of_In, in_map_iff.
  intros ([p|] & He & Hin); [|done]. exists p.
  apply list_elem_of_In, in_map_iff. exists p. split; [by rewrite He|].
  apply list_elem_of_In, list_elem_of_omap. exists (Some p).
  split; [by apply list_elem_of_In|done].
Qed.

Section steps.
Context {B : Type} (Q : outcome B → world → Prop) (HQ : absorbs w0 Q).

Lemma triple_ret ps (x : B) :
  (∀ w, Logged ps w → Q (Done x) w) → triple (Logged ps) (mret x) Q.
Proof. intros H w Hw. by apply H. Qed.

Lemma triple_lift_bind {A} ps (r : result A) (k : A → M B) :
  (∀ a, r = Ok a → triple (Logged ps) (k a) Q) →
  triple (Logged ps) (lift r ≫= k) Q.
Proof.
  intros Hk w Hw. rewrite bind_run. unfold lift.
  destruct r as [a|e]; [by apply Hk|]. simpl. by eapply HQ, logged_aborted.
Qed.

Lemma triple_reject ps e : triple (Logged ps) (reject e) Q.
Proof. intros w Hw. simpl. by eapply HQ, logged_aborted. Qed.

Lemma triple_runs_bind {A} ps (m : M A) g (k : A → M B) :
  Runs ps m g → (∀ a, triple (Logged (g a)) (k a) Q) →
  triple (Logged ps) (m ≫= k) Q.
Proof.
  intros Hm Hk. eapply triple_bind; [|exact Hk].
  intros w Hw. specialize (Hm w Hw). destruct (m w).1; [done|by apply HQ].
Qed.

Lemma triple_get_state_bind ps (k : state → M B) :
  triple (Logged ps) (k (task w0)) Q →
  triple (Logged ps) (get_state ≫= k) Q.
Proof.
  intros Hk w Hw. rewrite bind_run. simpl.
  destruct Hw as (Ht & ?). rewrite Ht. apply Hk. by split.
Qed.

Lemma triple_set_configId_bind ps id (k : unit → M B) :
  triple (Logged ps) (k ()) Q →
  triple (Logged ps) (set_configId id ≫= k) Q.
Proof. intros Hk w Hw. rewrite bind_run. simpl. by apply Hk. Qed.

Lemma logged_read p v ps w :
  ps = [] → bigIp_list p = Ok v → Logged ps w →
  Logged [] (World (configId w) (task w) (doState w)
                   (reads w ++ [(p, Ok v)])).
Proof.
  intros -> Hp (? & ? & ok & Hreads & Hok). split_and!; [done..|].
  exists (ok ++ [(p, Ok v)]). simpl in *. split.
  - rewrite Hreads. by rewrite !app_nil_r, <-app_assoc.
  - intros p' e [?|[=]%list_elem_of_singleton]%elem_of_app.
    by eapply Hok.
Qed.

Lemma triple_list_bind p (k : json → M B) :
  (∀ v, bigIp_list p = Ok v → triple (Logged []) (k v) Q) →
  triple (Logged []) (list_ bigIp_list p ≫= k) Q.
Proof.
  intros Hk w Hw. rewrite bind_run. unfold list_.
  destruct (bigIp_list p) as [v|e] eqn:Hp; simpl.
  - apply Hk; [done|]. rewrite <-Hp. rewrite Hp. by eapply logged_read.
  - apply HQ. destruct Hw as (? & ? & ok & Hreads & _).
    split_and!; [done..|]. exists (ok ++ [(p, Throw e)]). simpl in *. split.
    + rewrite Hreads. by rewrite !app_nil_r, <-app_assoc.
    + intros e' [= <-]. exists p. apply elem_of_app. right. left.
Qed.

Lemma triple_issue_bind ps p (k : unit → M B) :
  triple (Logged (ps ++ [p])) (k ()) Q →
  triple (Logged ps) (issue bigIp_list p ≫= k) Q.
Proof.
  intros Hk w Hw. rewrite bind_run. simpl. apply Hk.
  destruct Hw as (? & ? & ok & Hreads & Hok). split_and!; [done..|].
  exists ok. simpl. split; [|done]. rewrite Hreads. unfold read_log.
  by rewrite map_app, <-!app_assoc.
Qed.

Lemma triple_deviceInfo_bind (k : json → M B) :
  (∀ v, bigIp_deviceInfo = Ok v → triple (Logged []) (k v) Q) →
  triple (Logged []) (deviceInfo bigIp_deviceInfo ≫= k) Q.
Proof.
  intros Hk w Hw. rewrite bind_run. unfold deviceInfo.
  destruct Hw as (? & ? & ok & Hreads & Hok).
  destruct bigIp_deviceInfo as [v|e] eqn:Hp; simpl.
  - apply Hk; [done|]. split_and!; [done..|].
    exists (ok ++ [("deviceInfo", Ok v)]). simpl in *. split.
    + rewrite Hreads. by rewrite !app_nil_r, <-app_assoc.
    + intros p' e [?|[=]%list_elem_of_singleton]%elem_of_app.
      by eapply Hok.
  - apply HQ. split_and!; [done..|].
    exists (ok ++ [("deviceInfo", Throw e)]). simpl in *. split.
    + rewrite Hreads. by rewrite !app_nil_r, <-app_assoc.
    + intros e' [= <-]. exists "deviceInfo". apply elem_of_app. right. left.
Qed.

Lemma triple_settle_bind paths (k : list json → M B) :
  (∀ rs, triple (Logged []) (k rs) Q) →
  triple (Logged (omap id paths))
         (settle bigIp_list first_rejected paths ≫= k) Q.
Proof.
  intros Hk w Hw. rewrite bind_run. unfold settle.
  set (rs := map (λ p, if p is Some p then bigIp_list p
                       else Ok (JBool false)) paths).
  destruct Hw as (? & ? & ok & Hreads & Hok).
  destruct (omap _ rs) as [|e0 errors] eqn:Herr.
  - simpl. apply Hk. split_and!; [done..|].
    exists (ok ++ read_log bigIp_list (omap id paths)). split.
    + by rewrite app_nil_r.
    + intros p e [?|Hin]%elem_of_app; [by eapply Hok|].
      apply read_log_failed in Hin. fold rs in Hin.
      assert (e ∈ omap (λ r, if r is Throw e then Some e else None) rs)
        as He by (apply list_elem_of_omap; by exists (Throw e)).
      rewrite Herr in He. by apply elem_of_nil in He.
  - simpl. apply HQ. split_and!; [done..|].
    exists (ok ++ read_log bigIp_list (omap id paths)). split; [done|].
    intros e [= <-].
    assert (first_rejected (e0 :: errors) ∈ e0 :: errors) as He
      by by apply first_rejected_elem.
    revert He. generalize (first_rejected (e0 :: errors)). intros fr He.
    rewrite <-Herr in He.
    apply list_elem_of_omap in He as ([v|e] & Hin & [= ->]).
    apply failed_read_log in Hin as [p Hp].
    exists p. apply elem_of_app. by right.
Qed.

End steps.

Lemma runs_ret {A} ps (x : A) g : g x = ps → Runs ps (mret x) g.
Proof. intros <- w Hw. done. Qed.

Lemma runs_foldM_M {A S} (f : S → A → M S) (h : S → list string) l :
  (∀ s x, Runs (h s) (f s x) h) → ∀ s, Runs (h s) (foldM_M f s l) h.
Proof.
  intros Hf. induction l as [|x l IH]; intros s; simpl.
  - by apply runs_ret.
  - eapply triple_runs_bind; [apply absorbs_runs|apply Hf|apply IH].
Qed.

Lemma runs_mapM_M {A} (f : A → M (option string)) l :
  (∀ ps x, Runs ps (f x) (λ o, ps ++ option_list o)) →
  ∀ ps, Runs ps (mapM_M f l) (λ os, ps ++ omap id os).
Proof.
  intros Hf. induction l as [|x l IH]; intros ps; simpl.
  - apply runs_ret. simpl. by rewrite app_nil_r.
  - eapply triple_runs_bind; [apply absorbs_runs|apply Hf|]. intros y.
    eapply triple_runs_bind; [apply absorbs_runs|apply IH|]. intros ys.
    apply triple_ret. intros w Hw.
    destruct y; simpl in *; by rewrite <-?app_assoc in Hw.
Qed.

(** One step of a computation that stays in its [logged] state. *)
Ltac step :=
  first
    [ apply triple_lift_bind; [apply absorbs_runs|intros ? _]
    | apply triple_issue_bind
    | apply triple_reject; apply absorbs_runs
    | apply runs_ret; simpl; rewrite ?fmap_app, ?app_nil_r; done
    | match goal with
      | |- triple _ (let '(_, _) := ?x in _) _ => destruct x
      | |- triple _ (if ?c then _ else _) _ => destruct c
      end ].

Lemma runs_getTokenMap info :
  Runs [] (getTokenMap bigIp_list info) (λ _, []).
Proof.
  unfold getTokenMap, runs. step.
  apply triple_list_bind; [apply absorbs_runs|intros cm _].
  apply triple_lift_bind; [apply absorbs_runs|intros devices _].
  destruct devices as [|device [|]]; try step. by repeat step.
Qed.

Lemma runs_queryConfigItem pm tm ci ps :
  Runs ps (queryConfigItem bigIp_list querystring_stringify pm tm ci)
       (λ o, ps ++ option_list o).
Proof.
  unfold queryConfigItem, runs. step.
  destruct a as [path|]; repeat step.
Qed.

Lemma runs_getReferencedPaths item index ri :
  Runs ri.*1
       (getReferencedPaths configItems bigIp_list url_parse querystring_parse
                           querystring_stringify item index ri)
       (λ ri', ri'.*1).
Proof.
  unfold getReferencedPaths, runs. step.
  apply (runs_foldM_M _ (λ ri : list (string * reference), ri.*1)).
  intros acc property. unfold runs, referencedPath. step. cbv zeta.
  destruct (truthy _); [|step]. step.
  destruct (truthy _); [|step]. step.
  destruct (url_parse _) as [pathname query]. repeat step.
Qed.

Local Abbreviation FileItem :=
  (fileItem configItems bigIp_list regex_test url_parse querystring_parse
            querystring_stringify RADIUS_SERVER_PREFIX RADIUS_PRIMARY_SERVER
            RADIUS_SECONDARY_SERVER).
Local Abbreviation FileResult :=
  (fileResult configItems bigIp_list regex_test url_parse querystring_parse
              querystring_stringify RADIUS_SERVER_PREFIX RADIUS_PRIMARY_SERVER
              RADIUS_SECONDARY_SERVER).
Local Abbreviation Get :=
  (get configItems bigIp_list bigIp_deviceInfo first_rejected regex_test
       url_parse querystring_parse querystring_stringify RADIUS_SERVER_PREFIX
       RADIUS_PRIMARY_SERVER RADIUS_SECONDARY_SERVER).

Lemma omap_id_Some {A} (l : list A) : omap id (Some <$> l) = l.
Proof. induction l as [|x l IH]; [done|]. cbn. by rewrite IH. Qed.

Lemma runs_fileItem dbVars index acc item :
  Runs acc.2.*1 (FileItem dbVars index acc item) (λ acc', acc'.2.*1).
Proof.
  unfold fileItem, runs. destruct acc as [currentConfig referenceInfo].
  cbv zeta. repeat step.
  eapply triple_runs_bind;
    [apply absorbs_runs|apply runs_getReferencedPaths|].
  intros ri. step.
Qed.

Lemma runs_fileResult dbVars acc indexed :
  Runs acc.2.*1 (FileResult dbVars acc indexed) (λ acc', acc'.2.*1).
Proof.
  unfold fileResult, runs. destruct acc as [currentConfig referenceInfo].
  destruct indexed as [index currentItem].
  destruct (strict_eqb currentItem (JBool false)); [step|].
  cbv zeta. step. destruct (negb (truthy _)); [by repeat step|].
  assert (∀ x : json,
    triple (Logged (currentConfig, referenceInfo).2.*1)
      (ignored ← lift (shouldIgnore regex_test x
                         (get_prop (configItem configItems index) "ignore"));
       if ignored : bool then mret (currentConfig, referenceInfo)
       else
         (patchedItem ← lift (mapProperties configItems
            (JObj (removeUnusedKeys x
                     (get_prop (configItem configItems index) "nameless")))
            index);
          patchedItem ← lift (if strict_eqb a (JStr "Authentication")
            then patchAuth RADIUS_SERVER_PREFIX RADIUS_PRIMARY_SERVER
                   RADIUS_SECONDARY_SERVER
                   (get_prop (configItem configItems index) "schemaMerge")
                   (default JUndef (obj_get currentConfig (to_key a)))
                   patchedItem
            else Ok patchedItem);
          patchedItem ← lift (if strict_eqb a (JStr "SyslogRemoteServer")
                              then patchSyslog patchedItem
                              else Ok patchedItem);
          referenceInfo ← getReferencedPaths configItems bigIp_list url_parse
                            querystring_parse querystring_stringify x index
                            referenceInfo;
          mret (obj_set currentConfig (to_key a) patchedItem, referenceInfo)))
      (λ r w, match r with
              | Done acc' => Logged acc'.2.*1 w
              | Failed f => aborted w0 f w
              end)) as Hsingle.
  { intros x. repeat step.
    eapply triple_runs_bind;
      [apply absorbs_runs|apply runs_getReferencedPaths|].
    intros ri. step. }
  destruct currentItem; try apply Hsingle.
  destruct (_ && _); [step|].
  apply (runs_foldM_M _ (λ acc : props * list (string * reference),
                           acc.2.*1)).
  intros. apply runs_fileItem.
Qed.

Lemma reads_bind {A B} (m : M A) (k : A → M B) :
  (∀ w, reads (m w).2 = reads w) → (∀ a w, reads (k a w).2 = reads w) →
  ∀ w, reads ((m ≫= k) w).2 = reads w.
Proof.
  intros Hm Hk w. rewrite bind_run. specialize (Hm w).
  destruct (m w) as [[a|f] w1]; simpl in *; [|done]. by rewrite Hk.
Qed.

Lemma reads_lift {A} (r : result A) w : reads (lift r w).2 = reads w.
Proof. done. Qed.

(** The commit reads nothing from the device. *)
Lemma commit_reads currentConfig w :
  reads (commit currentConfig w).2 = reads w.
Proof.
  revert w. unfold commit. cbv zeta.
  repeat (apply reads_bind; [try done|intros ?]); try done.
  by destruct (_ && _).
Qed.

(** [get] ends with every read of the call settled well, or fails with
    nothing committed. *)
Lemma get_triple declaration :
  triple (Logged []) (Get declaration) (settled_or_aborted w0).
Proof.
  unfold get.
  apply triple_get_state_bind.
  apply triple_lift_bind; [apply absorbs_get|intros dbVars _].
  apply triple_list_bind; [apply absorbs_get|intros provisioning _].
  apply triple_lift_bind; [apply absorbs_get|intros modules _].
  apply triple_deviceInfo_bind; [apply absorbs_get|intros info _].
  apply triple_lift_bind; [apply absorbs_get|intros machineId _].
  apply triple_set_configId_bind.
  eapply triple_runs_bind; [apply absorbs_get|apply runs_getTokenMap|].
  intros tokenMap.
  eapply triple_runs_bind;
    [apply absorbs_get
    |apply (runs_mapM_M _ _ (λ ps x, runs_queryConfigItem _ _ x ps))|].
  intros queries. simpl app.
  apply triple_settle_bind; [apply absorbs_get|intros results].
  eapply triple_runs_bind;
    [apply absorbs_get
    |apply (runs_foldM_M _ (λ acc : props * list (string * reference),
                              acc.2.*1) _ (runs_fileResult dbVars)
              ([], []))|].
  intros [currentConfig referenceInfo]. simpl.
  eapply triple_weaken;
    [|apply (triple_settle_bind _ absorbs_get (Some <$> referenceInfo.*1))].
  { intros w. by rewrite omap_id_Some. }
  intros referencesResults.
  apply triple_lift_bind; [apply absorbs_get|intros cc _].
  (* the commit reads nothing *)
  intros w (_ & _ & ok & Hreads & Hok). exists ok.
  rewrite app_nil_r in Hreads. split; [|by left].
  by rewrite commit_reads.
Qed.

End manager_lemmas.

(** ** The config manager: what a successful call has computed *)

Section manager_values.
Import ConfigManager.
Variable configItems : list json.
Variable bigIp_list : string → result json.
Variable bigIp_deviceInfo : result json.
Variable first_rejected : list exn → exn.
Variable regex_test : json → json → bool.
Variable url_parse : string → string * string.
Variable querystring_parse : string → alist string.
Variable querystring_stringify : alist string → string.
Variable RADIUS_SERVER_PREFIX RADIUS_PRIMARY_SERVER RADIUS_SECONDARY_SERVER
  : string.

Lemma M_bind_Done {A B} (m : M A) (k : A → M B) w b w' :
  (m ≫= k) w = (Done b, w') →
  ∃ a w1, m w = (Done a, w1) ∧ k a w1 = (Done b, w').
Proof. rewrite bind_run. destruct (m w) as [[a|f] w1]; [eauto|done]. Qed.

Lemma gives_bind {A B} (m : M A) (k : A → M B) (Φ : A → Prop) Ψ :
  gives m Φ → (∀ a, Φ a → gives (k a) Ψ) → gives (m ≫= k) Ψ.
Proof.
  intros Hm Hk w b w' (a & w1 & Ha & Hb)%M_bind_Done.
  eapply Hk; [by eapply Hm|done].
Qed.

Lemma gives_weaken {A} (m : M A) (Φ Ψ : A → Prop) :
  gives m Φ → (∀ a, Φ a → Ψ a) → gives m Ψ.
Proof. intros Hm HΦ w a w' H. by eapply HΦ, Hm. Qed.

Lemma gives_true {A} (m : M A) : gives m (λ _, True).
Proof. done. Qed.

Lemma gives_ret {A} (x : A) (Φ : A → Prop) : Φ x → gives (mret x) Φ.
Proof. by intros H w a w' [= <- _]. Qed.

Lemma gives_lift {A} (r : result A) (Φ : A → Prop) :
  (∀ a, r = Ok a → Φ a) → gives (lift r) Φ.
Proof. intros H w a w'. unfold lift. destruct r; [|done]. intros [= <- _]. auto. Qed.

Lemma gives_lift_bind {A B} (r : result A) (k : A → M B) Ψ :
  (∀ a, r = Ok a → gives (k a) Ψ) → gives (lift r ≫= k) Ψ.
Proof.
  intros H. eapply gives_bind; [apply (gives_lift r (λ a, r = Ok a)); auto|].
  done.
Qed.

Lemma gives_issue_bind {B} p (k : unit → M B) Ψ :
  gives (k ()) Ψ → gives (issue bigIp_list p ≫= k) Ψ.
Proof.
  intros H. eapply gives_bind; [apply gives_true|]. by intros [] _.
Qed.

Lemma gives_list p (Φ : json → Prop) :
  (∀ v, bigIp_list p = Ok v → Φ v) → gives (list_ bigIp_list p) Φ.
Proof.
  intros H w a w'. unfold list_. destruct (bigIp_list p) eqn:Hp; [|done].
  intros [= <- _]. auto.
Qed.

(** A property that every step keeps and that the step at [x]
    establishes holds after the loop. *)
Lemma gives_foldM_M_once {A S} (f : S → A → M S) (Q : S → Prop) x l :
  x ∈ l →
  (∀ s, gives (f s x) Q) → (∀ s y, Q s → gives (f s y) Q) →
  ∀ s, gives (foldM_M f s l) Q.
Proof.
  intros Hx Hat Hkeep.
  assert (∀ l s, Q s → gives (foldM_M f s l) Q) as Hrest.
  { clear l Hx. induction l as [|y l IH]; intros s Hs; simpl.
    - by apply gives_ret.
    - eapply gives_bind; [by apply Hkeep|]. intros s'. apply IH. }
  induction l as [|y l IH]; intros s; [by apply elem_of_nil in Hx|].
  simpl. apply elem_of_cons in Hx as [->|Hx].
  - eapply gives_bind; [apply Hat|]. intros s'. apply Hrest.
  - eapply gives_bind; [apply gives_true|]. intros s' _. by apply IH.
Qed.

Lemma gives_mapM_M {A B} (f : A → M B) (Φ : A → B → Prop) l :
  (∀ x, gives (f x) (Φ x)) → gives (mapM_M f l) (Forall2 Φ l).
Proof.
  intros Hf. induction l as [|x l IH]; simpl.
  - apply gives_ret. constructor.
  - eapply gives_bind; [apply Hf|]. intros y Hy.
    eapply gives_bind; [apply IH|]. intros ys Hys.
    apply gives_ret. by constructor.
Qed.

(** What [Promise.all] resolves with. *)
Lemma gives_settle paths :
  gives (settle bigIp_list first_rejected paths)
        (Forall2 (λ q v, match q with
                         | Some p => bigIp_list p = Ok v
                         | None => v = JBool false
                         end) paths).
Proof.
  intros w rs w'. unfold settle.
  destruct (omap _ _) as [|e errors] eqn:Herr; [|done].
  intros [= <- _]. clear w. induction paths as [|q paths IH]; [constructor|].
  simpl in *. destruct q as [p|].
  - destruct (bigIp_list p) as [v|e] eqn:Hp; [|done]. simpl.
    constructor; [done|]. by apply IH.
  - simpl. constructor; [done|]. by apply IH.
Qed.

Lemma ends_bind {A B} (m : M A) (k : A → M B) (Φ : A → Prop) Ψ :
  gives m Φ → (∀ a, Φ a → ends (k a) Ψ) → ends (m ≫= k) Ψ.
Proof.
  intros Hm Hk w b w' (a & w1 & Ha & Hb)%M_bind_Done.
  eapply Hk; [by eapply Hm|done].
Qed.

Lemma currentConfig_bind {A B} (m : M A) (k : A → M B) :
  (∀ w, currentConfig (task (m w).2) = currentConfig (task w)) →
  (∀ a w, currentConfig (task (k a w).2) = currentConfig (task w)) →
  ∀ w, currentConfig (task ((m ≫= k) w).2) = currentConfig (task w).
Proof.
  intros Hm Hk w. rewrite bind_run. specialize (Hm w).
  destruct (m w) as [[a|f] w1]; simpl in *; [|done]. by rewrite Hk.
Qed.

(** The commit leaves [state.currentConfig] at the current config. *)
Lemma commit_ends currentConfig0 :
  ends (commit currentConfig0)
       (λ w, currentConfig (task w)
             = JObj [("parsed", JBool true);
                     ("Common", JObj currentConfig0)]).
Proof.
  intros w [] w' H. unfold commit in H. cbv zeta in H.
  rewrite bind_run in H. simpl in H.
  match type of H with
  | ?m ?w1 = _ =>
      assert (currentConfig (task (m w1).2) = currentConfig (task w1))
        as Hkeep
  end.
  { generalize (World (configId w)
      (State (JObj [("parsed", JBool true); ("Common", JObj currentConfig0)])
             (originalConfig (task w))) (doState w) (reads w)).
    repeat (apply currentConfig_bind; [try done|intros ?]); try done.
    by destruct (_ && _). }
  rewrite H in Hkeep. done.
Qed.

Local Abbreviation ReferencedPath :=
  (referencedPath configItems bigIp_list url_parse querystring_parse
                  querystring_stringify).
Local Abbreviation GetReferencedPaths :=
  (getReferencedPaths configItems bigIp_list url_parse querystring_parse
                      querystring_stringify).
Local Abbreviation FileItem :=
  (fileItem configItems bigIp_list regex_test url_parse querystring_parse
            querystring_stringify RADIUS_SERVER_PREFIX RADIUS_PRIMARY_SERVER
            RADIUS_SECONDARY_SERVER).
Local Abbreviation FileResult :=
  (fileResult configItems bigIp_list regex_test url_parse querystring_parse
              querystring_stringify RADIUS_SERVER_PREFIX RADIUS_PRIMARY_SERVER
              RADIUS_SECONDARY_SERVER).

(** One step of a computation, for what it gives. *)
Ltac gstep :=
  first
    [ apply gives_lift_bind; intros ? ?
    | apply gives_issue_bind
    | match goal with
      | |- gives (let '(_, _) := ?x in _) _ => destruct x
      | |- gives (if ?c then _ else _) _ => destruct c
      end ].

(** *** The reference records only grow *)

Lemma referencedPath_grows item index acc property :
  gives (ReferencedPath item index acc property)
        (λ acc', ∀ x, x ∈ acc → x ∈ acc').
Proof.
  unfold referencedPath. cbv zeta. repeat gstep;
    apply gives_ret; intros x Hx; try done.
  apply elem_of_app. by left.
Qed.

Lemma foldM_M_grows {A S} (f : S → A → M S) (R : S → S → Prop) l :
  (∀ s, R s s) → (∀ s1 s2 s3, R s1 s2 → R s2 s3 → R s1 s3) →
  (∀ s x, gives (f s x) (R s)) →
  ∀ s, gives (foldM_M f s l) (R s).
Proof.
  intros Hrefl Htrans Hf. induction l as [|x l IH]; intros s; simpl.
  - by apply gives_ret.
  - eapply gives_bind; [apply Hf|]. intros s1 H1.
    eapply gives_weaken; [apply IH|]. intros s2 H2. by eapply Htrans.
Qed.

Lemma getReferencedPaths_grows item index acc :
  gives (GetReferencedPaths item index acc) (λ acc', ∀ x, x ∈ acc → x ∈ acc').
Proof.
  unfold getReferencedPaths. gstep.
  apply (foldM_M_grows _ (λ acc acc' : list (string * reference),
                            ∀ x, x ∈ acc → x ∈ acc')); [auto..|].
  intros. apply referencedPath_grows.
Qed.

Lemma fileItem_grows dbVars index acc item :
  gives (FileItem dbVars index acc item) (λ acc', ∀ x, x ∈ acc.2 → x ∈ acc'.2).
Proof.
  unfold fileItem. destruct acc as [currentConfig referenceInfo].
  cbv zeta. repeat gstep; try (by apply gives_ret).
  eapply gives_bind; [apply getReferencedPaths_grows|]. intros ri Hri.
  by apply gives_ret.
Qed.

Lemma fileResult_grows dbVars acc indexed :
  gives (FileResult dbVars acc indexed) (λ acc', ∀ x, x ∈ acc.2 → x ∈ acc'.2).
Proof.
  unfold fileResult. destruct acc as [currentConfig referenceInfo].
  destruct indexed as [index currentItem]. cbv zeta.
  repeat gstep; try (by apply gives_ret).
  destruct currentItem;
    repeat gstep; try (by apply gives_ret);
    try (eapply gives_bind; [apply getReferencedPaths_grows|]; intros ri Hri;
         by apply gives_ret).
  apply (foldM_M_grows _ (λ acc acc' : props * list (string * reference),
                            ∀ x, x ∈ acc.2 → x ∈ acc'.2)); [auto..|].
  intros. apply fileItem_grows.
Qed.

(** *** The reference step *)

Lemma spliceReference_Ok currentConfig info referenceResult currentConfig' :
  spliceReference currentConfig (info, referenceResult) = Ok currentConfig' →
  ∃ cleaned,
    cleanReferences info referenceResult = Ok cleaned
    ∧ get_path (JObj currentConfig')
               [to_key (ref_schemaClass info); to_key (ref_name info);
                ref_property info] = JArr cleaned
    ∧ ∀ key, key ≠ ref_property info →
        get_path (JObj currentConfig')
                 [to_key (ref_schemaClass info); to_key (ref_name info); key]
        = get_path (JObj currentConfig)
                   [to_key (ref_schemaClass info); to_key (ref_name info);
                    key].
Proof.
  unfold spliceReference. cbv zeta.
  intros (cls & [-> _]%read_prop_Ok & H)%bind_Ok.
  apply bind_Ok in H as (instance & [-> _]%read_prop_Ok & H).
  apply bind_Ok in H as (? & _ & H).
  apply bind_Ok in H as (cleaned & Hclean & H).
  apply bind_Ok in H as (instance' & Hinst & H).
  apply bind_Ok in H as (cls' & Hcls & [= <-]).
  exists cleaned. split; [done|].
  assert (get_prop (JObj (obj_set currentConfig
                            (to_key (ref_schemaClass info)) cls'))
                   (to_key (ref_schemaClass info)) = cls') as Hget.
  { simpl. unfold obj_get, obj_set. by rewrite (aget_aset_eq (V:=json)). }
  cbn [get_path]. rewrite Hget.
  rewrite (set_prop_get_eq _ _ _ _ Hcls). split.
  - by rewrite (set_prop_get_eq _ _ _ _ Hinst).
  - intros key Hne. by rewrite (set_prop_get_ne _ _ _ _ _ Hinst).
Qed.

(** A reference leaves alone what the other keys address. *)
Lemma spliceReference_frame currentConfig info referenceResult currentConfig'
    (S name foo : string) :
  spliceReference currentConfig (info, referenceResult) = Ok currentConfig' →
  reference_key info ≠ (S, name, foo) →
  get_path (JObj currentConfig') [S; name; foo]
  = get_path (JObj currentConfig) [S; name; foo].
Proof.
  unfold spliceReference, reference_key. cbv zeta.
  intros (cls & [-> _]%read_prop_Ok & H)%bind_Ok Hkey.
  apply bind_Ok in H as (instance & [-> _]%read_prop_Ok & H).
  apply bind_Ok in H as (? & _ & H).
  apply bind_Ok in H as (cleaned & Hclean & H).
  apply bind_Ok in H as (instance' & Hinst & H).
  apply bind_Ok in H as (cls' & Hcls & [= <-]).
  cbn [get_path].
  destruct (decide (to_key (ref_schemaClass info) = S)) as [HS|HS].
  - assert (get_prop (JObj (obj_set currentConfig
                              (to_key (ref_schemaClass info)) cls')) S
            = cls') as ->.
    { simpl. unfold obj_get, obj_set. rewrite <-HS.
      by rewrite (aget_aset_eq (V:=json)). }
    rewrite <-HS.
    destruct (decide (to_key (ref_name info) = name)) as [Hn|Hn].
    + rewrite <-Hn, (set_prop_get_eq _ _ _ _ Hcls).
      rewrite (set_prop_get_ne _ _ _ _ _ Hinst); [done|].
      intros ->. by rewrite HS, Hn in Hkey.
    + by rewrite (set_prop_get_ne _ _ _ _ _ Hcls).
  - simpl. unfold obj_get, obj_set.
    by rewrite (aget_aset_ne (V:=json)).
Qed.

Lemma splice_frame (S name foo : string) l : ∀ currentConfig currentConfig',
  foldM spliceReference currentConfig l = Ok currentConfig' →
  Forall (λ e, reference_key e.1 ≠ (S, name, foo)) l →
  get_path (JObj currentConfig') [S; name; foo]
  = get_path (JObj currentConfig) [S; name; foo].
Proof.
  induction l as [|[info result] l IH]; intros cc cc' H Hl; cbn [foldM] in H.
  - by injection H as <-.
  - apply bind_Ok in H as (cc1 & Hstep & H).
    apply Forall_cons in Hl as [Hhead Hl].
    rewrite (IH _ _ H Hl). by eapply spliceReference_frame.
Qed.

(** After the reference step, what a recorded key addresses is the
    cleaned result of the last reference recorded for the key. *)
Lemma splice_last (S name foo : string) l : ∀ currentConfig currentConfig',
  foldM spliceReference currentConfig l = Ok currentConfig' →
  Exists (λ e, reference_key e.1 = (S, name, foo)) l →
  ∃ info result cleaned,
    (info, result) ∈ l ∧ reference_key info = (S, name, foo)
    ∧ cleanReferences info result = Ok cleaned
    ∧ get_path (JObj currentConfig') [S; name; foo] = JArr cleaned.
Proof.
  induction l as [|[info result] l IH]; intros cc cc' H Hl; cbn [foldM] in H.
  { by apply Exists_nil in Hl. }
  apply bind_Ok in H as (cc1 & Hstep & H).
  destruct (decide (Exists (λ e : reference * json,
                              reference_key e.1 = (S, name, foo)) l))
    as [Hlater|Hlater].
  - destruct (IH _ _ H Hlater) as (info' & result' & cleaned & ? & ? & ? & ?).
    exists info', result', cleaned. split_and!; [by right|done..].
  - apply Exists_cons in Hl as [Hhead|?]; [|done]. simpl in Hhead.
    apply not_Exists_Forall in Hlater; [|intros ?; apply _].
    rewrite (splice_frame _ _ _ _ _ _ H Hlater).
    apply spliceReference_Ok in Hstep as (cleaned & Hclean & Hfoo & _).
    exists info, result, cleaned. split_and!; [left|done..|].
    unfold reference_key in Hhead. injection Hhead as HS Hn Hf.
    by rewrite HS, Hn, Hf in Hfoo.
Qed.

(** The results of the reference reads, tied to the records. *)
Lemma zip_recorded (R : string → json → Prop)
    (ri : list (string * reference)) : ∀ rs,
  Forall2 R ri.*1 rs →
  (∀ path info, (path, info) ∈ ri →
     ∃ v, R path v ∧ (info, v) ∈ zip ri.*2 rs)
  ∧ (∀ info v, (info, v) ∈ zip ri.*2 rs →
       ∃ path, (path, info) ∈ ri ∧ R path v).
Proof.
  induction ri as [|[p i] ri IH]; intros rs Hrs.
  { split; [by intros ? ? ?%elem_of_nil|]. simpl.
    by intros ? ? ?%elem_of_nil. }
  simpl in Hrs. apply Forall2_cons_inv_l in Hrs as (v0 & rs' & Hv0 & Hrs & ->).
  destruct (IH _ Hrs) as [IH1 IH2]. simpl. split.
  - intros path info [[= -> ->]|Hin]%elem_of_cons.
    + exists v0. split; [done|left].
    + destruct (IH1 _ _ Hin) as (v & ? & ?). exists v. split; [done|by right].
  - intros info v [[= -> ->]|Hin]%elem_of_cons.
    + exists p. split; [left|done].
    + destruct (IH2 _ _ Hin) as (path & ? & ?). exists path.
      split; [by right|done].
Qed.

Lemma ends_weaken {A} (m : M A) (Ψ Ψ' : world → Prop) :
  ends m Ψ → (∀ w, Ψ w → Ψ' w) → ends m Ψ'.
Proof. intros Hm HΨ w a w' H. by eapply HΨ, Hm. Qed.

Lemma queryConfigItem_gives pm tm x :
  gives (queryConfigItem bigIp_list querystring_stringify pm tm x)
        (λ q, queryPath querystring_stringify pm tm x = Ok q).
Proof.
  unfold queryConfigItem. apply gives_lift_bind. intros [path|] Hq.
  - apply gives_issue_bind. by apply gives_ret.
  - by apply gives_ret.
Qed.

Lemma lookup_zip_seq {A} (l : list A) i x :
  l !! i = Some x → (i, x) ∈ zip (seq 0 (length l)) l.
Proof.
  intros Hi. apply list_elem_of_lookup. exists i.
  apply lookup_zip_with_Some. exists i, x. split_and!; [done| |done].
  apply lookup_seq. split; [done|]. by eapply lookup_lt_Some.
Qed.

(** *** The record of a reference *)

Section recorded.
(** The descriptor at [index], an item of its result, and the property [P]
    of the item that the descriptor declares as a reference. *)
Variables (index : nat) (ci item references : json) (P link foo : string).
Hypothesis Hci : configItems !! index = Some ci.
Hypothesis Hrefs : read_prop ci "references" = Ok references.
Hypothesis Htruthy : truthy references = true.
Hypothesis Hprops : truthy (get_prop references P) = true.
Hypothesis HP : P ∈ obj_keys (own_props item).
Hypothesis Hlink : read_prop (get_prop item P) "link" = Ok (JStr link).
Hypothesis Hlinkt : truthy (JStr link) = true.
Hypothesis Htrim : trimReference P = Ok foo.

Local Abbreviation Recorded :=
  (λ referenceInfo : list (string * reference),
     ∃ path info,
       (path, info) ∈ referenceInfo
       ∧ ref_property info = foo
       ∧ ref_name info = get_prop item "name"
       ∧ ref_schemaClass info = get_prop ci "schemaClass"
       ∧ ref_properties info = get_prop references P).

Lemma configItem_index : configItem configItems index = ci.
Proof. unfold configItem. by rewrite Hci. Qed.

Lemma referencedPath_records acc :
  gives (ReferencedPath item index acc P) Recorded.
Proof.
  unfold referencedPath. rewrite configItem_index, Hrefs.
  apply gives_lift_bind. intros ? [= <-]. cbv zeta.
  rewrite Htruthy, Hprops, Hlink.
  apply gives_lift_bind. intros ? [= <-]. rewrite Hlinkt.
  apply gives_lift_bind. intros ? [= <-].
  destruct (url_parse link) as [pathname query].
  apply gives_lift_bind. intros selectProperties _. rewrite Htrim.
  apply gives_lift_bind. intros ? [= <-].
  apply gives_issue_bind.
  apply gives_lift_bind. intros schemaClass [-> _]%read_prop_Ok.
  apply gives_ret. eexists _, _. split; [apply elem_of_app; right; left|].
  done.
Qed.

Lemma Recorded_grows (ri ri' : list (string * reference)) :
  Recorded ri → (∀ x, x ∈ ri → x ∈ ri') → Recorded ri'.
Proof. intros (path & info & Hin & ?) Hsub. exists path, info. auto. Qed.

Lemma getReferencedPaths_records acc :
  gives (GetReferencedPaths item index acc) Recorded.
Proof.
  unfold getReferencedPaths.
  apply gives_lift_bind. intros keys [-> _]%object_keys_Ok.
  apply (gives_foldM_M_once _ Recorded P); [done|..].
  - apply referencedPath_records.
  - intros acc' property Hacc.
    eapply gives_weaken; [apply referencedPath_grows|].
    intros acc'' Hsub. by eapply Recorded_grows.
Qed.

(** The item is not ignored. *)
Hypothesis Hignore :
  shouldIgnore regex_test item (get_prop ci "ignore") = Ok false.

Lemma fileItem_records dbVars acc :
  gives (FileItem dbVars index acc item) (λ acc', Recorded acc'.2).
Proof.
  unfold fileItem. destruct acc as [currentConfig referenceInfo].
  cbv zeta. rewrite configItem_index, Hignore.
  apply gives_lift_bind. intros ? [= <-].
  repeat gstep.
  all: eapply gives_bind; [apply getReferencedPaths_records|];
    intros ri Hri; by apply gives_ret.
Qed.

(** The result of the descriptor is an array that holds the item, and the
    descriptor has a class. *)
Variable items : list json.
Hypothesis Hitem : item ∈ items.
Hypothesis Hdefined : is_undef item = false.
Hypothesis Hclass : truthy (get_prop ci "schemaClass") = true.

Lemma fileResult_records dbVars acc :
  gives (FileResult dbVars acc (index, JArr items)) (λ acc', Recorded acc'.2).
Proof.
  unfold fileResult. destruct acc as [currentConfig referenceInfo].
  cbv zeta. simpl strict_eqb. cbv iota. rewrite configItem_index.
  apply gives_lift_bind. intros schemaClass [-> _]%read_prop_Ok.
  rewrite Hclass. simpl negb. cbv iota.
  assert (bool_decide (length items = 0) = false) as ->.
  { apply bool_decide_eq_false. intros Hlen.
    apply length_zero_iff_nil in Hlen. subst items.
    by apply elem_of_nil in Hitem. }
  simpl andb. cbv iota.
  apply (gives_foldM_M_once _ (λ acc : props * list (string * reference),
                                 Recorded acc.2) item).
  - apply list_elem_of_filter. by split.
  - intros acc. pose proof (fileItem_records dbVars acc) as H.
    by rewrite configItem_index in H || exact H.
  - intros acc y Hacc. eapply gives_weaken; [apply fileItem_grows|].
    intros acc' Hsub. by eapply Recorded_grows.
Qed.

(** The read that [get] issues for the descriptor returns the items. *)
Variable S : string.
Hypothesis HS : get_prop ci "schemaClass" = JStr S.
Hypothesis Hread :
  ∀ pm tm q, queryPath querystring_stringify pm tm ci = Ok q →
             ∃ path, q = Some path ∧ bigIp_list path = Ok (JArr items).

Local Abbreviation Get :=
  (get configItems bigIp_list bigIp_deviceInfo first_rejected regex_test
       url_parse querystring_parse querystring_stringify RADIUS_SERVER_PREFIX
       RADIUS_PRIMARY_SERVER RADIUS_SECONDARY_SERVER).

Lemma get_records declaration :
  ends (Get declaration)
       (λ w', ∃ path info referenceResult cleaned,
          bigIp_list path = Ok referenceResult
          ∧ reference_key info = (S, to_key (get_prop item "name"), foo)
          ∧ cleanReferences info referenceResult = Ok cleaned
          ∧ get_path (currentConfig (task w'))
                     ["Common"; S; to_key (get_prop item "name"); foo]
            = JArr cleaned).
Proof.
  unfold get.
  eapply ends_bind; [apply gives_true|intros st _].
  eapply ends_bind; [apply gives_true|intros dbVars _].
  eapply ends_bind; [apply gives_true|intros provisioning _].
  eapply ends_bind; [apply gives_true|intros pm _].
  eapply ends_bind; [apply gives_true|intros deviceInfo0 _].
  eapply ends_bind; [apply gives_true|intros machineId _].
  eapply ends_bind; [apply gives_true|intros [] _].
  eapply ends_bind; [apply gives_true|intros tm _].
  eapply ends_bind;
    [apply gives_mapM_M; intros x; apply queryConfigItem_gives
    |intros queries Hqueries].
  eapply ends_bind; [apply gives_settle|intros results Hresults].
  assert (results !! index = Some (JArr items)) as Hresult.
  { eapply Forall2_lookup_l in Hqueries as (q & Hq & Hpath); [|exact Hci].
    apply Hread in Hpath as (path & -> & Hpath).
    eapply Forall2_lookup_l in Hresults as (v & Hv & Hread'); [|exact Hq].
    simpl in Hread'. congruence. }
  eapply ends_bind.
  { apply (gives_foldM_M_once _
             (λ acc : props * list (string * reference), Recorded acc.2)
             (index, JArr items)).
    - by apply lookup_zip_seq.
    - intros acc. apply fileResult_records.
    - intros acc y Hacc. eapply gives_weaken; [apply fileResult_grows|].
      intros acc' Hsub. by eapply Recorded_grows. }
  intros [currentConfig0 referenceInfo]
    (path & info & Hin & Hfoo & Hname & Hsc & _). simpl in Hin.
  eapply ends_bind; [apply gives_settle|intros referencesResults Hrefs'].
  eapply ends_bind;
    [apply (gives_lift _ (λ cc, foldM spliceReference currentConfig0
                                  (zip referenceInfo.*2 referencesResults)
                                = Ok cc)); auto|].
  intros currentConfig1 Hsplice.
  eapply ends_weaken; [apply commit_ends|]. intros w' ->.
  apply Forall2_fmap_l in Hrefs'. simpl in Hrefs'.
  destruct (zip_recorded (λ p v, bigIp_list p = Ok v) referenceInfo
              referencesResults Hrefs') as [Hzip1 Hzip2].
  destruct (Hzip1 _ _ Hin) as (v & Hv & Hzip).
  destruct (splice_last S (to_key (get_prop item "name")) foo _ _ _ Hsplice)
    as (info' & result' & cleaned & Hin' & Hkey' & Hclean & Hget).
  { apply Exists_exists. exists (info, v). split; [done|]. simpl.
    unfold reference_key. by rewrite Hfoo, Hname, Hsc, HS. }
  destruct (Hzip2 _ _ Hin') as (path' & _ & Hpath').
  by exists path', info', result', cleaned.
Qed.

End recorded.

End manager_values.

(** ** What [get] promises *)

Section manager_claims.
Import ConfigManager.
Variable configItems : list json.
Variable bigIp_list : string → result json.
Variable bigIp_deviceInfo : result json.
Variable first_rejected : list exn → exn.
Variable regex_test : json → json → bool.
Variable url_parse : string → string * string.
Variable querystring_parse : string → alist string.
Variable querystring_stringify : alist string → string.
Variable RADIUS_SERVER_PREFIX RADIUS_PRIMARY_SERVER RADIUS_SECONDARY_SERVER
  : string.

Local Abbreviation Get :=
  (get configItems bigIp_list bigIp_deviceInfo first_rejected regex_test
       url_parse querystring_parse querystring_stringify RADIUS_SERVER_PREFIX
       RADIUS_PRIMARY_SERVER RADIUS_SECONDARY_SERVER).


(** C10. When the reads up to the list of cluster devices go well and the
    devices with the host name of the device are not exactly one, [get]
    is rejected with the error [Too many devices match our name], and
    neither the task state nor the kept original configs change. *)
Theorem get_rejects_unless_one_device (declaration : json) (w : world)
    (dbVars modules devices : list json)
    (provisioning info machineId cmDeviceInfo : json) :
  dbVarsOfInterest declaration (task w) = Ok dbVars →
  bigIp_list "/tm/sys/provision" = Ok provisioning →
  provisionedModulesOf provisioning = Ok modules →
  bigIp_deviceInfo = Ok info →
  read_prop info "machineId" = Ok machineId →
  bigIp_list "/tm/cm/device" = Ok cmDeviceInfo →
  matchingDevices (get_prop info "hostname") cmDeviceInfo = Ok devices →
  length devices ≠ 1 →
  (Get declaration w).1
  = Failed (Raised (Error "Too many devices match our name"))
  ∧ task (Get declaration w).2 = task w
  ∧ doState (Get declaration w).2 = doState w.
Proof.
  intros Hdb Hprov Hmod Hinfo Hid Hcm Hmatch Hlen.
  apply read_prop_Ok in Hid as Hnull. destruct Hnull as [_ Hnull].
  assert (∃ w', Get declaration w
                = (Failed (Raised (Error "Too many devices match our name")),
                   w')
                ∧ task w' = task w ∧ doState w' = doState w)
    as (w' & -> & ? & ?); [|done].
  eexists. split.
  unfold get. rewrite bind_run. simpl. rewrite bind_run. rewrite Hdb. simpl.
  rewrite bind_run. unfold list_ at 1. rewrite Hprov. simpl.
  rewrite bind_run. rewrite Hmod. simpl.
  rewrite bind_run. unfold deviceInfo. rewrite Hinfo. simpl.
  rewrite bind_run. rewrite Hid. simpl.
  rewrite bind_run. simpl. rewrite bind_run.
  unfold getTokenMap. rewrite bind_run.
  rewrite (read_prop_defined info "hostname") by done. simpl.
  rewrite bind_run. unfold list_. rewrite Hcm. simpl.
  rewrite bind_run. rewrite Hmatch. simpl.
  destruct devices as [|device [|]]; simpl in *; [reflexivity|done|].
  all: try reflexivity; try done.
Qed.

Lemma aget_adel_None (o : props) key k' :
  aget o key = None → aget (adel o k') key = None.
Proof.
  intros H. destruct (decide (key = k')) as [->|Hne].
  - apply (aget_adel_eq (V:=json)).
  - by rewrite (aget_adel_ne (V:=json)).
Qed.

Lemma fold_delete_reference (keysToRemove : list string) key keys :
  ends_with "Reference" key = true →
  ∀ acc : props,
    key ∈ keys ∨ aget acc key = None →
    aget (fold_left (λ filtered k,
            let filtered := if ends_with "Reference" k
                            then obj_delete filtered k else filtered in
            if bool_decide (k ∈ keysToRemove)
            then obj_delete filtered k else filtered) keys acc) key = None.
Proof.
  intros Hkey. induction keys as [|k' keys IH]; intros acc Hacc; simpl.
  { destruct Hacc as [?%elem_of_nil|?]; done. }
  apply IH. unfold obj_delete. destruct (decide (k' = key)) as [->|Hne].
  - right. rewrite Hkey. destruct (bool_decide _);
      [apply aget_adel_None|]; apply (aget_adel_eq (V:=json)).
  - destruct Hacc as [[?|?]%elem_of_cons|Hacc]; [done|by left|right].
    destruct (ends_with _ k'), (bool_decide _);
      repeat apply aget_adel_None; done.
Qed.

Lemma removeUnusedKeys_no_reference item nameless key :
  ends_with "Reference" key = true →
  obj_get (removeUnusedKeys item nameless) key = None.
Proof.
  intros Hkey. unfold removeUnusedKeys. cbv zeta.
  apply fold_delete_reference; [done|].
  destruct (aget (object_assign [] item) key) eqn:Hget; [left|by right].
  by eapply aget_Some_key.
Qed.

Lemma trimReference_ends property foo :
  trimReference property = Ok foo → ends_with "Reference" property = true.
Proof.
  unfold trimReference. cbv zeta.
  destruct (ends_with "Reference" property); [done|]. simpl. done.
Qed.


End manager_claims.

(** ** The example device *)

Section manager_examples.
Import ConfigManager.


Lemma get_rejects_unless_one_device_witness :
  (example_get example_configItems
     (example_device two_devices (Ok interfaces_of_external) (JStr "hello"))
     db_declaration fresh_world).1
  = Failed (Raised (Error "Too many devices match our name"))
  ∧ task (example_get example_configItems
            (example_device two_devices (Ok interfaces_of_external)
                            (JStr "hello"))
            db_declaration fresh_world).2
    = task fresh_world
  ∧ doState (example_get example_configItems
               (example_device two_devices (Ok interfaces_of_external)
                               (JStr "hello"))
               db_declaration fresh_world).2
    = doState fresh_world.
Proof.
  apply (get_rejects_unless_one_device example_configItems
           (example_device two_devices (Ok interfaces_of_external)
                           (JStr "hello"))
           example_deviceInfo (hd (Error "")) example_regex_test
           example_url_parse example_querystring_parse
           example_querystring_stringify
           "system_auth_name" "system_auth_name1" "system_auth_name2"
           db_declaration fresh_world
           [JStr "ui.advisory.text"] [JStr "ltm"]
           [JObj [("name", JStr "bigip1");
                  ("hostname", JStr "bigip.example.com")];
            JObj [("name", JStr "bigip2");
                  ("hostname", JStr "bigip.example.com")]]
           (JArr [JObj [("name", JStr "ltm"); ("level", JStr "nominal")]])
           (JObj [("machineId", JStr "m-1");
                  ("hostname", JStr "bigip.example.com")])
           (JStr "m-1") two_devices); [reflexivity..|].
  simpl. lia.
Defined.




End manager_examples.

Lemma filter_ext_in {A} (P Q : A → Prop) `{∀ x, Decision (P x)}
    `{∀ x, Decision (Q x)} (l : list A) :
  (∀ x, x ∈ l → P x ↔ Q x) → filter P l = filter Q l.
Proof.
  induction l as [|x l IH]; intros Hl; [done|].
  rewrite !filter_cons.
  rewrite IH by (intros; apply Hl; by right).
  destruct (decide (P x)) as [HP|HP], (decide (Q x)) as [HQ|HQ]; try done.
  - apply Hl in HP; [done|left].
  - apply Hl in HQ; [done|left].
Qed.

Lemma filter_all {A} (P : A → Prop) `{∀ x, Decision (P x)} (l : list A) :
  (∀ x, x ∈ l → P x) → filter P l = l.
Proof.
  induction l as [|x l IH]; intros Hl; [done|].
  rewrite filter_cons, decide_True by (apply Hl; left).
  f_equal. apply IH. intros. apply Hl. by right.
Qed.

Section cleaning.
Import ConfigManager.

Lemma fold_delete_filter (P : string → bool) (keys : list string) :
  ∀ o : props,
    fold_left (λ filtered key,
                 if P key then obj_delete filtered key else filtered) keys o
    = filter (λ kv, ¬ (P kv.1 = true ∧ kv.1 ∈ keys)) o.
Proof.
  induction keys as [|key keys IH]; intros o; simpl.
  - symmetry. apply filter_all. intros kv _ [_ ?%elem_of_nil]. done.
  - rewrite IH. destruct (P key) eqn:HP.
    + unfold obj_delete, adel. rewrite list_filter_filter.
      apply list_filter_iff. intros [k v]. simpl. split.
      * intros [Hk Hne] [HPk [->|Hin]%elem_of_cons]; [done|]. by apply Hk.
      * intros Hk. split.
        -- intros [? ?]. apply Hk. split; [done|by right].
        -- intros ->. apply Hk. split; [done|by left].
    + apply list_filter_iff. intros [k v]. simpl. split.
      * intros Hk [HPk [->|Hin]%elem_of_cons]; [congruence|]. by apply Hk.
      * intros Hk [? ?]. apply Hk. split; [done|by right].
Qed.

Lemma removeUnusedKeys_unused item nameless :
  removeUnusedKeys item nameless
  = filter (λ kv, unused nameless kv.1 = false) (object_assign [] item).
Proof.
  unfold removeUnusedKeys. cbv zeta.
  set (keysToRemove := ["kind"; "selfLink"] ++ _).
  set (filtered := object_assign [] item).
  transitivity
    (fold_left (λ f key, if unused nameless key then obj_delete f key else f)
               (obj_keys filtered) filtered).
  - generalize (obj_keys filtered). intros keys. generalize filtered.
    induction keys as [|key keys IH]; intros o; [done|]. simpl.
    rewrite <-IH. f_equal. unfold unused. fold keysToRemove.
    destruct (ends_with "Reference" key); simpl;
      destruct (bool_decide (key ∈ keysToRemove)); try done.
    unfold obj_delete, adel. rewrite list_filter_filter.
    apply list_filter_iff. tauto.
  - rewrite fold_delete_filter. apply filter_ext_in.
    intros [k v] Hin. simpl. split.
    + intros H. destruct (unused nameless k) eqn:Hu; [|done].
      exfalso. apply H. split; [done|].
      unfold obj_keys. apply list_elem_of_fmap. by exists (k, v).
    + intros Hu [? _]. congruence.
Qed.

Lemma aget_filter_key {V} (P : string → Prop) `{∀ k, Decision (P k)}
    (o : alist V) key :
  aget (filter (λ kv, P kv.1) o) key = if decide (P key) then aget o key else None.
Proof.
  induction o as [|[k v] o IH]; simpl; [by destruct (decide _)|].
  rewrite filter_cons. simpl. destruct (decide (P k)) as [Hk|Hk]; simpl.
  - destruct (decide (k = key)) as [->|Hne]; [by rewrite decide_True|done].
  - rewrite IH. destruct (decide (k = key)) as [->|Hne]; [|done].
    by destruct (decide (P key)).
Qed.

Lemma aset_nodup {V} (o : alist V) key v : NoDup o.*1 → NoDup (aset o key v).*1.
Proof.
  intros Hnd. destruct (aget o key) as [x|] eqn:Hx.
  - rewrite aset_keys; [done|eauto].
  - rewrite aset_keys_new by done. apply NoDup_app. split_and!; [done| |].
    + intros k Hk ->%list_elem_of_singleton. by apply aget_None in Hx.
    + apply NoDup_singleton.
Qed.

Lemma object_assign_nodup (target : props) source :
  NoDup target.*1 → NoDup (object_assign target source).*1.
Proof.
  unfold object_assign. generalize (own_props source). intros l. revert target.
  induction l as [|[k v] l IH]; intros target Hnd; simpl; [done|].
  apply IH. by apply aset_nodup.
Qed.

(** X1. [removeUnusedKeys] copies the own properties of the item in their
    order and leaves out exactly the keys that end in [Reference], [kind],
    [selfLink] and, for a nameless descriptor, [name]. *)
Theorem removeUnusedKeys_keeps_the_rest item nameless :
  sublist (removeUnusedKeys item nameless) (object_assign [] item)
  ∧ ∀ key,
      obj_get (removeUnusedKeys item nameless) key
      = if unused nameless key then None
        else obj_get (object_assign [] item) key.
Proof.
  rewrite removeUnusedKeys_unused. split; [apply sublist_filter|].
  intros key. unfold obj_get.
  pose proof (aget_filter_key (λ k, unused nameless k = false)
                (object_assign [] item) key) as Hget.
  simpl in Hget. rewrite Hget.
  destruct (unused nameless key); [by rewrite decide_False|].
  by rewrite decide_True.
Qed.

(** X2. Cleaning an item that is already clean changes nothing. *)
Theorem removeUnusedKeys_idempotent item nameless :
  removeUnusedKeys (JObj (removeUnusedKeys item nameless)) nameless
  = removeUnusedKeys item nameless.
Proof.
  rewrite !removeUnusedKeys_unused.
  rewrite object_assign_fresh.
  - rewrite list_filter_filter. apply list_filter_iff. tauto.
  - eapply sublist_NoDup; [|apply fmap_sublist, sublist_filter].
    apply object_assign_nodup, NoDup_nil_2.
Qed.

End cleaning.

Section selecting.
Import ConfigManager.

Lemma includes_app_r l x : is_object_type x = false → includes (l ++ [x]) x = true.
Proof.
  intros Hx. unfold includes. rewrite existsb_app. simpl.
  assert (strict_eqb x x = true) as ->; [|by rewrite orb_true_r].
  destruct x; simpl in *; try done; by apply bool_decide_eq_true.
Qed.

(** X3. The properties asked of the device always include [name], after the
    ids of the descriptor in their order; a descriptor without properties
    asks for [name] alone. *)
Theorem getPropertiesOfInterest_selects_name initialProperties names :
  getPropertiesOfInterest initialProperties = Ok names →
  includes names (JStr "name") = true
  ∧ (truthy initialProperties = false → names = [JStr "name"])
  ∧ ∃ properties,
      (if truthy initialProperties then array_elements initialProperties
       else Ok []) = Ok properties
      ∧ take (length properties) names
        = (λ curr, get_prop curr "id") <$> properties.
Proof.
  unfold getPropertiesOfInterest.
  intros (properties & Hprops & (ids & Hids & [= <-])%bind_Ok)%bind_Ok.
  assert (ids = (λ curr, get_prop curr "id") <$> properties) as Hmap.
  { clear Hprops. revert ids Hids.
    induction properties as [|p ps IH]; intros ids; simpl; [by intros [= <-]|].
    intros (x & [-> _]%read_prop_Ok & (xs & Hxs & [= <-])%bind_Ok)%bind_Ok.
    f_equal. by apply IH. }
  split_and!.
  - destruct (includes ids (JStr "name")) eqn:Hin; [done|].
    by apply includes_app_r.
  - intros Hfalsy. rewrite Hfalsy in Hprops. injection Hprops as <-.
    simpl in Hids. by injection Hids as <-.
  - exists properties. split; [done|].
    assert (length ids = length properties) as Hlen
      by (by rewrite Hmap, length_fmap).
    destruct (includes ids (JStr "name")).
    + by rewrite <-Hlen, firstn_all.
    + by rewrite <-Hlen, take_app_length.
Qed.

End selecting.

Section mapping.
Import ConfigManager.

Lemma set_nested_obj o parts v r :
  set_nested (JObj o) parts v = Ok r → ∃ o', r = JObj o'.
Proof.
  destruct parts as [|cur [|next parts]]; simpl.
  - intros [= <-]. eauto.
  - intros [= <-]. eauto.
  - intros (child' & _ & [= <-])%bind_Ok. eauto.
Qed.

Lemma set_nested_cons acc cur next parts v :
  set_nested acc (cur :: next :: parts) v
  = if is_nullish acc then Throw (TypeError "Cannot read property of null")
    else
      child' ← set_nested (if truthy (get_prop acc cur) then get_prop acc cur
                           else JObj []) (next :: parts) v;
      set_prop acc cur child'.
Proof. done. Qed.

Lemma set_nested_path parts : ∀ acc v r,
  parts ≠ [] → set_nested acc parts v = Ok r → get_path r parts = v.
Proof.
  induction parts as [|cur parts IH]; intros acc v r Hne; [done|].
  destruct parts as [|next parts].
  - simpl. apply set_prop_get_eq.
  - rewrite set_nested_cons. destruct (is_nullish acc); [done|].
    intros (child' & Hchild & Hset)%bind_Ok.
    change (get_path r (cur :: next :: parts))
      with (get_path (get_prop r cur) (next :: parts)).
    rewrite (set_prop_get_eq _ _ _ _ Hset). by eapply (IH _ v).
Qed.

Lemma split_nonempty sep s : split sep s ≠ [].
Proof.
  unfold split. destruct (String.length s); simpl; [done|].
  by destruct (after_first sep s).
Qed.


Lemma match_default {A} (a : json) (X Y : A) :
  match a with JArr [JStr "default"] => X | _ => Y end
  = if match a with
       | JArr [JStr s] => String.eqb s "default"
       | _ => false
       end then X else Y.
Proof.
  destruct a as [| | | | |[|x [|y l]]|]; try done;
    destruct x as [| | | |s| |]; try done.
  all: do 7 (destruct s as [|[[] [] [] [] [] [] [] []] s]; try reflexivity).
  all: by destruct s.
Qed.

Lemma patchSelfIp_cases selfIp :
  let patched := object_assign [] selfIp in
  let allowService := default JUndef (obj_get patched "allowService") in
  (truthy allowService = false
   ∧ patchSelfIp selfIp = JObj (obj_set patched "allowService" (JStr "none")))
  ∨ (allowService = JArr [JStr "default"]
     ∧ patchSelfIp selfIp
       = JObj (obj_set patched "allowService" (JStr "default")))
  ∨ (truthy allowService = true ∧ allowService ≠ JArr [JStr "default"]
     ∧ patchSelfIp selfIp = JObj patched).
Proof.
  intros patched allowService. unfold patchSelfIp.
  fold patched. fold allowService.
  destruct (truthy allowService) eqn:Ht; simpl negb; cbv iota; [|by left].
  right. rewrite match_default.
  destruct allowService as [| | | | |[|x [|y l]]|]; try (by right);
    [|destruct x; by right].
  destruct x as [| | | |s| |]; try (by right).
  destruct (String.eqb s "default") eqn:Hs.
  - apply String.eqb_eq in Hs as ->. by left.
  - apply String.eqb_neq in Hs. right. split_and!; [done| |done]. congruence.
Qed.

(** X5. Patching a self IP twice is patching it once. *)
Theorem patchSelfIp_idempotent selfIp :
  patchSelfIp (patchSelfIp selfIp) = patchSelfIp selfIp.
Proof.
  assert (NoDup (object_assign [] selfIp).*1) as Hnd
    by apply object_assign_nodup, NoDup_nil_2.
  destruct (patchSelfIp_cases selfIp) as [[Ht ->]|[[Ha ->]|(Ht & Hne & ->)]].
  - destruct (patchSelfIp_cases
                (JObj (obj_set (object_assign [] selfIp) "allowService"
                               (JStr "none"))))
      as [[Ht' _]|[[Ha' _]|(_ & _ & ->)]].
    + rewrite object_assign_fresh in Ht' by (by apply aset_nodup).
      unfold obj_get, obj_set in Ht'.
      by rewrite (aget_aset_eq (V:=json)) in Ht'.
    + rewrite object_assign_fresh in Ha' by (by apply aset_nodup).
      unfold obj_get, obj_set in Ha'.
      by rewrite (aget_aset_eq (V:=json)) in Ha'.
    + by rewrite object_assign_fresh by (by apply aset_nodup).
  - destruct (patchSelfIp_cases
                (JObj (obj_set (object_assign [] selfIp) "allowService"
                               (JStr "default"))))
      as [[Ht' _]|[[Ha' _]|(_ & _ & ->)]].
    + rewrite object_assign_fresh in Ht' by (by apply aset_nodup).
      unfold obj_get, obj_set in Ht'.
      by rewrite (aget_aset_eq (V:=json)) in Ht'.
    + rewrite object_assign_fresh in Ha' by (by apply aset_nodup).
      unfold obj_get, obj_set in Ha'.
      by rewrite (aget_aset_eq (V:=json)) in Ha'.
    + by rewrite object_assign_fresh by (by apply aset_nodup).
  - destruct (patchSelfIp_cases (JObj (object_assign [] selfIp)))
      as [[Ht' _]|[[Ha' _]|(_ & _ & ->)]].
    + rewrite object_assign_fresh in Ht' by done. congruence.
    + rewrite object_assign_fresh in Ha' by done. congruence.
    + by rewrite object_assign_fresh.
Qed.

(** X6. A patched self IP always has an [allowService] that is neither
    missing nor the array [["default"]]; its other properties are those
    of the self IP. *)
Theorem patchSelfIp_allowService selfIp :
  truthy (get_prop (patchSelfIp selfIp) "allowService") = true
  ∧ get_prop (patchSelfIp selfIp) "allowService" ≠ JArr [JStr "default"]
  ∧ ∀ key, key ≠ "allowService" →
      get_prop (patchSelfIp selfIp) key
      = default JUndef (obj_get (object_assign [] selfIp) key).
Proof.
  destruct (patchSelfIp_cases selfIp) as [[Ht ->]|[[Ha ->]|(Ht & Hne & ->)]];
    cbn [get_prop]; unfold obj_get, obj_set;
    rewrite ?(aget_aset_eq (V:=json)); split_and!; try done;
    intros key Hkey; by rewrite (aget_aset_ne (V:=json)).
Qed.

End mapping.

Section merging.
Import ConfigManager.
Variable regex_test : json → json → bool.

Lemma merge_at_replace pathProps : ∀ acc key value r,
  merge_at acc pathProps key value false = Ok r →
  get_path r ((to_key <$> pathProps) ++ [to_key key]) = value.
Proof.
  induction pathProps as [|curr pathProps IH]; intros acc key value r; simpl.
  - destruct (is_nullish acc); [done|]. apply set_prop_get_eq.
  - intros (child & _ & (child' & Hchild & Hset)%bind_Ok)%bind_Ok.
    rewrite (set_prop_get_eq _ _ _ _ Hset). by eapply IH.
Qed.

(** X7. [mapSchemaMerge] with the default action stores the value at
    [opts.path] below the object it returns; with [skipWhenOmitted] a
    missing or empty value leaves the object as it is. *)
Theorem mapSchemaMerge_stores_at_path obj value opts (path : list json) r :
  mapSchemaMerge obj value opts = Ok r →
  get_prop opts "path" = JArr path → path ≠ [] →
  strict_eqb (get_prop opts "action") (JStr "add") = false →
  (truthy (get_prop opts "skipWhenOmitted") = true →
   is_undef value || bool_decide (obj_keys (own_props value) = []) = true →
   r = obj)
  ∧ (truthy (get_prop opts "skipWhenOmitted") = false
     ∨ is_undef value || bool_decide (obj_keys (own_props value) = []) = false →
     get_path r (to_key <$> path) = value).
Proof.
  unfold mapSchemaMerge. intros H Hpath Hne Haction.
  apply bind_Ok in H as (isOmitted & Homitted & H).
  apply bind_Ok in H as (skip & [-> _]%read_prop_Ok & H).
  assert (isOmitted
          = is_undef value || bool_decide (obj_keys (own_props value) = []))
    as ->.
  { destruct (is_undef value) eqn:Hu; [by injection Homitted as <-|].
    apply bind_Ok in Homitted as (keys & [-> _]%object_keys_Ok & [= <-]).
    simpl. apply bool_decide_ext. split; [by intros ?%nil_length_inv|].
    by intros ->. }
  split.
  - intros Hs Ho. rewrite Hs, Ho in H. simpl in H. by injection H as <-.
  - intros Hcase.
    assert (truthy (get_prop opts "skipWhenOmitted")
            && (is_undef value
                || bool_decide (obj_keys (own_props value) = [])) = false)
      as Hskip.
    { destruct Hcase as [->| ->]; [done|apply andb_false_r]. }
    rewrite Hskip in H.
    apply bind_Ok in H as (p & [-> _]%read_prop_Ok & H). rewrite Hpath in H.
    cbn [mbind result_bind] in H.
    apply bind_Ok in H as (action & [-> _]%read_prop_Ok & H).
    rewrite Haction in H. apply merge_at_replace in H.
    rewrite <-H. rewrite (app_removelast_last JUndef Hne) at 1.
    by rewrite fmap_app.
Qed.

Lemma ignoreInfo_Ok item ignoreInfo b :
  (keys ← object_keys ignoreInfo;
   let property := default JUndef (JStr <$> head keys) in
   let pattern := get_prop ignoreInfo (to_key property) in
   v ← read_prop item (to_key property);
   Ok (truthy v && regex_test pattern v)) = Ok b →
  b = ignores regex_test item ignoreInfo.
Proof.
  intros (keys & [-> _]%object_keys_Ok & H)%bind_Ok. cbv zeta in H.
  apply bind_Ok in H as (v & [-> _]%read_prop_Ok & [= <-]). done.
Qed.

(** X8. An item is ignored exactly when some entry of the ignore list matches
    it: the property named by the first key of the entry is truthy in the
    item and matches the pattern of the entry.  Without an ignore list
    nothing is ignored. *)
Theorem shouldIgnore_some_entry_matches item ignoreList b :
  shouldIgnore regex_test item ignoreList = Ok b →
  b = true ↔ ∃ infos info, ignoreList = JArr infos ∧ info ∈ infos
                           ∧ ignores regex_test item info = true.
Proof.
  unfold shouldIgnore. destruct (truthy ignoreList) eqn:Ht; simpl.
  2:{ intros [= <-]. split; [done|]. intros (infos & _ & -> & _). done. }
  destruct ignoreList as [| | | | |infos|]; try done. simpl.
  intros H.
  assert (b = true ↔ ∃ info, info ∈ infos
                             ∧ ignores regex_test item info = true) as ->.
  2:{ split; [intros (info & ? & ?); by exists infos, info|].
      intros (? & info & [= <-] & ? & ?). by exists info. }
  clear Ht. revert H. induction infos as [|info infos IH]; simpl.
  - intros [= <-]. split; [done|]. by intros (? & ?%elem_of_nil & _).
  - intros (b0 & Hb0%ignoreInfo_Ok & H)%bind_Ok. destruct b0.
    + injection H as <-. split; [|done]. intros _. exists info.
      split; [left|done].
    + rewrite (IH H). split.
      * intros (info' & ? & ?). exists info'. split; [by right|done].
      * intros (info' & [->|?]%elem_of_cons & ?); [congruence|].
        by exists info'.
Qed.

End merging.

Lemma falsy_no_keys v : truthy v = false → obj_keys (own_props v) = [].
Proof. by destruct v as [| | | |[|]| |]. Qed.

Section db_variables.
Import ConfigManager.

Lemma dbVars_grow (declCommon : json) keys : ∀ acc acc',
  foldM (λ acc key,
           cls ← read_prop (get_prop declCommon key) "class";
           if strict_eqb cls (JStr "DbVariables") then
             dbVars ← object_keys (get_prop declCommon key);
             Ok (acc ++ dbVars)
           else Ok acc) acc keys = Ok acc' →
  (∀ x, x ∈ acc → x ∈ acc')
  ∧ ∀ key dbVar,
      key ∈ keys →
      strict_eqb (get_path declCommon [key; "class"]) (JStr "DbVariables")
      = true →
      dbVar ∈ obj_keys (own_props (get_prop declCommon key)) →
      dbVar ∈ acc'.
Proof.
  induction keys as [|key keys IH]; intros acc acc'; simpl.
  - intros [= <-]. split; [done|]. by intros ? ? ?%elem_of_nil.
  - intros (acc1 & Hstep & H)%bind_Ok.
    apply IH in H as [Hgrow Hin].
    apply bind_Ok in Hstep as (cls & [-> _]%read_prop_Ok & Hstep).
    destruct (strict_eqb _ _) eqn:Hcls.
    + apply bind_Ok in Hstep as (dbVars & [-> _]%object_keys_Ok & [= <-]).
      split.
      * intros x Hx. apply Hgrow, elem_of_app. by left.
      * intros key' dbVar [->|Hkey]%elem_of_cons Hclass Hvar; [|eauto].
        apply Hgrow, elem_of_app. by right.
    + injection Hstep as <-. split; [done|].
      intros key' dbVar [->|Hkey]%elem_of_cons Hclass Hvar; [|eauto].
      simpl in Hclass. congruence.
Qed.

(** X9. The db variables of interest are those of the current config and
    those of every [DbVariables] object of the declaration, without
    [class]. *)
Theorem dbVarsOfInterest_covers declaration st vars :
  dbVarsOfInterest declaration st = Ok vars →
  (JStr "class" ∉ vars)
  ∧ (∀ dbVar,
       dbVar ∈ obj_keys (own_props
                  (get_path (currentConfig st) ["Common"; "DbVariables"])) →
       dbVar ≠ "class" → JStr dbVar ∈ vars)
  ∧ (∀ key dbVar,
       key ∈ obj_keys (own_props (get_prop declaration "Common")) →
       strict_eqb (get_path declaration ["Common"; key; "class"])
                  (JStr "DbVariables") = true →
       dbVar ∈ obj_keys (own_props (get_path declaration ["Common"; key])) →
       dbVar ≠ "class" → JStr dbVar ∈ vars).
Proof.
  unfold dbVarsOfInterest. cbv zeta.
  intros (dbVariables & Hdb & H)%bind_Ok.
  apply bind_Ok in H as (fromCurrent & Hcur & H).
  apply bind_Ok in H as (declCommon & [-> _]%read_prop_Ok & H).
  apply bind_Ok in H as (fromDeclaration & Hdecl & [= <-]).
  split_and!.
  - intros [x [[= <-] [? _]%list_elem_of_filter]]%list_elem_of_fmap. done.
  - intros dbVar Hin Hne. apply list_elem_of_fmap. exists dbVar.
    split; [done|]. apply list_elem_of_filter. split; [done|].
    apply elem_of_app. left. simpl in Hin.
    destruct (truthy (currentConfig st)) eqn:Hcc.
    + destruct (truthy (get_prop (currentConfig st) "Common")) eqn:Hcommon.
      * apply read_prop_Ok in Hdb as [-> _].
        destruct (truthy (get_prop _ "DbVariables")) eqn:Hv.
        -- by apply object_keys_Ok in Hcur as [-> _].
        -- rewrite falsy_no_keys in Hin by done. by apply elem_of_nil in Hin.
      * rewrite (falsy_no_keys (get_prop (get_prop _ _) _)) in Hin;
          [by apply elem_of_nil in Hin|].
        by destruct (get_prop (currentConfig st) "Common") as [| | | |[]| |].
    + rewrite (falsy_no_keys (get_prop (get_prop _ _) _)) in Hin;
        [by apply elem_of_nil in Hin|].
      by destruct (currentConfig st) as [| | | |[]| |].
  - intros key dbVar Hkey Hclass Hvar Hne. apply list_elem_of_fmap.
    exists dbVar. split; [done|]. apply list_elem_of_filter. split; [done|].
    apply elem_of_app. right.
    destruct (truthy (get_prop declaration "Common")) eqn:Hcommon.
    + apply bind_Ok in Hdecl as (keys & [-> _]%object_keys_Ok & Hdecl).
      apply dbVars_grow in Hdecl as [_ Hin]. by eapply Hin.
    + rewrite falsy_no_keys in Hkey by done. by apply elem_of_nil in Hkey.
Qed.

End db_variables.

Section manager_commit.
Import ConfigManager.

Lemma commit_unfold cc :
  commit cc
  = (let current := JObj [("parsed", JBool true); ("Common", JObj cc)] in
     set_currentConfig current;;
     id ← get_configId;
     st ← get_state;
     stored ← getOriginalConfigByConfigId id;
     (if truthy (originalConfig st) && negb (truthy stored)
      then setOriginalConfigByConfigId id (originalConfig st) else mret ());;
     stored ← getOriginalConfigByConfigId id;
     originalConfig ←
       lift (fillDbVariables cc (if truthy stored then stored else current));
     setOriginalConfigByConfigId id originalConfig;;
     set_originalConfig originalConfig).
Proof. done. Qed.

Lemma commit_Done cc w w' :
  commit cc w = (Done (), w') →
  let current := JObj [("parsed", JBool true); ("Common", JObj cc)] in
  ∃ filled,
    fillDbVariables cc (snapshot_base w current) = Ok filled
    ∧ w' = World (configId w) (State current filled)
                 (<[to_key (configId w) := filled]> (doState w)) (reads w).
Proof.
  intros H current. rewrite commit_unfold in H. cbv zeta in H.
  fold current in H.
  do 4 (rewrite bind_run in H;
        cbn [set_currentConfig get_configId get_state
             getOriginalConfigByConfigId configId task doState reads
             originalConfig currentConfig] in H).
  rewrite bind_run in H. unfold snapshot_base. cbv zeta.
  set (stored := default JUndef (doState w !! to_key (configId w))) in *.
  destruct (truthy (originalConfig (task w)) && negb (truthy stored)) eqn:Hm.
  - apply andb_true_iff in Hm as [Ho _]. rewrite Ho.
    cbn [setOriginalConfigByConfigId configId task doState reads] in H.
    rewrite bind_run in H.
    cbn [getOriginalConfigByConfigId configId task doState reads] in H.
    rewrite lookup_insert_eq in H. cbn [default from_option] in H.
    unfold id in H. rewrite Ho in H.
    rewrite bind_run in H. unfold lift at 1 in H.
    destruct (fillDbVariables cc (originalConfig (task w))) as [filled|];
      [|done].
    rewrite bind_run in H. simpl in H. injection H as <-.
    exists filled. split; [done|]. by rewrite insert_insert_eq.
  - cbn [mret M_ret] in H. rewrite bind_run in H.
    cbn [getOriginalConfigByConfigId configId task doState reads] in H.
    fold stored in H.
    rewrite bind_run in H. unfold lift at 1 in H.
    destruct (fillDbVariables cc (if truthy stored then stored else current))
      as [filled|]; [|done].
    rewrite bind_run in H. simpl in H. injection H as <-.
    exists filled. done.
Qed.

End manager_commit.

Section manager_quiet.
Import ConfigManager.
Variable configItems : list json.
Variable bigIp_list : string → result json.
Variable bigIp_deviceInfo : result json.
Variable first_rejected : list exn → exn.
Variable regex_test : json → json → bool.
Variable url_parse : string → string * string.
Variable querystring_parse : string → alist string.
Variable querystring_stringify : alist string → string.
Variable RADIUS_SERVER_PREFIX RADIUS_PRIMARY_SERVER RADIUS_SECONDARY_SERVER
  : string.

Local Abbreviation Get :=
  (get configItems bigIp_list bigIp_deviceInfo first_rejected regex_test
       url_parse querystring_parse querystring_stringify RADIUS_SERVER_PREFIX
       RADIUS_PRIMARY_SERVER RADIUS_SECONDARY_SERVER).

Global Instance quiet_refl : Reflexive quiet.
Proof. by intros w. Qed.

Global Instance quiet_trans : Transitive quiet.
Proof.
  intros w1 w2 w3 (? & ? & ?) (? & ? & ?). unfold quiet. split_and!; congruence.
Qed.

Global Instance apart_refl : Reflexive apart.
Proof. by intros w. Qed.

Global Instance apart_trans : Transitive apart.
Proof.
  intros w1 w2 w3 [Hid Hd] [Hid' Hd']. split; [congruence|].
  intros id Hne. rewrite Hd', Hd; [done..|]. by rewrite Hid.
Qed.

Lemma quiet_apart w w' : quiet w w' → apart w w'.
Proof. intros (? & ? & Hd). split; [done|]. intros. by rewrite Hd. Qed.

Lemma moves_bind {A B} (R : relation world) `{!Transitive R}
    (m : M A) (k : A → M B) :
  moves R m → (∀ a, moves R (k a)) → moves R (m ≫= k).
Proof.
  intros Hm Hk w. rewrite bind_run. specialize (Hm w).
  destruct (m w) as [[a|f] w1]; simpl in *; [|done].
  etrans; [done|apply Hk].
Qed.

Lemma moves_ret {A} (R : relation world) `{!Reflexive R} (x : A) :
  moves R (mret x).
Proof. by intros w. Qed.

Lemma moves_lift {A} (R : relation world) `{!Reflexive R} (r : result A) :
  moves R (lift r).
Proof. by intros w. Qed.

Lemma moves_reject {A} (R : relation world) `{!Reflexive R} e :
  moves R (reject (A:=A) e).
Proof. by intros w. Qed.

Lemma moves_weaken {A} (R R' : relation world) (m : M A) :
  (∀ w w', R w w' → R' w w') → moves R m → moves R' m.
Proof. intros HR Hm w. apply HR, Hm. Qed.

Lemma moves_foldM_M {A S} (R : relation world) `{!PreOrder R}
    (f : S → A → M S) l :
  (∀ s x, moves R (f s x)) → ∀ s, moves R (foldM_M f s l).
Proof.
  intros Hf. induction l as [|x l IH]; intros s; simpl.
  - by apply moves_ret, _.
  - apply moves_bind; [apply _|apply Hf|apply IH].
Qed.

Lemma moves_mapM_M {A B} (R : relation world) `{!PreOrder R}
    (f : A → M B) l :
  (∀ x, moves R (f x)) → moves R (mapM_M f l).
Proof.
  intros Hf. induction l as [|x l IH]; simpl.
  - by apply moves_ret, _.
  - apply moves_bind; [apply _|apply Hf|]. intros y.
    apply moves_bind; [apply _|apply IH|]. intros ys. by apply moves_ret, _.
Qed.

Global Instance quiet_preorder : PreOrder quiet.
Proof. split; apply _. Qed.

Global Instance apart_preorder : PreOrder apart.
Proof. split; apply _. Qed.

Lemma quiet_list_ p : moves quiet (list_ bigIp_list p).
Proof. by intros w. Qed.

Lemma quiet_issue p : moves quiet (issue bigIp_list p).
Proof. by intros w. Qed.

Lemma quiet_deviceInfo : moves quiet (deviceInfo bigIp_deviceInfo).
Proof. by intros w. Qed.

Lemma quiet_settle paths :
  moves quiet (settle bigIp_list first_rejected paths).
Proof. intros w. unfold settle. by destruct (omap _ _). Qed.

(** One step of a computation that commits nothing. *)
Ltac qstep :=
  first
    [ apply moves_bind;
        [apply _
        |first [apply moves_lift, _ | apply quiet_issue | apply quiet_list_]
        |intros ?]
    | apply moves_ret, _
    | apply moves_reject, _
    | match goal with
      | |- moves _ (let '(_, _) := ?x in _) => destruct x
      | |- moves _ (if ?c then _ else _) => destruct c
      end ].

Lemma quiet_getTokenMap info : moves quiet (getTokenMap bigIp_list info).
Proof.
  unfold getTokenMap. do 3 qstep. destruct a1 as [|device [|]]; repeat qstep.
Qed.

Lemma quiet_queryConfigItem pm tm ci :
  moves quiet (queryConfigItem bigIp_list querystring_stringify pm tm ci).
Proof. unfold queryConfigItem. qstep. destruct a; repeat qstep. Qed.

Lemma quiet_getReferencedPaths item index ri :
  moves quiet
        (getReferencedPaths configItems bigIp_list url_parse querystring_parse
                            querystring_stringify item index ri).
Proof.
  unfold getReferencedPaths. qstep. apply moves_foldM_M; [apply _|].
  intros acc property. unfold referencedPath. cbv zeta. repeat qstep.
Qed.

Lemma quiet_fileItem dbVars index acc item :
  moves quiet
        (fileItem configItems bigIp_list regex_test url_parse
                  querystring_parse querystring_stringify
                  RADIUS_SERVER_PREFIX RADIUS_PRIMARY_SERVER
                  RADIUS_SECONDARY_SERVER dbVars index acc item).
Proof.
  unfold fileItem. destruct acc as [currentConfig referenceInfo].
  cbv zeta. repeat qstep.
  apply moves_bind; [apply _|apply quiet_getReferencedPaths|intros ?].
  qstep.
Qed.

Lemma quiet_fileResult dbVars acc indexed :
  moves quiet
        (fileResult configItems bigIp_list regex_test url_parse
                    querystring_parse querystring_stringify
                    RADIUS_SERVER_PREFIX RADIUS_PRIMARY_SERVER
                    RADIUS_SECONDARY_SERVER dbVars acc indexed).
Proof.
  unfold fileResult. destruct acc as [currentConfig referenceInfo].
  destruct indexed as [index currentItem]. cbv zeta.
  destruct (strict_eqb currentItem (JBool false)); [qstep|].
  qstep. destruct (negb (truthy _)); [by repeat qstep|].
  destruct currentItem as [| | | | |items|];
    try (by repeat qstep);
    try (repeat qstep;
         apply moves_bind; [apply _|apply quiet_getReferencedPaths|intros ?];
         by qstep).
  destruct (_ && _); [qstep|].
  apply moves_foldM_M; [apply _|]. intros. apply quiet_fileItem.
Qed.

Lemma quiet_Done {A} (m : M A) w a w1 :
  moves quiet m → m w = (Done a, w1) → quiet w w1.
Proof. intros Hm H. specialize (Hm w). by rewrite H in Hm. Qed.

(** The part of [get] that follows [this.configId = deviceInfo.machineId]. *)
Lemma get_unfold declaration :
  Get declaration
  = (st ← get_state;
     dbVars ← lift (dbVarsOfInterest declaration st);
     provisioning ← list_ bigIp_list "/tm/sys/provision";
     provisionedModules ← lift (provisionedModulesOf provisioning);
     info ← deviceInfo bigIp_deviceInfo;
     machineId ← lift (read_prop info "machineId");
     set_configId machineId;;
     tokenMap ← getTokenMap bigIp_list info;
     queries ← mapM_M (queryConfigItem bigIp_list querystring_stringify
                         provisionedModules tokenMap) configItems;
     results ← settle bigIp_list first_rejected queries;
     '(currentConfig, referenceInfo) ←
       foldM_M (fileResult configItems bigIp_list regex_test url_parse
                  querystring_parse querystring_stringify
                  RADIUS_SERVER_PREFIX RADIUS_PRIMARY_SERVER
                  RADIUS_SECONDARY_SERVER dbVars) ([], [])
               (zip (seq 0 (length results)) results);
     referencesResults ←
       settle bigIp_list first_rejected (Some <$> referenceInfo.*1);
     currentConfig ←
       lift (foldM spliceReference currentConfig
                   (zip referenceInfo.*2 referencesResults));
     commit currentConfig).
Proof. done. Qed.

(** A call of [get] that resolves has reached its last [then] with the
    machine id of the device as config id and nothing committed. *)
Lemma get_reaches_commit declaration w w' :
  Get declaration w = (Done (), w') →
  ∃ info cc w1,
    bigIp_deviceInfo = Ok info
    ∧ configId w1 = get_prop info "machineId"
    ∧ task w1 = task w ∧ doState w1 = doState w
    ∧ commit cc w1 = (Done (), w').
Proof.
  rewrite get_unfold. intros H.
  apply M_bind_Done in H as (st & w1 & [= <- <-] & H).
  apply M_bind_Done in H as (dbVars & w2 & H2 & H).
  apply (quiet_Done _ _ _ _ (moves_lift quiet _)) in H2 as (_ & Ht2 & Hd2).
  apply M_bind_Done in H as (provisioning & w3 & H3 & H).
  apply (quiet_Done _ _ _ _ (quiet_list_ _)) in H3 as (_ & Ht3 & Hd3).
  apply M_bind_Done in H as (modules & w4 & H4 & H).
  apply (quiet_Done _ _ _ _ (moves_lift quiet _)) in H4 as (_ & Ht4 & Hd4).
  apply M_bind_Done in H as (info & w5 & H5 & H).
  assert (bigIp_deviceInfo = Ok info) as Hinfo.
  { unfold deviceInfo in H5. destruct bigIp_deviceInfo; [|done].
    by injection H5 as <- _. }
  apply (quiet_Done _ _ _ _ quiet_deviceInfo) in H5 as (_ & Ht5 & Hd5).
  apply M_bind_Done in H as (machineId & w6 & H6 & H).
  assert (machineId = get_prop info "machineId") as ->.
  { unfold lift in H6. destruct (read_prop info "machineId") eqn:Hm; [|done].
    apply read_prop_Ok in Hm as [-> _]. by injection H6 as <- _. }
  apply (quiet_Done _ _ _ _ (moves_lift quiet _)) in H6 as (_ & Ht6 & Hd6).
  apply M_bind_Done in H as ([] & w7 & [= <-] & H).
  apply M_bind_Done in H as (tokenMap & w8 & H8 & H).
  apply (quiet_Done _ _ _ _ (quiet_getTokenMap _)) in H8 as (Hi8 & Ht8 & Hd8).
  apply M_bind_Done in H as (queries & w9 & H9 & H).
  apply (quiet_Done _ _ _ _
           (moves_mapM_M quiet _ _ (quiet_queryConfigItem _ _)))
    in H9 as (Hi9 & Ht9 & Hd9).
  apply M_bind_Done in H as (results & w10 & H10 & H).
  apply (quiet_Done _ _ _ _ (quiet_settle _)) in H10 as (Hi10 & Ht10 & Hd10).
  apply M_bind_Done in H as ([cc ri] & w11 & H11 & H).
  apply (quiet_Done _ _ _ _
           (moves_foldM_M quiet _ _ (quiet_fileResult _) _))
    in H11 as (Hi11 & Ht11 & Hd11).
  apply M_bind_Done in H as (refs & w12 & H12 & H).
  apply (quiet_Done _ _ _ _ (quiet_settle _)) in H12 as (Hi12 & Ht12 & Hd12).
  apply M_bind_Done in H as (cc' & w13 & H13 & H).
  apply (quiet_Done _ _ _ _ (moves_lift quiet _)) in H13 as (Hi13 & Ht13 & Hd13).
  exists info, cc', w13. simpl in *. split_and!; [done|..|done]; congruence.
Qed.

Lemma set_prop_truthy v key x v' : set_prop v key x = Ok v' → truthy v' = true.
Proof.
  destruct v; simpl; try done; [|by intros [= <-]].
  destruct (key_index _ _); [|done]. by intros [= <-].
Qed.

Lemma falsy_get_prop v key : truthy v = false → truthy (get_prop v key) = false.
Proof.
  destruct v as [| | | |[|]| |]; simpl; try done.
  by destruct (decide (key = "length")).
Qed.

(** Writing back the value that a key holds changes nothing. *)
Lemma set_prop_same v key v' :
  key ∈ obj_keys (own_props v) → set_prop v key (get_prop v key) = Ok v' →
  v' = v.
Proof.
  destruct v as [| | | | |l|o]; simpl; try done.
  - intros _. destruct (key_index (length l) key) as [i|] eqn:Hi; [|done].
    intros [= <-]. f_equal. apply key_index_Some in Hi as [Hi _].
    apply lookup_lt_is_Some in Hi as [x Hx]. rewrite Hx. simpl.
    by apply list_insert_id.
  - intros Hin%aget_is_Some [= <-]. destruct Hin as [x Hx]. f_equal.
    unfold obj_get, obj_set. rewrite Hx. by apply aset_same.
Qed.

Lemma snapshot_base_truthy w cc :
  truthy (snapshot_base w (JObj cc)) = true.
Proof.
  unfold snapshot_base. cbv zeta.
  match goal with |- truthy (if truthy ?kept then _ else _) = _ =>
    by destruct (truthy kept) eqn:Ht
  end.
Qed.

Lemma fill_truthy cc base filled :
  fillDbVariables cc base = Ok filled → truthy base = true →
  truthy filled = true.
Proof.
  unfold fillDbVariables. cbv zeta. destruct (truthy _); [|by intros [= <-]].
  intros (common & _ & (dbv & _ & (keys & _ & (dbv' & _ & (common' & _ & H)
    %bind_Ok)%bind_Ok)%bind_Ok)%bind_Ok)%bind_Ok _.
  by eapply set_prop_truthy.
Qed.

(** The fill-in loop run on the config it reads from changes nothing. *)
Lemma fill_loop_same v keys : ∀ v',
  (∀ key, key ∈ keys → key ∈ obj_keys (own_props v)) →
  foldM (λ dbVariables dbVar,
           if negb (truthy (get_prop dbVariables dbVar))
           then set_prop dbVariables dbVar (get_prop v dbVar)
           else Ok dbVariables) v keys = Ok v' →
  v' = v.
Proof.
  induction keys as [|key keys IH]; intros v' Hkeys; simpl.
  - by intros [= <-].
  - intros (v1 & Hstep & H)%bind_Ok.
    assert (v1 = v) as ->; [|apply IH; [|done]; intros; apply Hkeys; by right].
    destruct (negb (truthy (get_prop v key))); [|by injection Hstep].
    eapply set_prop_same; [|done]. apply Hkeys. left.
Qed.

Lemma fill_current cc filled :
  fillDbVariables cc (JObj [("parsed", JBool true); ("Common", JObj cc)])
  = Ok filled →
  filled = JObj [("parsed", JBool true); ("Common", JObj cc)].
Proof.
  unfold fillDbVariables. cbv zeta.
  destruct (obj_get cc "DbVariables") as [v|] eqn:Hv; simpl;
    [|by intros [= <-]].
  destruct (truthy v) eqn:Ht; [|by intros [= <-]].
  unfold obj_get in *. rewrite Hv. simpl. rewrite Ht.
  intros (keys & [-> _]%object_keys_Ok & (dbv' & Hloop & H)%bind_Ok)%bind_Ok.
  apply fill_loop_same in Hloop as ->; [|done].
  simpl in H. injection H as <-. unfold obj_set.
  by rewrite (aset_same cc "DbVariables" v Hv).
Qed.

(** What the fill-in loop keeps and what it fills. *)
Lemma fill_loop_entries (v : json) K keys : ∀ dbv dbv',
  foldM (λ dbVariables dbVar,
           if negb (truthy (get_prop dbVariables dbVar))
           then set_prop dbVariables dbVar (get_prop v dbVar)
           else Ok dbVariables) dbv keys = Ok dbv' →
  (truthy (get_prop dbv K) = true → get_prop dbv' K = get_prop dbv K)
  ∧ (K ∉ keys → get_prop dbv' K = get_prop dbv K)
  ∧ (truthy (get_prop dbv K) = false → K ∈ keys →
     get_prop dbv' K = get_prop v K).
Proof.
  induction keys as [|key keys IH]; intros dbv dbv'; simpl.
  - intros [= <-]. split_and!; [done..|]. by intros _ ?%elem_of_nil.
  - intros (dbv1 & Hstep & H)%bind_Ok.
    apply IH in H as (Hkeep & Hout & Hfill).
    destruct (truthy (get_prop dbv key)) eqn:Hkey; simpl in Hstep.
    + injection Hstep as <-. split_and!; [done| |].
      * intros [_ ?]%not_elem_of_cons. auto.
      * intros HK [->|Hin]%elem_of_cons; [congruence|auto].
    + destruct (decide (K = key)) as [->|Hne].
      * split_and!; [congruence|by intros []%not_elem_of_cons|].
        intros _ _.
        pose proof (set_prop_get_eq _ _ _ _ Hstep) as Hset.
        destruct (truthy (get_prop v key)) eqn:Hv.
        -- rewrite Hkeep; [done|]. by rewrite Hset.
        -- destruct (decide (key ∈ keys)) as [Hin|Hnin].
           ++ apply Hfill; [|done]. by rewrite Hset.
           ++ by rewrite Hout.
      * rewrite <-(set_prop_get_ne _ _ _ _ _ Hstep Hne). split_and!; [done| |].
        -- intros [_ ?]%not_elem_of_cons. auto.
        -- intros HK [->|Hin]%elem_of_cons; [done|auto].
Qed.

(** What the last [then] keeps of the original config it starts from,
    and what it fills in. *)
Lemma fill_entries cc base filled :
  fillDbVariables cc base = Ok filled →
  let current := default JUndef (obj_get cc "DbVariables") in
  (∀ key, key ≠ "Common" → get_prop filled key = get_prop base key)
  ∧ (∀ key, key ≠ "DbVariables" →
       get_path filled ["Common"; key] = get_path base ["Common"; key])
  ∧ (∀ K, truthy (get_path base ["Common"; "DbVariables"; K]) = true →
       get_path filled ["Common"; "DbVariables"; K]
       = get_path base ["Common"; "DbVariables"; K])
  ∧ (∀ K, truthy (get_path base ["Common"; "DbVariables"; K]) = false →
       K ∈ obj_keys (own_props current) →
       get_path filled ["Common"; "DbVariables"; K] = get_prop current K).
Proof.
  unfold fillDbVariables. cbv zeta.
  set (current := default JUndef (obj_get cc "DbVariables")).
  destruct (truthy current) eqn:Ht.
  2:{ intros [= <-]. split_and!; try done. intros K _ Hin.
      rewrite falsy_no_keys in Hin by done. by apply elem_of_nil in Hin. }
  intros (common & [-> _]%read_prop_Ok & H)%bind_Ok.
  apply bind_Ok in H as (dbv & [-> _]%read_prop_Ok & H).
  apply bind_Ok in H as (keys & [-> _]%object_keys_Ok & H).
  apply bind_Ok in H as (dbv' & Hloop & H).
  apply bind_Ok in H as (common' & Hcommon & Hfilled).
  cbn [get_path].
  rewrite (set_prop_get_eq _ _ _ _ Hfilled).
  split_and!.
  - intros key Hne. by rewrite (set_prop_get_ne _ _ _ _ _ Hfilled).
  - intros key Hne. by rewrite (set_prop_get_ne _ _ _ _ _ Hcommon).
  - intros K HK. rewrite (set_prop_get_eq _ _ _ _ Hcommon).
    apply (fill_loop_entries current K) in Hloop as (Hkeep & _ & _).
    destruct (truthy (get_prop (get_prop base "Common") "DbVariables"))
      eqn:Hdbv; [by apply Hkeep|].
    by rewrite falsy_get_prop in HK.
  - intros K HK Hin. rewrite (set_prop_get_eq _ _ _ _ Hcommon).
    apply (fill_loop_entries current K) in Hloop as (_ & _ & Hfill).
    apply Hfill; [|done].
    by destruct (truthy (get_prop (get_prop base "Common") "DbVariables")).
Qed.

(** The world that a call of [get] that resolves leaves behind. *)
Lemma get_Done declaration w w' :
  Get declaration w = (Done (), w') →
  ∃ info cc w1 filled,
    bigIp_deviceInfo = Ok info
    ∧ configId w1 = get_prop info "machineId"
    ∧ task w1 = task w ∧ doState w1 = doState w
    ∧ fillDbVariables cc
        (snapshot_base w1 (JObj [("parsed", JBool true); ("Common", JObj cc)]))
      = Ok filled
    ∧ w' = World (configId w1)
                 (State (JObj [("parsed", JBool true); ("Common", JObj cc)])
                        filled)
                 (<[to_key (configId w1) := filled]> (doState w1)) (reads w1).
Proof.
  intros (info & cc & w1 & Hinfo & Hid & Ht & Hd & Hc)%get_reaches_commit.
  apply commit_Done in Hc as (filled & Hfill & ->).
  by exists info, cc, w1, filled.
Qed.

(** The original config that the last [then] starts from, seen from the
    world in which [get] was called. *)
Lemma snapshot_base_kept w w1 id current :
  configId w1 = id → task w1 = task w → doState w1 = doState w →
  let stored := default JUndef (doState w !! to_key id) in
  let kept := if truthy stored then stored else originalConfig (task w) in
  snapshot_base w1 current = if truthy kept then kept else current.
Proof.
  intros <- Ht Hd. unfold snapshot_base. cbv zeta. rewrite Ht, Hd.
  destruct (truthy (default JUndef _)) eqn:Hs; simpl.
  - by rewrite andb_false_r, Hs.
  - rewrite andb_true_r.
    destruct (truthy (originalConfig (task w))) eqn:Ho; [by rewrite Ho|].
    by rewrite Hs.
Qed.

(** X10. When [get] resolves, the config id is the machine id of the device,
    the task state holds the current config as [{parsed: true, Common}],
    and [doState] keeps under the config id the original config that the
    task state holds. *)
Theorem get_stores_original (declaration : json) (w w' : world) :
  Get declaration w = (Done (), w') →
  ∃ info common,
    bigIp_deviceInfo = Ok info
    ∧ configId w' = get_prop info "machineId"
    ∧ currentConfig (task w')
      = JObj [("parsed", JBool true); ("Common", JObj common)]
    ∧ doState w' !! to_key (configId w') = Some (originalConfig (task w'))
    ∧ truthy (originalConfig (task w')) = true.
Proof.
  intros (info & cc & w1 & filled & Hinfo & Hid & Ht & Hd & Hfill & ->)
    %get_Done.
  exists info, cc. simpl. split_and!; try done.
  - by rewrite lookup_insert_eq.
  - eapply fill_truthy; [done|]. apply snapshot_base_truthy.
Qed.

(** X11. After a call of [get] that resolves, the config responder finds the
    original config of the device: [exists] answers [true] for the config
    id and [getData] returns the original config of the task state. *)
Theorem responder_finds_original (declaration : json) (w w' : world) :
  Get declaration w = (Done (), w') →
  ConfigResponse.exists_ (configId w') w' = (Done true, w')
  ∧ ConfigResponse.getData (configId w') w'
    = (Done (originalConfig (task w')), w').
Proof.
  intros (info & cc & w1 & filled & Hinfo & Hid & Ht & Hd & Hfill & ->)
    %get_Done.
  unfold ConfigResponse.exists_, ConfigResponse.getData.
  rewrite bind_run. unfold getOriginalConfigByConfigId. simpl.
  rewrite lookup_insert_eq. simpl. split; [|done].
  erewrite fill_truthy; [done|done|]. apply snapshot_base_truthy.
Qed.

(** X12. The first call for a device (no original config kept for its machine
    id, none in the task state) takes the current config as the original
    config. *)
Theorem get_first_snapshot (declaration : json) (w w' : world) :
  Get declaration w = (Done (), w') →
  truthy (originalConfig (task w)) = false →
  (∀ info, bigIp_deviceInfo = Ok info →
     truthy (default JUndef (doState w !! to_key (get_prop info "machineId")))
     = false) →
  originalConfig (task w') = currentConfig (task w').
Proof.
  intros (info & cc & w1 & filled & Hinfo & Hid & Ht & Hd & Hfill & ->)
    %get_Done Hlegacy Hstored.
  simpl. rewrite (snapshot_base_kept w w1 _ _ Hid Ht Hd) in Hfill.
  cbv zeta in Hfill. rewrite (Hstored info Hinfo), Hlegacy in Hfill.
  by apply fill_current in Hfill.
Qed.

(** X13. The original config kept for the device (or, when [doState] keeps
    none, the one of the task state) stays as it is outside
    [Common.DbVariables], and every db variable with a truthy value in it
    keeps that value, whatever the device reports now. *)
Theorem get_keeps_original_entries (declaration : json) (w w' : world)
    (info : json) :
  Get declaration w = (Done (), w') →
  bigIp_deviceInfo = Ok info →
  let stored :=
    default JUndef (doState w !! to_key (get_prop info "machineId")) in
  let kept := if truthy stored then stored else originalConfig (task w) in
  truthy kept = true →
  (∀ key, key ≠ "Common" →
     get_prop (originalConfig (task w')) key = get_prop kept key)
  ∧ (∀ key, key ≠ "DbVariables" →
       get_path (originalConfig (task w')) ["Common"; key]
       = get_path kept ["Common"; key])
  ∧ (∀ K, truthy (get_path kept ["Common"; "DbVariables"; K]) = true →
       get_path (originalConfig (task w')) ["Common"; "DbVariables"; K]
       = get_path kept ["Common"; "DbVariables"; K]).
Proof.
  intros (info' & cc & w1 & filled & Hinfo & Hid & Ht & Hd & Hfill & ->)
    %get_Done Hinfo' stored kept Hkept.
  rewrite Hinfo in Hinfo'. injection Hinfo' as ->.
  rewrite (snapshot_base_kept w w1 _ _ Hid Ht Hd) in Hfill.
  cbv zeta in Hfill. fold stored in Hfill. fold kept in Hfill.
  rewrite Hkept in Hfill.
  apply fill_entries in Hfill as (H1 & H2 & H3 & _). by simpl.
Qed.

(** X14. A db variable of the current config for which the original config
    kept for the device has no truthy value gets the current value there. *)
Theorem get_fills_missing_db_variables (declaration : json) (w w' : world)
    (info : json) (K : string) :
  Get declaration w = (Done (), w') →
  bigIp_deviceInfo = Ok info →
  let stored :=
    default JUndef (doState w !! to_key (get_prop info "machineId")) in
  let kept := if truthy stored then stored else originalConfig (task w) in
  truthy kept = true →
  truthy (get_path kept ["Common"; "DbVariables"; K]) = false →
  K ∈ obj_keys (own_props (get_path (currentConfig (task w'))
                                    ["Common"; "DbVariables"])) →
  get_path (originalConfig (task w')) ["Common"; "DbVariables"; K]
  = get_path (currentConfig (task w')) ["Common"; "DbVariables"; K].
Proof.
  intros (info' & cc & w1 & filled & Hinfo & Hid & Ht & Hd & Hfill & ->)
    %get_Done Hinfo' stored kept Hkept HK Hin.
  rewrite Hinfo in Hinfo'. injection Hinfo' as ->.
  rewrite (snapshot_base_kept w w1 _ _ Hid Ht Hd) in Hfill.
  cbv zeta in Hfill. fold stored in Hfill. fold kept in Hfill.
  rewrite Hkept in Hfill.
  apply fill_entries in Hfill as (_ & _ & _ & H4). simpl in *. by apply H4.
Qed.

Lemma apart_commit cc : moves apart (commit cc).
Proof.
  intros w. rewrite commit_unfold. cbv zeta.
  do 4 (rewrite bind_run;
        cbn [set_currentConfig get_configId get_state
             getOriginalConfigByConfigId configId task doState reads
             originalConfig currentConfig]).
  rewrite bind_run.
  destruct (_ && _).
  - cbn [setOriginalConfigByConfigId configId task doState reads].
    rewrite bind_run.
    cbn [getOriginalConfigByConfigId configId task doState reads].
    rewrite bind_run. unfold lift at 1.
    destruct (fillDbVariables _ _) as [filled|].
    + rewrite bind_run. simpl. split; [done|]. intros id Hne. simpl.
      by rewrite !lookup_insert_ne.
    + simpl. split; [done|]. intros id Hne. simpl.
      by rewrite lookup_insert_ne.
  - cbn [mret M_ret]. rewrite bind_run.
    cbn [getOriginalConfigByConfigId configId task doState reads].
    rewrite bind_run. unfold lift at 1.
    destruct (fillDbVariables _ _) as [filled|].
    + rewrite bind_run. simpl. split; [done|]. intros id Hne. simpl.
      by rewrite lookup_insert_ne.
    + by simpl.
Qed.

(** X15. However a call of [get] ends, the original configs that [doState]
    keeps for other devices are as they were. *)
Theorem get_leaves_other_originals (declaration : json) (w : world)
    (id : string) :
  (∀ info, bigIp_deviceInfo = Ok info →
           id ≠ to_key (get_prop info "machineId")) →
  doState (Get declaration w).2 !! id = doState w !! id.
Proof.
  intros Hid. rewrite get_unfold.
  rewrite bind_run. cbn [get_state].
  rewrite bind_run. unfold lift at 1.
  destruct (dbVarsOfInterest _ _) as [dbVars|]; [|done].
  rewrite bind_run. unfold list_ at 1.
  destruct (bigIp_list "/tm/sys/provision") as [provisioning|]; [|done].
  cbn [settled]. rewrite bind_run. unfold lift at 1.
  destruct (provisionedModulesOf _) as [modules|]; [|done].
  rewrite bind_run. unfold deviceInfo at 1.
  destruct bigIp_deviceInfo as [info|] eqn:Hinfo; [|done].
  cbn [settled]. rewrite bind_run. unfold lift at 1.
  destruct (read_prop info "machineId") as [machineId|] eqn:Hm; [|done].
  apply read_prop_Ok in Hm as [-> _].
  rewrite bind_run. cbn [set_configId configId task doState reads].
  match goal with |- doState (?rest ?w1).2 !! _ = _ =>
    assert (moves apart rest) as Hrest; [|destruct (Hrest w1) as [_ Hd]]
  end.
  { apply moves_bind; [apply _| |intros tokenMap].
    { eapply moves_weaken; [apply quiet_apart|apply quiet_getTokenMap]. }
    apply moves_bind; [apply _| |intros queries].
    { eapply moves_weaken; [apply quiet_apart|].
      apply moves_mapM_M; [apply _|]. intros. apply quiet_queryConfigItem. }
    apply moves_bind; [apply _| |intros results].
    { eapply moves_weaken; [apply quiet_apart|apply quiet_settle]. }
    apply moves_bind; [apply _| |intros [cc ri]].
    { eapply moves_weaken; [apply quiet_apart|].
      apply moves_foldM_M; [apply _|]. intros. apply quiet_fileResult. }
    apply moves_bind; [apply _| |intros refs].
    { eapply moves_weaken; [apply quiet_apart|apply quiet_settle]. }
    apply moves_bind; [apply _| |intros cc'].
    { apply moves_lift, _. }
    apply apart_commit. }
  rewrite Hd; [done|]. simpl. by apply Hid.
Qed.

End manager_quiet.

Section helper_examples.
Import ConfigManager.

Lemma getPropertiesOfInterest_selects_name_witness :
  includes [JStr "mtu"; JStr "tag"; JStr "name"] (JStr "name") = true
  ∧ (truthy vlan_properties = false
     → [JStr "mtu"; JStr "tag"; JStr "name"] = [JStr "name"])
  ∧ ∃ properties,
      (if truthy vlan_properties then array_elements vlan_properties
       else Ok []) = Ok properties
      ∧ take (length properties) [JStr "mtu"; JStr "tag"; JStr "name"]
        = (λ curr, get_prop curr "id") <$> properties.
Proof.
  apply (getPropertiesOfInterest_selects_name vlan_properties
           [JStr "mtu"; JStr "tag"; JStr "name"]).
  reflexivity.
Defined.


Lemma mapSchemaMerge_stores_at_path_witness :
  (truthy (get_prop radius_merge "skipWhenOmitted") = true →
   is_undef (JObj [("primary", JStr "1.2.3.4")])
   || bool_decide (obj_keys (own_props (JObj [("primary", JStr "1.2.3.4")]))
                   = []) = true →
   JObj [("enabledSourceType", JStr "radius");
         ("radius", JObj [("servers", JObj [("primary", JStr "1.2.3.4")])])]
   = JObj [("enabledSourceType", JStr "radius")])
  ∧ (truthy (get_prop radius_merge "skipWhenOmitted") = false
     ∨ is_undef (JObj [("primary", JStr "1.2.3.4")])
       || bool_decide (obj_keys (own_props (JObj [("primary", JStr "1.2.3.4")]))
                       = []) = false →
     get_path
       (JObj [("enabledSourceType", JStr "radius");
              ("radius",
               JObj [("servers", JObj [("primary", JStr "1.2.3.4")])])])
       (to_key <$> [JStr "radius"; JStr "servers"])
     = JObj [("primary", JStr "1.2.3.4")]).
Proof.
  apply (mapSchemaMerge_stores_at_path
           (JObj [("enabledSourceType", JStr "radius")])
           (JObj [("primary", JStr "1.2.3.4")]) radius_merge
           [JStr "radius"; JStr "servers"]);
    [reflexivity|reflexivity|discriminate|reflexivity].
Defined.

Lemma shouldIgnore_some_entry_matches_witness :
  true = true
  ↔ ∃ infos info, ignore_external = JArr infos ∧ info ∈ infos
                  ∧ ignores example_regex_test vlan_external info = true.
Proof.
  apply (shouldIgnore_some_entry_matches example_regex_test vlan_external
           ignore_external true).
  reflexivity.
Defined.

Lemma dbVarsOfInterest_covers_witness :
  (JStr "class" ∉ [JStr "ui.system.preferences"; JStr "ui.advisory.text"])
  ∧ (∀ dbVar,
       dbVar ∈ obj_keys (own_props
                  (get_path (currentConfig task_with_db_variable)
                            ["Common"; "DbVariables"])) →
       dbVar ≠ "class" →
       JStr dbVar ∈ [JStr "ui.system.preferences"; JStr "ui.advisory.text"])
  ∧ (∀ key dbVar,
       key ∈ obj_keys (own_props (get_prop db_declaration "Common")) →
       strict_eqb (get_path db_declaration ["Common"; key; "class"])
                  (JStr "DbVariables") = true →
       dbVar ∈ obj_keys (own_props (get_path db_declaration ["Common"; key])) →
       dbVar ≠ "class" →
       JStr dbVar ∈ [JStr "ui.system.preferences"; JStr "ui.advisory.text"]).
Proof.
  apply (dbVarsOfInterest_covers db_declaration task_with_db_variable
           [JStr "ui.system.preferences"; JStr "ui.advisory.text"]).
  reflexivity.
Defined.

Local Abbreviation example_run w :=
  (example_get example_configItems (device_with (Ok interfaces_of_external))
               db_declaration w).

Local Abbreviation apply_to_example thm :=
  (thm example_configItems (device_with (Ok interfaces_of_external))
       example_deviceInfo (hd (Error "")) example_regex_test example_url_parse
       example_querystring_parse example_querystring_stringify
       "system_auth_name" "system_auth_name1" "system_auth_name2"
       db_declaration).

Lemma get_stores_original_witness :
  ∃ info common,
    example_deviceInfo = Ok info
    ∧ configId (example_run fresh_world).2 = get_prop info "machineId"
    ∧ currentConfig (task (example_run fresh_world).2)
      = JObj [("parsed", JBool true); ("Common", JObj common)]
    ∧ doState (example_run fresh_world).2
        !! to_key (configId (example_run fresh_world).2)
      = Some (originalConfig (task (example_run fresh_world).2))
    ∧ truthy (originalConfig (task (example_run fresh_world).2)) = true.
Proof.
  apply (apply_to_example get_stores_original fresh_world
           (example_run fresh_world).2).
  vm_compute. reflexivity.
Defined.

Lemma responder_finds_original_witness :
  ConfigResponse.exists_ (configId (example_run fresh_world).2)
                         (example_run fresh_world).2
  = (Done true, (example_run fresh_world).2)
  ∧ ConfigResponse.getData (configId (example_run fresh_world).2)
                           (example_run fresh_world).2
    = (Done (originalConfig (task (example_run fresh_world).2)),
       (example_run fresh_world).2).
Proof.
  apply (apply_to_example responder_finds_original fresh_world
           (example_run fresh_world).2).
  vm_compute. reflexivity.
Defined.

Lemma get_first_snapshot_witness :
  originalConfig (task (example_run fresh_world).2)
  = currentConfig (task (example_run fresh_world).2).
Proof.
  apply (apply_to_example get_first_snapshot fresh_world
           (example_run fresh_world).2).
  - vm_compute. reflexivity.
  - reflexivity.
  - intros info [= <-]. reflexivity.
Defined.

Lemma get_keeps_original_entries_witness :
  (∀ key, key ≠ "Common" →
     get_prop (originalConfig
                 (task (example_run (world_with_original (JStr "before"))).2))
              key
     = get_prop (kept_original (JStr "before")) key)
  ∧ (∀ key, key ≠ "DbVariables" →
       get_path (originalConfig
                   (task (example_run (world_with_original (JStr "before"))).2))
                ["Common"; key]
       = get_path (kept_original (JStr "before")) ["Common"; key])
  ∧ (∀ K, truthy (get_path (kept_original (JStr "before"))
                           ["Common"; "DbVariables"; K]) = true →
       get_path (originalConfig
                   (task (example_run (world_with_original (JStr "before"))).2))
                ["Common"; "DbVariables"; K]
       = get_path (kept_original (JStr "before"))
                  ["Common"; "DbVariables"; K]).
Proof.
  apply (apply_to_example get_keeps_original_entries
           (world_with_original (JStr "before"))
           (example_run (world_with_original (JStr "before"))).2
           (JObj [("machineId", JStr "m-1");
                  ("hostname", JStr "bigip.example.com")])).
  - vm_compute. reflexivity.
  - reflexivity.
  - reflexivity.
Defined.

Lemma get_fills_missing_db_variables_witness :
  get_path (originalConfig
              (task (example_run (world_with_original (JStr ""))).2))
           ["Common"; "DbVariables"; "ui.advisory.text"]
  = get_path (currentConfig
                (task (example_run (world_with_original (JStr ""))).2))
             ["Common"; "DbVariables"; "ui.advisory.text"].
Proof.
  apply (apply_to_example get_fills_missing_db_variables
           (world_with_original (JStr ""))
           (example_run (world_with_original (JStr ""))).2
           (JObj [("machineId", JStr "m-1");
                  ("hostname", JStr "bigip.example.com")])).
  - vm_compute. reflexivity.
  - reflexivity.
  - reflexivity.
  - reflexivity.
  - vm_compute. left.
Defined.

Lemma get_leaves_other_originals_witness :
  doState (example_run (world_with_original (JStr "before"))).2 !! "m-2"
  = doState (world_with_original (JStr "before")) !! "m-2".
Proof.
  apply (apply_to_example get_leaves_other_originals
           (world_with_original (JStr "before")) "m-2").
  intros info [= <-]. vm_compute. discriminate.
Defined.

End helper_examples.

Section reconciler_more.
Import DeepDiff DiffHandler.
Variables (truth : list string) (K : string).

(** A change elsewhere leaves the class as it is, present or not. *)
Lemma observe_outside_class x from ups c from' ups' :
  outside K c → class_is K x from →
  observe truth (from, ups) c = Ok (from', ups') →
  class_is K x from' ∧ (K ∈ ups → K ∈ ups').
Proof.
  intros (T & q & Hp & Hcase) (o & oc & -> & Hc & HK). unfold observe.
  rewrite Hp. destruct q as [|[k'|i] q']; simpl;
    try (intros [= <- <-]; split; [by exists o, oc|done]).
  destruct (bool_decide (k' ∈ truth));
    [|intros [= <- <-]; split; [by exists o, oc|done]].
  intros (f1 & Happ & [= <- <-])%bind_Ok.
  split; [|destruct (bool_decide _); [done|]; intros; apply elem_of_app; by left].
  unfold applyChange in Happ. simpl truthy in Happ. cbv iota in Happ.
  rewrite Hp in Happ.
  destruct (decide (T = "Common")) as [->|HT].
  - destruct Hcase as [?|(K' & q'' & [= -> ->] & HK')]; [done|].
    eapply applyAt_common_frame in Happ as (x' & -> & Hx); [|done].
    exists (aset o "Common" (JObj x')), x'. split; [done|].
    unfold obj_get. rewrite (aget_aset_eq (V:=json)), Hx by done. done.
  - apply applyAt_obj_frame in Happ as (x' & -> & Hx).
    exists x', oc. unfold obj_get. by rewrite Hx.
Qed.

Lemma observe_outside_classes x l : ∀ from ups from' ups',
  (∀ c, c ∈ l → outside K c) → class_is K x from →
  foldM (observe truth) (from, ups) l = Ok (from', ups') →
  class_is K x from' ∧ (K ∈ ups → K ∈ ups').
Proof.
  induction l as [|c l IH]; intros from ups from' ups' Hl Hv H; simpl in H.
  - by injection H as <- <-.
  - apply bind_Ok in H as ([f1 u1] & Hc & H).
    eapply observe_outside_class in Hc as [? ?]; [|apply Hl; left|done].
    eapply IH in H as [? ?]; [|intros; apply Hl; by right|done]. auto.
Qed.

(** The change that deletes or adds the class itself. *)
Lemma observe_class_change x c from ups from' ups' :
  K ∈ truth → class_is K x from →
  (c = DiffDeleted [Key "Common"; Key K] (default JUndef x)
   ∨ ∃ rhs, c = DiffNew [Key "Common"; Key K] rhs) →
  observe truth (from, ups) c = Ok (from', ups') →
  class_is K (match c with DiffNew _ rhs => Some rhs | _ => None end) from'
  ∧ K ∈ ups'.
Proof.
  intros HK (o & oc & -> & Hc & Hx) Hcase. unfold observe.
  assert (change_path c = [Key "Common"; Key K]) as Hp.
  { by destruct Hcase as [->|[rhs ->]]. }
  rewrite Hp. simpl. rewrite bool_decide_eq_true_2 by done.
  intros (f1 & Happ & [= <- <-])%bind_Ok. split.
  2:{ destruct (bool_decide (K ∈ ups)) eqn:Hin;
        [by apply bool_decide_eq_true in Hin|].
      apply elem_of_app. right. left. }
  unfold applyChange in Happ. simpl truthy in Happ. cbv iota in Happ.
  rewrite Hp in Happ.
  cbn [applyAt is_nullish get_seg seg_key get_prop] in Happ.
  unfold obj_get in *. rewrite Hc in Happ. cbn [default is_undef] in Happ.
  destruct Hcase as [->|[rhs ->]]; simpl in Happ; injection Happ as <-.
  - eexists _, _. split; [done|].
    rewrite (aget_aset_eq (V:=json)). split; [done|].
    apply (aget_adel_eq (V:=json)).
  - eexists _, _. split; [done|].
    rewrite (aget_aset_eq (V:=json)). split; [done|].
    apply (aget_aset_eq (V:=json)).
Qed.

(** The changes of two objects, around the deletion of a key that only
    the left one has. *)
Lemma diff_obj_split_deleted lo ro key x ld rd path :
  NoDup lo.*1 → aget lo key = Some x → aget ro key = None →
  ∃ pre post,
    deepDiff (JObj lo) (JObj ro) ld rd path
    = pre ++ [DiffDeleted (path ++ [Key key]) x] ++ post
    ∧ ∀ c, c ∈ pre ++ post →
        ∃ k' q, change_path c = path ++ Key k' :: q ∧ k' ≠ key.
Proof.
  intros Hnd Hx Hy. rewrite deepDiff_unfold by done. simpl.
  destruct (aget_split _ _ _ Hx) as (l1 & l2 & -> & Hl1).
  assert (key ∉ l2.*1) as Hl2.
  { rewrite fmap_app in Hnd. apply NoDup_app in Hnd as (_ & _ & Hnd).
    simpl in Hnd. by apply NoDup_cons in Hnd as [? _]. }
  exists (flat_map (diff_member path ro) l1),
    (flat_map (diff_member path ro) l2
     ++ diff_news path (l1 ++ (key, x) :: l2) ro).
  split.
  - rewrite flat_map_app. simpl. unfold diff_member at 2. simpl.
    unfold obj_get. rewrite Hy. by rewrite <-!app_assoc.
  - intros c Hc. rewrite !elem_of_app in Hc. destruct Hc as [Hc|[Hc|Hc]].
    + apply list_elem_of_In, in_flat_map in Hc as ([k' x'] & Hin & Hc).
      apply list_elem_of_In in Hin, Hc.
      apply diff_member_path in Hc as [q Hq]. exists k', q. simpl in *.
      split; [done|]. intros ->. apply Hl1.
      apply list_elem_of_fmap. by exists (key, x').
    + apply list_elem_of_In, in_flat_map in Hc as ([k' x'] & Hin & Hc).
      apply list_elem_of_In in Hin, Hc.
      apply diff_member_path in Hc as [q Hq]. exists k', q. simpl in *.
      split; [done|]. intros ->. apply Hl2.
      apply list_elem_of_fmap. by exists (key, x').
    + unfold diff_news in Hc.
      apply list_elem_of_omap in Hc as ([k' v] & Hin & Hc). simpl in Hc.
      destruct (bool_decide (is_Some _)) eqn:Hs; [done|].
      destruct (bool_decide (k' = "")); [done|]. injection Hc as <-.
      exists k', []. split; [done|]. intros ->.
      apply bool_decide_eq_false in Hs. apply Hs. unfold obj_get.
      rewrite Hx. eauto.
Qed.

(** The changes of two objects, around the addition of a key that only
    the right one has. *)
Lemma diff_obj_split_new lo ro key y ld rd path :
  NoDup ro.*1 → aget lo key = None → aget ro key = Some y → key ≠ "" →
  ∃ pre post,
    deepDiff (JObj lo) (JObj ro) ld rd path
    = pre ++ [DiffNew (path ++ [Key key]) y] ++ post
    ∧ ∀ c, c ∈ pre ++ post →
        ∃ k' q, change_path c = path ++ Key k' :: q ∧ k' ≠ key.
Proof.
  intros Hnd Hx Hy Hne. rewrite deepDiff_unfold by done. simpl.
  destruct (aget_split _ _ _ Hy) as (r1 & r2 & -> & Hr1).
  assert (key ∉ r2.*1) as Hr2.
  { rewrite fmap_app in Hnd. apply NoDup_app in Hnd as (_ & _ & Hnd).
    simpl in Hnd. by apply NoDup_cons in Hnd as [? _]. }
  set (ro := r1 ++ (key, y) :: r2) in *.
  set (news := λ kv : string * json,
         if bool_decide (is_Some (obj_get lo kv.1)) then None
         else if bool_decide (kv.1 = "") then None
         else Some (DiffNew (path ++ [Key kv.1]) kv.2)).
  exists (flat_map (diff_member path ro) lo ++ omap news r1), (omap news r2).
  split.
  - change (diff_news path lo ro) with (omap news ro). unfold ro.
    rewrite omap_app. simpl. unfold news at 2. simpl. unfold obj_get.
    rewrite Hx. rewrite bool_decide_eq_false_2 by (by intros [? ?]).
    rewrite bool_decide_eq_false_2 by done.
    by rewrite <-!app_assoc.
  - assert (∀ r c, key ∉ r.*1 → c ∈ omap news r →
              ∃ k' q, change_path c = path ++ Key k' :: q ∧ k' ≠ key)
      as Hnews.
    { intros r c Hr ([k' v] & Hin & Hc)%list_elem_of_omap.
      unfold news in Hc. simpl in Hc.
      destruct (bool_decide (is_Some _)); [done|].
      destruct (bool_decide (k' = "")); [done|]. injection Hc as <-.
      exists k', []. split; [done|]. intros ->. apply Hr.
      apply list_elem_of_fmap. by exists (key, v). }
    intros c Hc. rewrite !elem_of_app in Hc.
    destruct Hc as [[Hc|Hc]|Hc];
      [|by apply (Hnews r1)|by apply (Hnews r2)].
    apply list_elem_of_In, in_flat_map in Hc as ([k' x'] & Hin & Hc).
    apply list_elem_of_In in Hin, Hc.
    apply diff_member_path in Hc as [q Hq]. exists k', q. simpl in *.
    split; [done|]. intros ->.
    apply aget_None in Hx. apply Hx. apply list_elem_of_fmap.
    by exists (key, x').
Qed.

(** The copy loop stores what the updated declaration holds for a class
    that was updated. *)
Lemma copy_class_get o oc ups : ∀ acc final,
  aget o "Common" = Some (JObj oc) →
  foldM (copyUpdated (JObj o)) acc ups = Ok final →
  K ∈ ups →
  aget final K = Some (copied (default JUndef (aget oc K))).
Proof.
  intros acc final Hc H Hin.
  assert (K ∈ ups
          ∨ aget acc K = Some (copied (default JUndef (aget oc K))))
    as Hacc by (by left).
  clear Hin. revert acc final H Hacc.
  induction ups as [|path ups IH]; intros acc final H Hacc; simpl in H.
  - injection H as <-. by destruct Hacc as [?%elem_of_nil|?].
  - apply bind_Ok in H as (acc1 & Hstep & H).
    eapply IH; [done|]. destruct (decide (path = K)) as [->|Hne].
    + right. apply (copyUpdated_class _ oc) in Hstep as ->; [|done].
      simpl. by rewrite (aget_aset_eq (V:=json)).
    + destruct Hacc as [[?|?]%elem_of_cons|Hacc]; [done|by left|right].
      by rewrite (copyUpdated_other _ _ _ _ _ Hstep).
Qed.

(** [process] when the changes of [Common] are those of other classes
    around one change [c] that deletes or adds the class [K]. *)
Lemma process_class_change (desired current dcm ccm : props) c final :
  is_json (JObj desired) = true →
  is_json (JObj current) = true → wf_json (JObj current) = true →
  obj_get desired "Common" = Some (JObj dcm) →
  obj_get current "Common" = Some (JObj ccm) →
  K ∈ truth →
  (∃ pre post,
     deepDiff (JObj ccm) (JObj dcm) true true [Key "Common"]
     = pre ++ [c] ++ post
     ∧ ∀ c', c' ∈ pre ++ post →
         ∃ k' q, change_path c' = [Key "Common"] ++ Key k' :: q ∧ k' ≠ K) →
  (c = DiffDeleted [Key "Common"; Key K] (default JUndef (obj_get ccm K))
   ∨ ∃ rhs, c = DiffNew [Key "Common"; Key K] rhs) →
  process truth (JObj desired) (JObj current) = Ok final →
  get_path final ["Common"; K]
  = copied (match c with DiffNew _ rhs => rhs | _ => JUndef end).
Proof.
  intros Hjd Hjc Hwc Hdc Hcc HK (pre' & post' & Hin & Hout') Hc H.
  eapply process_Ok in H
    as (from & nonTruth & from' & ups & finalCommon
        & Hfrom & Hnon & Hobs & Hcopy & ->); [|done..].
  rewrite clone_id in Hfrom by done. injection Hfrom as <-.
  rewrite get_class.
  apply wf_json_obj in Hwc as [Hndc Hwc].
  unfold observableDiff in Hobs.
  destruct (diff_obj_split current desired "Common" _ _ false false []
              Hndc Hcc Hdc) as (pre & post & Hroot & Hout).
  cbn [app] in Hroot, Hout. rewrite Hroot, Hin in Hobs.
  rewrite foldM_app in Hobs.
  apply bind_Ok in Hobs as ([f1 u1] & H1 & Hobs).
  rewrite foldM_app in Hobs.
  apply bind_Ok in Hobs as ([f4 u4] & Hmid & H5).
  rewrite foldM_app in Hmid.
  apply bind_Ok in Hmid as ([f2 u2] & H2 & Hmid).
  rewrite foldM_app in Hmid.
  apply bind_Ok in Hmid as ([f3 u3] & H3 & H4).
  assert (∀ c', c' ∈ pre ++ post → outside K c') as Houtside.
  { intros c' (k' & q & Hp & Hk' & _)%Hout. exists k', q. auto. }
  assert (∀ c', c' ∈ pre' ++ post' → outside K c') as Houtside'.
  { intros c' (k' & q & Hp & Hk')%Hout'. exists "Common", (Key k' :: q).
    split; [done|]. right. by exists k', q. }
  eapply (observe_outside_classes (obj_get ccm K)) in H1 as [Hc1 _];
    [|intros; apply Houtside, elem_of_app; by left
     |by exists current, ccm].
  eapply (observe_outside_classes (obj_get ccm K)) in H2 as [Hc2 _];
    [|intros; apply Houtside', elem_of_app; by left|done].
  simpl in H3. apply bind_Ok in H3 as ([f3' u3'] & H3 & [= <- <-]).
  eapply observe_class_change in H3 as [Hc3 Hu3]; [|done..].
  eapply observe_outside_classes in H4 as [Hc4 Hu4];
    [|intros; apply Houtside', elem_of_app; by right|done].
  eapply observe_outside_classes in H5 as [Hc5 Hu5];
    [|intros; apply Houtside, elem_of_app; by right|done].
  destruct Hc5 as (o5 & oc5 & -> & Ho5 & Hoc5).
  erewrite copy_class_get; [|done|done|auto]. simpl.
  unfold obj_get in Hoc5. rewrite Hoc5. by destruct c.
Qed.

End reconciler_more.

Section reconciler_edges.
Import DeepDiff DiffHandler.

(** X16. A class of truth that the current declaration has and the desired one
    has not is in the merged document as an empty object. *)
Theorem process_deleted_class
    (classesOfTruth : list string) (K : string)
    (desired current desiredCommon currentCommon : props)
    (vf final : json) :
  is_json (JObj desired) = true →
  is_json (JObj current) = true → wf_json (JObj current) = true →
  obj_get desired "Common" = Some (JObj desiredCommon) →
  obj_get current "Common" = Some (JObj currentCommon) →
  obj_get currentCommon K = Some vf → obj_get desiredCommon K = None →
  K ∈ classesOfTruth →
  process classesOfTruth (JObj desired) (JObj current) = Ok final →
  get_path final ["Common"; K] = JObj [].
Proof.
  intros Hjd Hjc Hwc Hdc Hcc Hvf Hvt HK H.
  pose proof Hwc as [_ Hwc']%wf_json_obj.
  apply Hwc' in Hcc as Hwcc. apply wf_json_obj in Hwcc as [Hndcc _].
  rewrite (process_class_change classesOfTruth K desired current
             desiredCommon currentCommon
             (DiffDeleted [Key "Common"; Key K] vf) final Hjd Hjc Hwc Hdc Hcc
             HK); [done| |left; by rewrite Hvf|done].
  by apply (diff_obj_split_deleted _ _ K vf true true [Key "Common"]).
Qed.

(** X17. A class of truth that only the desired declaration has, and whose
    value is a string, an array or a plain object, is in the merged
    document with the desired value. *)
Theorem process_new_class
    (classesOfTruth : list string) (K : string)
    (desired current desiredCommon currentCommon : props)
    (vt final : json) :
  is_json (JObj desired) = true → wf_json (JObj desired) = true →
  is_json (JObj current) = true → wf_json (JObj current) = true →
  obj_get desired "Common" = Some (JObj desiredCommon) →
  obj_get current "Common" = Some (JObj currentCommon) →
  obj_get desiredCommon K = Some vt → obj_get currentCommon K = None →
  K ∈ classesOfTruth → K ≠ "" →
  is_string vt || is_array vt || is_plain_object vt = true →
  process classesOfTruth (JObj desired) (JObj current) = Ok final →
  get_path final ["Common"; K] = vt.
Proof.
  intros Hjd Hwd Hjc Hwc Hdc Hcc Hvt Hvf HK Hne Hty H.
  apply wf_json_obj in Hwd as [_ Hwd].
  apply Hwd in Hdc as Hwdc. apply wf_json_obj in Hwdc as [Hnddc Hwdc].
  apply Hwdc in Hvt as Hwvt.
  rewrite (process_class_change classesOfTruth K desired current
             desiredCommon currentCommon
             (DiffNew [Key "Common"; Key K] vt) final Hjd Hjc Hwc Hdc Hcc
             HK); [| |right; by eexists|done].
  - unfold copied. destruct vt; try done. simpl.
    apply wf_json_obj in Hwvt as [? _]. by rewrite object_assign_fresh.
  - by apply (diff_obj_split_new _ _ K vt true true [Key "Common"]).
Qed.

(** X18. When the current declaration is deep-equal to the desired one,
    [process] resolves with the classes of the desired declaration that
    are not classes of truth, and nothing else. *)
Theorem process_equal_declarations
    (classesOfTruth : list string)
    (desired desiredCommon : props) (current : json) :
  is_json (JObj desired) = true → is_json current = true →
  obj_get desired "Common" = Some (JObj desiredCommon) →
  deep_equal current (JObj desired) = true →
  ∃ nonTruth,
    populateNonTruthClasses (JObj desiredCommon) classesOfTruth = Ok nonTruth
    ∧ process classesOfTruth (JObj desired) current
      = Ok (JObj [("Common", JObj nonTruth)])
    ∧ ∀ K, K ∈ classesOfTruth → obj_get nonTruth K = None.
Proof.
  intros Hjd Hjc Hdc Heq.
  destruct (populateNonTruthClasses (JObj desiredCommon) classesOfTruth)
    as [nonTruth|] eqn:Hnon; [|done].
  exists nonTruth. split_and!; [done| |].
  - unfold process. rewrite !clone_id by done. cbn [mbind result_bind].
    cbn [read_prop get_prop]. rewrite Hdc.
    cbn [default from_option mbind result_bind]. unfold id.
    rewrite Hnon. cbn [mbind result_bind]. unfold observableDiff.
    by rewrite deep_equal_diff.
  - intros K HK. by eapply populate_truth.
Qed.

End reconciler_edges.

Section reconciler_examples.
Import DeepDiff DiffHandler.

Lemma process_deleted_class_witness :
  get_path (resolved (process ["DNS"; "VLAN"] (JObj desired_declaration)
                              (JObj current_with_vlan)))
           ["Common"; "VLAN"]
  = JObj [].
Proof.
  assert (∃ final, process ["DNS"; "VLAN"] (JObj desired_declaration)
                           (JObj current_with_vlan) = Ok final)
    as [final H] by (vm_compute; eauto).
  rewrite H. cbn [resolved].
  apply (process_deleted_class ["DNS"; "VLAN"] "VLAN" desired_declaration
           current_with_vlan desired_common
           (current_common
            ++ [("VLAN", JObj [("external", JObj [("tag", JNum 4094)])])])
           (JObj [("external", JObj [("tag", JNum 4094)])]) final);
    [reflexivity..| |exact H].
  right. left.
Defined.

Lemma process_new_class_witness :
  get_path (resolved (process ["DNS"] (JObj desired_declaration)
                              (JObj current_without_dns)))
           ["Common"; "DNS"]
  = JObj [("nameServers", JArr [JStr "1.2.3.4"]);
          ("search", JArr [JStr "f5.com"])].
Proof.
  assert (∃ final, process ["DNS"] (JObj desired_declaration)
                           (JObj current_without_dns) = Ok final)
    as [final H] by (vm_compute; eauto).
  rewrite H. cbn [resolved].
  apply (process_new_class ["DNS"] "DNS" desired_declaration
           current_without_dns desired_common
           [("hostname", JStr "old.example.com")]
           (JObj [("nameServers", JArr [JStr "1.2.3.4"]);
                  ("search", JArr [JStr "f5.com"])]) final);
    [reflexivity..| |discriminate|reflexivity|exact H].
  left.
Defined.

Lemma process_equal_declarations_witness :
  ∃ nonTruth,
    populateNonTruthClasses (JObj desired_common) ["DNS"] = Ok nonTruth
    ∧ process ["DNS"] (JObj desired_declaration) (JObj desired_declaration)
      = Ok (JObj [("Common", JObj nonTruth)])
    ∧ ∀ K, K ∈ ["DNS"] → obj_get nonTruth K = None.
Proof.
  apply (process_equal_declarations ["DNS"] desired_declaration
           desired_common (JObj desired_declaration)); reflexivity.
Defined.

End reconciler_examples.

Section parser_tenants.
Import DeclarationParser.

Lemma filterM_filter {A} (f : A → result bool) (g : A → bool) l r :
  (∀ x b, x ∈ l → f x = Ok b → b = g x) →
  filterM f l = Ok r → r = filter (λ x, g x = true) l.
Proof.
  revert r. induction l as [|x l IH]; simpl; intros r Hf H.
  - by injection H as <-.
  - apply bind_Ok in H as (b & Hb & H). apply bind_Ok in H as (r' & Hr' & H).
    injection H as <-. apply Hf in Hb as ->; [|left].
    rewrite filter_cons.
    rewrite (IH r'); [|intros y b' Hy; apply Hf; by right|done].
    by destruct (g x).
Qed.

Lemma filterM_Throw {A} (f : A → result bool) (P : exn → Prop) l x e :
  (∀ y e', y ∈ l → f y = Throw e' → P e') →
  x ∈ l → f x = Throw e → ∃ e', filterM f l = Throw e' ∧ P e'.
Proof.
  induction l as [|y l IH]; intros Hf Hx Hfx; [by apply elem_of_nil in Hx|].
  simpl. destruct (f y) as [b|e'] eqn:Hy; simpl.
  - apply elem_of_cons in Hx as [->|Hx]; [congruence|].
    destruct IH as (e' & -> & He'); [|done|done|by exists e'].
    intros. eapply Hf; [by right|done].
  - exists e'. split; [done|]. eapply Hf; [left|done].
Qed.

Lemma getTenants_step declaration key b :
  (if isKeyOfInterest key then
     cls ← read_prop (default JUndef (obj_get declaration key)) "class";
     if truthy cls then Ok (strict_eqb cls (JStr "Tenant")) else Ok false
   else Ok false) = Ok b →
  b = is_tenant declaration key.
Proof.
  unfold is_tenant. simpl. destruct (isKeyOfInterest key); [|by intros [= <-]].
  intros (cls & [-> _]%read_prop_Ok & H)%bind_Ok. simpl.
  destruct (truthy _) eqn:Ht; injection H as <-; [done|].
  symmetry. apply not_true_iff_false. intros Heq%strict_eqb_str.
  by rewrite Heq in Ht.
Qed.

(** X19. The tenants that [parse] reports are the keys of the declaration, in
    their order, that are not [schemaVersion] or [class] and whose value
    has the class [Tenant]. *)
Theorem parse_lists_tenants (declaration : props) (out : output) (d' : json) :
  NoDup declaration.*1 →
  parse (JObj declaration) = Ok (out, d') →
  tenants out
  = filter (λ key, is_tenant declaration key = true) (obj_keys declaration).
Proof.
  intros Hnd. unfold parse. rewrite object_assign_fresh by done.
  intros (ts & Hts & (st & _ & [= <- _])%bind_Ok)%bind_Ok. simpl.
  eapply filterM_filter; [|exact Hts].
  intros key b _. apply getTenants_step.
Qed.

(** X20. A declaration with a top-level member (other than [schemaVersion] and
    [class]) that is [null] cannot be parsed: [parse] throws a TypeError. *)
Theorem parse_rejects_null_member (declaration : props) (key : string) :
  NoDup declaration.*1 →
  obj_get declaration key = Some JNull →
  isKeyOfInterest key = true →
  ∃ msg, parse (JObj declaration) = Throw (TypeError msg).
Proof.
  intros Hnd Hkey Hint. unfold parse. rewrite object_assign_fresh by done.
  unfold getTenants.
  edestruct (filterM_Throw
    (λ possibleTenant,
       if isKeyOfInterest possibleTenant then
         cls ← read_prop (default JUndef (obj_get declaration possibleTenant))
                         "class";
         if truthy cls then Ok (strict_eqb cls (JStr "Tenant")) else Ok false
       else Ok false)
    (λ e, ∃ msg, e = TypeError msg) (obj_keys declaration) key)
    as (e & -> & msg & ->).
  - intros y e _. destruct (isKeyOfInterest y); [|done].
    destruct (default JUndef (obj_get declaration y)); simpl; try done;
      try (by destruct (truthy _)); intros [= <-]; eauto.
  - by eapply aget_Some_key.
  - cbv beta. rewrite Hint, Hkey. done.
  - by exists msg.
Qed.

End parser_tenants.

Section parser_examples.
Import DeclarationParser.

Lemma parse_lists_tenants_witness :
  tenants_of (parse example_declaration)
  = filter (λ key, is_tenant example_properties key = true)
           (obj_keys example_properties).
Proof.
  assert (∃ out d', parse example_declaration = Ok (out, d'))
    as (out & d' & Hparse) by (vm_compute; eauto).
  rewrite Hparse. cbn [tenants_of].
  apply (parse_lists_tenants example_properties out d'); [|exact Hparse].
  apply (bool_decide_eq_true_1 (NoDup example_properties.*1)).
  vm_compute. reflexivity.
Defined.

Lemma parse_rejects_null_member_witness :
  ∃ msg, parse (JObj null_tenant_properties) = Throw (TypeError msg).
Proof.
  apply (parse_rejects_null_member null_tenant_properties "Common").
  - apply (bool_decide_eq_true_1 (NoDup null_tenant_properties.*1)).
    vm_compute. reflexivity.
  - reflexivity.
  - reflexivity.
Defined.

End parser_examples.

Section mapping_frame.
Import ConfigManager.
Variable configItems : list json.

Lemma set_nested_frame o parts v r key :
  set_nested (JObj o) parts v = Ok r → key ≠ hd "" parts →
  obj_get (own_props r) key = obj_get o key.
Proof.
  destruct parts as [|cur [|next parts]]; simpl.
  - by intros [= <-].
  - intros [= <-] Hne. simpl. by apply (aget_aset_ne (V:=json)).
  - intros (child' & _ & [= <-])%bind_Ok Hne. simpl.
    by apply (aget_aset_ne (V:=json)).
Qed.

Lemma mapNewId_frame mappedItem id newId mapped key :
  mapNewId mappedItem id newId = Ok mapped →
  key ≠ to_key id →
  (∀ n, newId = JStr n →
        key ≠ match String.index 0 "." n with
              | Some (S _) => hd "" (split "." n)
              | _ => n
              end) →
  obj_get mapped key = obj_get mappedItem key.
Proof.
  unfold mapNewId. destruct newId as [| | | |n| |]; try done.
  intros (m & Hm & [= <-])%bind_Ok Hid Hnew. specialize (Hnew n eq_refl).
  unfold obj_get, obj_delete. rewrite (aget_adel_ne (V:=json)) by done.
  destruct (String.index 0 "." n) as [[|i]|].
  - injection Hm as <-. by apply (aget_aset_ne (V:=json)).
  - destruct (bool_decide _); [done|].
    apply bind_Ok in Hm as (r & Hr & [= <-]).
    by eapply set_nested_frame.
  - injection Hm as <-. by apply (aget_aset_ne (V:=json)).
Qed.

Lemma applyTransform_frame orig mappedItem trans mappedItem' key :
  applyTransform orig mappedItem trans = Ok mappedItem' →
  key ≠ (if truthy (get_prop trans "newId")
         then to_key (get_prop trans "newId")
         else to_key (get_prop trans "id")) →
  obj_get mappedItem' key = obj_get mappedItem key.
Proof.
  unfold applyTransform.
  intros (tid & [-> _]%read_prop_Ok & (v & _ & (tnew & [-> _]%read_prop_Ok & H)
    %bind_Ok)%bind_Ok)%bind_Ok Hne.
  destruct (truthy _); injection H as <-;
    by apply (aget_aset_ne (V:=json)).
Qed.

Lemma mapProperty_frame mappedItem property mappedItem' key :
  mapProperty mappedItem property = Ok mappedItem' →
  key ∉ mapped_keys property →
  obj_get mappedItem' key = obj_get mappedItem key.
Proof.
  unfold mapProperty, mapped_keys. cbv zeta. intros H Hkey.
  apply not_elem_of_cons in Hkey as [Hid Hkey].
  apply not_elem_of_app in Hkey as [Htargets Hrenamed].
  apply bind_Ok in H as (id & [-> _]%read_prop_Ok & H).
  set (id := to_key (get_prop property "id")) in *.
  apply bind_Ok in H as (truth & [-> _]%read_prop_Ok & H).
  apply bind_Ok in H as (skip & [-> _]%read_prop_Ok & H).
  apply bind_Ok in H as (m1 & Hm1 & H).
  assert (obj_get m1 key = obj_get mappedItem key) as <-.
  { destruct (negb (is_undef _)); [|by injection Hm1 as <-].
    destruct (_ || _); [|by injection Hm1 as <-].
    apply bind_Ok in Hm1 as (v & _ & [= <-]).
    by apply (aget_aset_ne (V:=json)). }
  apply bind_Ok in H as (dflt & [-> _]%read_prop_Ok & H).
  apply bind_Ok in H as ([m2 hasVal] & Hm2 & H).
  assert (obj_get m2 key = obj_get m1 key) as <-.
  { destruct (negb (is_undef (default JUndef (obj_get m1 id)))).
    - apply bind_Ok in Hm2 as (transform & [-> _]%read_prop_Ok & Hm2).
      apply bind_Ok in Hm2 as (m2' & Hm2' & [= <- <-]).
      set (stripped := match default JUndef (obj_get m1 id) with
                       | JStr s => if starts_with "/Common/" s
                                   then obj_set m1 id (JStr (drop_prefix 8 s))
                                   else m1
                       | _ => m1
                       end) in *.
      assert (obj_get stripped key = obj_get m1 key) as <-.
      { unfold stripped. destruct (default JUndef (obj_get m1 id)); try done.
        destruct (starts_with _ _); [|done].
        by apply (aget_aset_ne (V:=json)). }
      destruct (truthy (get_prop property "transform")) eqn:Ht;
        [|by injection Hm2' as <-].
      apply bind_Ok in Hm2' as (transforms & Htr & Hloop).
      assert (transforms
              = match get_prop property "transform" with
                | JArr l => filter (λ x, is_undef x = false) l
                | _ => []
                end) as ->.
      { destruct (get_prop property "transform"); try done.
        by injection Htr as <-. }
      eapply (foldM_invariant _
                (λ m, obj_get m key = obj_get stripped key)) in Hloop;
        [done|unfold obj_get, obj_delete;
              by rewrite (aget_adel_ne (V:=json))|].
      intros trans m m' Hin Hstep <-.
      eapply applyTransform_frame; [done|]. intros Heq. apply Htargets.
      apply list_elem_of_fmap. by exists trans.
    - destruct (negb (is_undef (get_prop property "defaultWhenOmitted")));
        simplify_eq; [|done].
      by apply (aget_aset_ne (V:=json)). }
  apply bind_Ok in H as (newId & [-> _]%read_prop_Ok & H).
  destruct (hasVal && _); [|by injection H as <-].
  eapply mapNewId_frame; [done|done|].
  intros n Hn. rewrite Hn in Hrenamed.
  intros Heq. apply Hrenamed. rewrite Heq.
  destruct (String.index 0 "." n) as [[|i]|]; left.
Qed.

(** X21. [mapProperties] passes through, unchanged, every property of the
    item that no descriptor property maps: a key that is no property's
    [id], no target of a [transform] and not the start of a [newId] has in
    the mapped item the value it has in the item. *)
Theorem mapProperties_leaves_other_keys
    (item : json) (index : nat) (properties : list json) (mapped : props)
    (key : string) :
  get_prop (configItem configItems index) "properties" = JArr properties →
  truthy (get_prop (configItem configItems index) "singleValue") = false →
  (∀ property, property ∈ properties → key ∉ mapped_keys property) →
  mapProperties configItems item index = Ok (JObj mapped) →
  obj_get mapped key = obj_get (object_assign [] item) key.
Proof.
  unfold mapProperties. cbv zeta. intros Hprops Hsingle Hkeys H.
  apply bind_Ok in H as (single & [-> _]%read_prop_Ok & H).
  apply bind_Ok in H as (ps & [-> _]%read_prop_Ok & H).
  rewrite Hsingle, Hprops in H.
  apply bind_Ok in H as (ps & [= <-] & H).
  apply fmap_Ok in H as (m & Hloop & [= ->]).
  eapply (foldM_invariant _
            (λ m, obj_get m key = obj_get (object_assign [] item) key))
    in Hloop; [done|done|].
  intros property m1 m2 Hin Hstep <-.
  eapply mapProperty_frame; [done|]. apply Hkeys.
  by apply list_elem_of_filter in Hin as [_ Hin].
Qed.

End mapping_frame.

Section mapping_examples.
Import ConfigManager.

Lemma mapProperties_leaves_other_keys_witness :
  obj_get [("name", JStr "internal-self"); ("vlan", JStr "internal");
           ("floating", JBool false);
           ("group", JObj [("name", JStr "traffic-group-local-only")])]
          "name"
  = obj_get (object_assign [] reported_selfIp) "name".
Proof.
  apply (mapProperties_leaves_other_keys selfIp_configItems reported_selfIp 0
           selfIp_properties).
  - reflexivity.
  - reflexivity.
  - apply (Forall_forall (λ property, "name" ∉ mapped_keys property)).
    apply (bool_decide_eq_true_1
             (Forall (λ property, "name" ∉ mapped_keys property)
                     selfIp_properties)).
    vm_compute. reflexivity.
  - reflexivity.
Defined.

End mapping_examples.

Section parser_plain.
Import DeclarationParser.
Variables (d0 : json) (tn cn k : string) (C v : json).
Hypothesis Hk : isKeyOfInterest k = true.
Hypothesis Hplain : is_object_type v = false.
Hypothesis Htruthy : truthy v = true.

Local Abbreviation ct := (to_key C).
Local Abbreviation name := (fullName C cn k).
Local Abbreviation Pending := (pending_plain tn cn k C v).
Local Abbreviation Filed := (filed_plain tn v ct name).

Lemma of_interest_not_class key : isKeyOfInterest key = true → key ≠ "class".
Proof.
  unfold isKeyOfInterest, KEYS_TO_IGNORE. intros H%bool_decide_eq_true ->.
  apply H. right. left.
Qed.

Lemma plain_step_pending tn' cn' C' st key st' :
  fileProperty tn' cn' C' st key = Ok st' →
  (tn', cn', key) ≠ (tn, cn, k) →
  Pending st → Pending st'.
Proof.
  intros H Hne (Hprop & Hcls & Hshared).
  apply fileProperty_cases in H
    as [[_ ->]|[(Hkey & e & Hd & Hp & He & _)
       |[(Hkey & d & bucket & bucket' & Hd & Hd' & Hset & Hp & Hb)
       |(Hkey & d & d' & a' & b' & c' & Hd & Hsh & Hd' & Hdd & Hp)]]];
    [done|..].
  - unfold pending_plain. rewrite Hd, Hp. split_and!; [done|done|].
    intros ct' tn'' key' a b c. rewrite get_bag_set_bag.
    destruct (decide _) as [[-> ->]|]; [|apply Hshared].
    rewrite aget_aset. destruct (decide (key' = _)) as [->|]; [|apply Hshared].
    intros [= ->]. specialize (He _ _ _ eq_refl). injection He as -> -> ->.
    done.
  - assert (∀ p, length p = 3 → p ≠ [tn'; cn'; key] →
                 get_path d p = get_path (declaration st) p) as Hsame.
    { intros p ??. by eapply update_path_get_other. }
    unfold pending_plain. rewrite Hd' in *. rewrite Hp.
    split_and!.
    + rewrite Hsame; [done|done|congruence].
    + rewrite Hsame; [done|done|].
      intros [= -> -> Heq]. by apply of_interest_not_class in Hkey.
    + intros ct' tn'' key' a b c. rewrite get_bag_set_bag.
      destruct (decide _) as [[-> ->]|]; [|apply Hshared].
      rewrite aget_aset. destruct (decide _); [done|apply Hshared].
  - apply Hshared in Hsh as [Hc' Hnot].
    assert (∀ p, length p = 3 → p ≠ [tn'; cn'; key] → p ≠ [a'; b'; c'] →
                 get_path d' p = get_path (declaration st) p) as Hsame.
    { intros p ???. erewrite (update_path_get_other d); [|done..].
      by eapply update_path_get_other. }
    unfold pending_plain. rewrite Hdd, Hp. split_and!.
    + rewrite Hsame; [done|done|congruence|congruence].
    + rewrite Hsame; [done|done|..].
      * intros [= -> -> Heq]. by apply of_interest_not_class in Hkey.
      * intros [= -> -> Heq]. by apply of_interest_not_class in Hc'.
    + intros ct' tn'' key' a b c. rewrite get_bag_set_bag_self.
      apply Hshared.
Qed.

Lemma plain_step_filed tn' cn' C' st key st' :
  fileProperty tn' cn' C' st key = Ok st' →
  (tn' = tn → to_key C' = ct → fullName C' cn' key ≠ name) →
  Filed st → Filed st'.
Proof.
  intros H Hnames Hf. unfold filed_plain in *.
  apply fileProperty_cases in H
    as [[_ ->]|[(Hkey & e & Hd & Hp & He & _)
       |[(Hkey & d & bucket & bucket' & Hd & Hd' & Hset & Hp & Hb)
       |(Hkey & d & d' & a' & b' & c' & Hd & Hsh & Hd' & Hdd & Hp)]]];
    [done|..]; rewrite Hp.
  - rewrite get_bag_set_bag.
    destruct (decide _) as [[Hct ->]|]; [|done].
    rewrite aget_aset_ne, <-Hct; [done|].
    intros Heq. by apply Hnames.
  - rewrite get_bag_set_bag.
    destruct (decide _) as [[Hct ->]|]; [|done].
    rewrite aget_aset. destruct (decide _) as [Hpc|]; [|by rewrite <-Hct].
    exfalso. rewrite <-Hpc, <-Hct, Hf in Hb.
    destruct Hb as [[[= <-] _]|[_ Hfalse]].
    + by destruct v.
    + specialize (Hfalse _ eq_refl). simpl in Hfalse. congruence.
  - by rewrite get_bag_set_bag_self.
Qed.

Lemma plain_step_target st st' :
  fileProperty tn cn C st k = Ok st' → Pending st → Filed st'.
Proof.
  intros H (Hprop & _). unfold fileProperty in H.
  rewrite Hk, Hprop, Hplain in H. simpl in H. injection H as <-.
  unfold filed_plain. simpl. rewrite get_bag_set_bag, decide_True by done.
  apply aget_aset_eq.
Qed.

(** *** The declaration around the property *)

Variables (top tenant container : props).
Hypothesis Hd0 : d0 = JObj top.
Hypothesis Htop : NoDup top.*1.
Hypothesis Htn : obj_get top tn = Some (JObj tenant).
Hypothesis Htn_int : isKeyOfInterest tn = true.
Hypothesis Htenant : obj_get tenant "class" = Some (JStr "Tenant").
Hypothesis Htenant_nodup : NoDup tenant.*1.
Hypothesis Hcn : obj_get tenant cn = Some (JObj container).
Hypothesis Hcn_int : isKeyOfInterest cn = true.
Hypothesis Hcontainer_nodup : NoDup container.*1.
Hypothesis HC : obj_get container "class" = Some C.
Hypothesis Hprop : obj_get container k = Some v.
Hypothesis Hapart : names_apart tenant cn k name name = true.

Local Abbreviation Frame := (λ st, frame_kept d0 tn (declaration st)).

Lemma plain_names_ok cn' C' key :
  key ∈ obj_keys (own_props (get_path d0 [tn; cn'])) →
  isKeyOfInterest cn' = true → isKeyOfInterest key = true →
  (cn', key) ≠ (cn, k) →
  fullName C' cn' key ≠ name.
Proof.
  rewrite Hd0. simpl. rewrite Htn. simpl.
  destruct (obj_get tenant cn') as [c'|] eqn:Hc'; simpl;
    [|by intros ?%elem_of_nil].
  intros Hkey Hi1 Hi2 Hne. apply aget_Some_elem in Hc'.
  unfold names_apart in Hapart. rewrite forallb_forall in Hapart.
  apply list_elem_of_In, Hapart in Hc'. simpl in Hc'.
  rewrite forallb_forall in Hc'. apply list_elem_of_In, Hc' in Hkey.
  rewrite Hi1, Hi2 in Hkey. simpl in Hkey.
  apply orb_true_iff in Hkey as [Heq|Hkey];
    [by apply bool_decide_eq_true in Heq|].
  apply andb_true_iff in Hkey as [H1%bool_decide_eq_true H2%bool_decide_eq_true].
  unfold fullName. destruct (strict_eqb C' (JStr "System")).
  - intros Heq. apply H1. rewrite Heq. left.
  - intros Heq. apply H2. rewrite Heq. left.
Qed.

Lemma plain_container_other tn' cn' st st' :
  fileContainer tn' st cn' = Ok st' →
  (tn', cn') ≠ (tn, cn) → (tn' = tn → isKeyOfInterest cn' = true) →
  Frame st →
  Frame st' ∧ (Pending st → Pending st') ∧ (Filed st → Filed st').
Proof.
  unfold fileContainer. intros H Hne Hint Hfr.
  apply bind_Ok in H as (C' & HC' & H).
  apply bind_Ok in H as (keys & Hkeys & H).
  set (st1 := State _ _) in H.
  assert (∀ key, key ∈ keys → isKeyOfInterest key = true → tn' = tn →
                 fullName C' cn' key ≠ name)
    as Hnames.
  { intros key Hkey Hi ->.
    apply plain_names_ok; [|by apply Hint|done|congruence].
    destruct Hfr as [_ Hfr]. rewrite <-Hfr.
    by apply object_keys_Ok in Hkeys as [<- _]. }
  assert (∀ key s s', key ∈ keys → fileProperty tn' cn' C' s key = Ok s' →
            (tn' = tn → to_key C' = ct → fullName C' cn' key ≠ name)
            ∨ s' = s) as Hstep.
  { intros key s s' Hkey Hs.
    destruct (isKeyOfInterest key) eqn:Hi; [left; eauto|right].
    unfold fileProperty in Hs. rewrite Hi in Hs. congruence. }
  split_and!.
  - eapply (foldM_invariant _ Frame); [exact H|done|].
    intros key s s' _ Hs. by eapply step_frame.
  - intros Hpend. eapply (foldM_invariant _ Pending); [exact H| |].
    + destruct Hpend as (? & ? & Hsh). unfold pending_plain, st1. simpl.
      split_and!; [done|done|].
      intros ??????. rewrite get_bag_set_bag_self. apply Hsh.
    + intros key s s' Hkey Hs.
      eapply plain_step_pending; [done|congruence].
  - intros Hfiled. eapply (foldM_invariant _ Filed); [exact H| |].
    + unfold filed_plain, st1. simpl. by rewrite get_bag_set_bag_self.
    + intros key s s' Hkey Hs.
      destruct (Hstep key s s') as [Hn| ->]; [done..| |done].
      by eapply plain_step_filed.
Qed.

Lemma plain_container_target st st' :
  fileContainer tn st cn = Ok st' →
  Frame st → Pending st → Frame st' ∧ Filed st'.
Proof.
  unfold fileContainer. intros H Hfr Hpend.
  apply bind_Ok in H as (C' & HC' & H).
  apply bind_Ok in H as (keys & Hkeys & H).
  set (st1 := State _ _) in H.
  apply read_prop_Ok in HC' as [HC' _].
  apply object_keys_Ok in Hkeys as [Hkeys _].
  assert (C' = C) as ->.
  { rewrite HC'. by destruct Hpend as (_ & ? & _). }
  assert (keys = container.*1) as ->.
  { rewrite Hkeys. destruct Hfr as [_ ->]. rewrite Hd0. simpl.
    rewrite Htn. simpl. by rewrite Hcn. }
  assert (Pending st1) as Hpend1.
  { destruct Hpend as (? & ? & Hsh). unfold pending_plain, st1. simpl.
    split_and!; [done|done|].
    intros ??????. rewrite get_bag_set_bag_self. apply Hsh. }
  apply (foldM_once (fileProperty tn cn C)
           (λ s, Frame s ∧ Pending s) (λ s, Frame s ∧ Filed s)
           k container.*1 st1 st'); [done|by eapply aget_Some_key|done|done|..].
  - intros key s s' Hkey Hne Hs.
    assert (isKeyOfInterest key = true → fullName C cn key ≠ name) as Hn.
    { intros Hi. apply plain_names_ok; [|done|done|congruence].
      rewrite Hd0. simpl. rewrite Htn. simpl. by rewrite Hcn. }
    destruct (isKeyOfInterest key) eqn:Hi.
    + split; intros [? ?]; (split; [by eapply step_frame|]).
      * eapply plain_step_pending; [done|congruence|done].
      * eapply plain_step_filed; [done| |done]. intros _ _. by apply Hn.
    + unfold fileProperty in Hs. rewrite Hi in Hs. injection Hs as <-. done.
  - intros s s' Hs [? ?].
    split; [by eapply step_frame|by eapply plain_step_target].
Qed.

Lemma plain_tenant_other tn' st st' :
  fileTenant st tn' = Ok st' → tn' ≠ tn → Frame st →
  Frame st' ∧ (Pending st → Pending st') ∧ (Filed st → Filed st').
Proof.
  unfold fileTenant. intros H Hne Hfr.
  apply bind_Ok in H as (containers & _ & H).
  assert (∀ cn' s s', fileContainer tn' s cn' = Ok s' → Frame s →
            Frame s' ∧ (Pending s → Pending s') ∧ (Filed s → Filed s'))
    as Hstep.
  { intros cn' s s' Hs. eapply plain_container_other; [done|congruence|done]. }
  split_and!.
  - eapply (foldM_invariant _ Frame); [exact H|done|].
    intros cn' s s' _ Hs ?. by eapply Hstep.
  - intros ?. eapply (foldM_invariant _ (λ s, Frame s ∧ Pending s)) in H
      as [_ ?]; [done|done|].
    intros cn' s s' _ Hs [? ?]. apply Hstep in Hs as (? & Hp & _); auto.
  - intros ?. eapply (foldM_invariant _ (λ s, Frame s ∧ Filed s)) in H
      as [_ ?]; [done|done|].
    intros cn' s s' _ Hs [? ?]. apply Hstep in Hs as (? & _ & Hf); auto.
Qed.

Lemma plain_tenant_target st st' :
  fileTenant st tn = Ok st' → Frame st → Pending st → Frame st' ∧ Filed st'.
Proof.
  unfold fileTenant, getKeysOfInterest. intros H Hfr Hpend.
  apply bind_Ok in H as (containers & Hcs & H).
  apply fmap_Ok in Hcs as (keys & Hkeys & ->).
  apply object_keys_Ok in Hkeys as [-> _].
  destruct Hfr as [Hfr1 Hfr2]. rewrite Hfr1, Hd0 in H. simpl in H.
  rewrite Htn in H. simpl in H.
  apply (foldM_once _ (λ s, Frame s ∧ Pending s) (λ s, Frame s ∧ Filed s)
           cn _ st st') in H; [done| | |done|..].
  - by apply NoDup_filter.
  - apply list_elem_of_filter. split; [done|by eapply aget_Some_key].
  - intros cn' s s' [Hi _]%list_elem_of_filter Hne Hs.
    split; intros [? ?];
      eapply plain_container_other in Hs as (? & ? & ?); eauto; congruence.
  - intros s s' Hs [? ?]. by eapply plain_container_target.
Qed.

Lemma filed_plain_resolve st :
  Filed st →
  get_path (resolve (declaration st) (parsed st)) [ct; tn; name] = v.
Proof.
  unfold filed_plain, resolve, get_bag. intros Hf. simpl.
  unfold obj_get. rewrite aget_fmap.
  destruct (aget (parsed st) ct) as [t|] eqn:Ht; [|done]. simpl in *.
  unfold obj_get. rewrite aget_fmap.
  destruct (aget t tn) as [b|] eqn:Hbag; [|done]. simpl in *.
  unfold obj_get. by rewrite aget_fmap, Hf.
Qed.

(** The property is in the parsed document under its full name. *)
Lemma parse_files_plain (out : output) (d' : json) :
  parse d0 = Ok (out, d') →
  get_path (parsedDeclaration out) [ct; tn; name] = v.
Proof.
  unfold parse. intros H.
  apply bind_Ok in H as (tenants & Hts & H).
  apply bind_Ok in H as (st & Hst & H). injection H as <- <-. simpl.
  apply filed_plain_resolve.
  rewrite Hd0, object_assign_fresh in Hts by done.
  eapply (foldM_once fileTenant (λ s, Frame s ∧ Pending s)
            (λ s, Frame s ∧ Filed s) tn tenants) in Hst as [_ ?]; [done|..].
  - eapply sublist_NoDup; [|by eapply filterM_sublist]. done.
  - eapply filterM_elem; [done|by eapply aget_Some_key|].
    cbv beta. rewrite Htn_int, Htn. simpl. by rewrite Htenant.
  - split; [apply frame_kept_refl|]. unfold pending_plain. simpl.
    rewrite Hd0. simpl. rewrite Htn. simpl. rewrite Hcn. simpl.
    rewrite Hprop, HC. simpl. split_and!; done.
  - intros tn' s s' _ Hne Hs.
    split; intros [? ?];
      eapply plain_tenant_other in Hs as (? & ? & ?); eauto.
  - intros s s' Hs [? ?]. by eapply plain_tenant_target.
Qed.

End parser_plain.

Section parser_plain_properties.
Import DeclarationParser.


End parser_plain_properties.

Section parser_plain_examples.
Import DeclarationParser.


End parser_plain_examples.

Section patching_auth.
Import ConfigManager.
Variable RADIUS_SERVER_PREFIX RADIUS_PRIMARY_SERVER RADIUS_SECONDARY_SERVER
  : string.

Local Abbreviation PatchAuth :=
  (patchAuth RADIUS_SERVER_PREFIX RADIUS_PRIMARY_SERVER
             RADIUS_SECONDARY_SERVER).

(** X23. Without [schemaMerge], [patchAuth] builds the class from the item
    alone: [type] is gone, [enabledSourceType] holds it, with
    [activeDirectory] for [active-directory], and every other property is
    the item's.  What the class held before is not looked at. *)
Theorem patchAuth_renames_type
    (schemaMerge authClass : json) (authItem : props) :
  NoDup authItem.*1 → truthy schemaMerge = false →
  ∃ patched,
    PatchAuth schemaMerge authClass (JObj authItem) = Ok (JObj patched)
    ∧ obj_get patched "type" = None
    ∧ obj_get patched "enabledSourceType"
      = Some (let type := default JUndef (obj_get authItem "type") in
              if strict_eqb type (JStr "active-directory")
              then JStr "activeDirectory" else type)
    ∧ ∀ key, key ≠ "type" → key ≠ "enabledSourceType" →
        obj_get patched key = obj_get authItem key.
Proof.
  intros Hnd Hs. unfold patchAuth. rewrite Hs. simpl.
  rewrite object_assign_fresh by done. eexists. split; [done|].
  unfold obj_get, obj_delete, obj_set. split_and!.
  - apply aget_adel_eq.
  - rewrite (aget_adel_ne (V:=json)) by done. apply aget_aset_eq.
  - intros key H1 H2. rewrite (aget_adel_ne (V:=json)) by done.
    by apply (aget_aset_ne (V:=json)).
Qed.

Lemma mapSchemaMerge_replaces obj value opts (path : list json) r :
  mapSchemaMerge obj value opts = Ok r →
  get_prop opts "path" = JArr path → path ≠ [] →
  strict_eqb (get_prop opts "action") (JStr "add") = false →
  truthy (get_prop opts "skipWhenOmitted") = false
  ∨ is_undef value || bool_decide (obj_keys (own_props value) = []) = false →
  get_path r (to_key <$> path) = value.
Proof.
  unfold mapSchemaMerge. intros H Hpath Hne Haction Hcase.
  apply bind_Ok in H as (isOmitted & Homitted & H).
  apply bind_Ok in H as (skip & [-> _]%read_prop_Ok & H).
  assert (isOmitted
          = is_undef value || bool_decide (obj_keys (own_props value) = []))
    as ->.
  { destruct (is_undef value) eqn:Hu; [by injection Homitted as <-|].
    apply bind_Ok in Homitted as (keys & [-> _]%object_keys_Ok & [= <-]).
    simpl. apply bool_decide_ext. split; [by intros ?%nil_length_inv|].
    by intros ->. }
  assert (truthy (get_prop opts "skipWhenOmitted")
          && (is_undef value
              || bool_decide (obj_keys (own_props value) = [])) = false)
    as Hskip.
  { destruct Hcase as [->| ->]; [done|apply andb_false_r]. }
  rewrite Hskip in H.
  apply bind_Ok in H as (p & [-> _]%read_prop_Ok & H). rewrite Hpath in H.
  cbn [mbind result_bind] in H.
  apply bind_Ok in H as (action & [-> _]%read_prop_Ok & H).
  rewrite Haction in H. apply merge_at_replace in H.
  rewrite <-H. rewrite (app_removelast_last JUndef Hne) at 1.
  by rewrite fmap_app.
Qed.

(** X24. With [schemaMerge], a radius server is stored at the path of the
    merge without its name: under [secondary] when it has the name of the
    secondary server, under [primary] when it has that of the primary
    one.  A server with the prefix in its name that is neither of the two
    puts [undefined] at the path, or leaves the class as it was with
    [skipWhenOmitted]. *)
Theorem patchAuth_files_radius_server
    (schemaMerge authClass : json) (authItem : props) (n : string)
    (path : list json) (r : json) :
  truthy schemaMerge = true →
  obj_get authItem "name" = Some (JStr n) →
  is_Some (String.index 0 RADIUS_SERVER_PREFIX n) → n ≠ "" →
  get_prop schemaMerge "path" = JArr path → path ≠ [] →
  strict_eqb (get_prop schemaMerge "action") (JStr "add") = false →
  PatchAuth schemaMerge authClass (JObj authItem) = Ok r →
  (n = RADIUS_SECONDARY_SERVER → n ≠ RADIUS_PRIMARY_SERVER →
   get_path r (to_key <$> path)
   = JObj [("secondary", JObj (obj_delete authItem "name"))])
  ∧ (n = RADIUS_PRIMARY_SERVER → n ≠ RADIUS_SECONDARY_SERVER →
     get_path r (to_key <$> path)
     = JObj [("primary", JObj (obj_delete authItem "name"))])
  ∧ (n ≠ RADIUS_PRIMARY_SERVER → n ≠ RADIUS_SECONDARY_SERVER →
     if truthy (get_prop schemaMerge "skipWhenOmitted")
     then r = (if truthy authClass then JObj (object_assign [] authClass)
               else JObj [])
     else get_path r (to_key <$> path) = JUndef).
Proof.
  intros Hs Hname Hprefix Hn Hpath Hne Haction H.
  unfold patchAuth in H. rewrite Hs in H. cbn [negb] in H.
  cbn [read_prop get_prop] in H. rewrite Hname in H.
  cbn [default from_option id mbind result_bind] in H.
  rewrite bool_decide_eq_true_2 in H by done.
  assert (truthy (JStr n) = true) as Ht.
  { simpl. by rewrite bool_decide_eq_false_2. }
  rewrite Ht in H. cbn [delete_prop mbind result_bind] in H.
  split_and!.
  - intros Hsec Hpri. rewrite (bool_decide_eq_true_2 _ Hsec) in H.
    by eapply mapSchemaMerge_replaces; [done..|right].
  - intros Hpri Hsec. rewrite (bool_decide_eq_false_2 _ Hsec) in H.
    rewrite (bool_decide_eq_true_2 _ Hpri) in H.
    by eapply mapSchemaMerge_replaces; [done..|right].
  - intros Hpri Hsec. rewrite (bool_decide_eq_false_2 _ Hsec) in H.
    rewrite (bool_decide_eq_false_2 _ Hpri) in H.
    destruct (truthy (get_prop schemaMerge "skipWhenOmitted")) eqn:Hskip.
    + unfold mapSchemaMerge in H. simpl in H.
      apply bind_Ok in H as (skip & [-> _]%read_prop_Ok & H).
      rewrite Hskip in H. simpl in H. injection H as <-.
      by destruct (truthy authClass).
    + by eapply mapSchemaMerge_replaces; [done..|left].
Qed.

End patching_auth.

Section patching_auth_examples.
Import ConfigManager.

Lemma patchAuth_renames_type_witness :
  ∃ patched,
    patchAuth "system_auth_name" "system_auth_name1" "system_auth_name2"
              JUndef (JObj [("enabledSourceType", JStr "local")])
              (JObj reported_auth) = Ok (JObj patched)
    ∧ obj_get patched "type" = None
    ∧ obj_get patched "enabledSourceType"
      = Some (let type := default JUndef (obj_get reported_auth "type") in
              if strict_eqb type (JStr "active-directory")
              then JStr "activeDirectory" else type)
    ∧ ∀ key, key ≠ "type" → key ≠ "enabledSourceType" →
        obj_get patched key = obj_get reported_auth key.
Proof.
  apply (patchAuth_renames_type "system_auth_name" "system_auth_name1"
           "system_auth_name2" JUndef
           (JObj [("enabledSourceType", JStr "local")]) reported_auth).
  - apply (bool_decide_eq_true_1 (NoDup reported_auth.*1)).
    vm_compute. reflexivity.
  - reflexivity.
Defined.

Lemma patchAuth_files_radius_server_witness :
  get_path
    (JObj [("enabledSourceType", JStr "radius");
           ("radius",
            JObj [("servers",
                   JObj [("primary",
                          JObj [("server", JStr "1.2.3.4");
                                ("port", JNum 1812)])])])])
    ["radius"; "servers"]
  = JObj [("primary", JObj [("server", JStr "1.2.3.4"); ("port", JNum 1812)])].
Proof.
  destruct (patchAuth_files_radius_server "system_auth_name"
              "system_auth_name1" "system_auth_name2" radius_merge
              (JObj [("enabledSourceType", JStr "radius")])
              reported_radius_server "system_auth_name1"
              [JStr "radius"; JStr "servers"]
              (JObj [("enabledSourceType", JStr "radius");
                     ("radius",
                      JObj [("servers",
                             JObj [("primary",
                                    JObj [("server", JStr "1.2.3.4");
                                          ("port", JNum 1812)])])])]))
    as (_ & Hprimary & _);
    [reflexivity|reflexivity|by eexists|discriminate|reflexivity
    |discriminate|reflexivity|reflexivity|].
  apply Hprimary; [reflexivity|discriminate].
Defined.

End patching_auth_examples.

Section manager_db_items.
Import ConfigManager.
Variable configItems : list json.
Variable bigIp_list : string → result json.
Variable regex_test : json → json → bool.
Variable url_parse : string → string * string.
Variable querystring_parse : string → alist string.
Variable querystring_stringify : alist string → string.
Variable RADIUS_SERVER_PREFIX RADIUS_PRIMARY_SERVER RADIUS_SECONDARY_SERVER
  : string.

Local Abbreviation FileItem :=
  (fileItem configItems bigIp_list regex_test url_parse querystring_parse
            querystring_stringify RADIUS_SERVER_PREFIX RADIUS_PRIMARY_SERVER
            RADIUS_SECONDARY_SERVER).

(** X25. A db variable that the device reports and that is not of interest
    leaves the current config as it is: nothing is filed for it. *)
Theorem fileItem_drops_other_db_variables
    (dbVars : list json) (index : nat) (currentConfig : props)
    (referenceInfo : list (string * reference)) (item : json)
    (w w' : world) (acc' : props * list (string * reference)) :
  get_prop (configItem configItems index) "schemaClass" = JStr "DbVariables" →
  includes dbVars (get_prop item "name") = false →
  FileItem dbVars index (currentConfig, referenceInfo) item w
  = (Done acc', w') →
  acc'.1 = currentConfig.
Proof.
  intros Hsc Hname. revert w acc' w'.
  change (gives (FileItem dbVars index (currentConfig, referenceInfo) item)
                (λ acc', acc'.1 = currentConfig)).
  unfold fileItem. cbv zeta. rewrite Hsc, Hname.
  cbn [strict_eqb andb negb].
  apply gives_lift_bind. intros ignored _.
  destruct ignored; [by apply gives_ret|].
  apply gives_lift_bind. intros patchedItem _.
  apply gives_lift_bind. intros name _.
  apply gives_lift_bind. intros name' _.
  change (bool_decide ("DbVariables" = "RemoteAuthRole")) with false.
  change (bool_decide ("DbVariables" = "Authentication")) with false.
  change (bool_decide ("DbVariables" = "DbVariables")) with true.
  cbn [andb].
  apply gives_lift_bind. intros patchedItem' _.
  apply gives_lift_bind. intros [currentConfig' dropped] [= <- <-].
  cbn [truthy].
  apply gives_lift_bind. intros currentConfig' [= <-].
  eapply gives_bind; [apply gives_true|]. intros referenceInfo' _.
  by apply gives_ret.
Qed.

End manager_db_items.

Section manager_db_item_examples.
Import ConfigManager.

Lemma fileItem_drops_other_db_variables_witness :
  (([("VLAN", JObj [])] : props, [] : list (string * reference))).1
  = [("VLAN", JObj [])].
Proof.
  apply (fileItem_drops_other_db_variables example_configItems
           (device_with (Ok interfaces_of_external)) example_regex_test
           example_url_parse example_querystring_parse
           example_querystring_stringify
           "system_auth_name" "system_auth_name1" "system_auth_name2"
           [JStr "ui.advisory.text"] 1 [("VLAN", JObj [])] []
           other_db_variable fresh_world fresh_world).
  - reflexivity.
  - reflexivity.
  - vm_compute. reflexivity.
Defined.

End manager_db_item_examples.

Section mapping_truth.
Import ConfigManager.
Variable configItems : list json.

Lemma mapProperty_truth mappedItem property mappedItem' :
  mapProperty mappedItem property = Ok mappedItem' →
  is_undef (get_prop property "truth") = false →
  truthy (get_prop property "transform") = false →
  is_undef (get_prop property "newId") = true →
  let id := to_key (get_prop property "id") in
  let v := default JUndef (obj_get mappedItem id) in
  (is_undef v = false ∨ truthy (get_prop property "skipWhenOmitted") = false →
   obj_get mappedItem' id
   = Some (JBool (truthy v && strict_eqb v (get_prop property "truth"))))
  ∧ (is_undef v = true →
     truthy (get_prop property "skipWhenOmitted") = true →
     is_undef (get_prop property "defaultWhenOmitted") = true →
     mappedItem' = mappedItem).
Proof.
  unfold mapProperty. cbv zeta. intros H Htruth Htransform HnewId.
  apply bind_Ok in H as (id & [-> _]%read_prop_Ok & H).
  set (id := to_key (get_prop property "id")) in *.
  apply bind_Ok in H as (truth & [-> _]%read_prop_Ok & H).
  apply bind_Ok in H as (skip & [-> _]%read_prop_Ok & H).
  rewrite Htruth in H. cbn [negb] in H.
  apply bind_Ok in H as (m1 & Hm1 & H).
  apply bind_Ok in H as (dflt & [-> _]%read_prop_Ok & H).
  apply bind_Ok in H as ([m2 hasVal] & Hm2 & H).
  apply bind_Ok in H as (newId & [-> _]%read_prop_Ok & H).
  rewrite HnewId, andb_false_r in H. injection H as <-.
  set (v := default JUndef (obj_get mappedItem id)) in *.
  split.
  - intros Hcase.
    assert (negb (is_undef v)
            || negb (truthy (get_prop property "skipWhenOmitted")) = true)
      as Hmap.
    { destruct Hcase as [-> | ->]; [done|apply orb_true_r]. }
    rewrite Hmap in Hm1.
    apply bind_Ok in Hm1 as (b & Hb & [= <-]).
    assert (b = JBool (truthy v
                       && strict_eqb v (get_prop property "truth"))) as ->.
    { unfold mapTruth in Hb.
      apply bind_Ok in Hb as (id' & [-> _]%read_prop_Ok & Hb).
      fold id v in Hb. destruct (truthy v); [|by injection Hb as <-].
      by apply bind_Ok in Hb as (t & [-> _]%read_prop_Ok & [= <-]). }
    unfold obj_get, obj_set in Hm2. rewrite (aget_aset_eq (V:=json)) in Hm2.
    cbn [default from_option id is_undef negb] in Hm2.
    apply bind_Ok in Hm2 as (transform & [-> _]%read_prop_Ok & Hm2).
    rewrite Htransform in Hm2. cbn [mbind result_bind] in Hm2.
    injection Hm2 as <- _. apply (aget_aset_eq (V:=json)).
  - intros Hv Hskip Hdflt. rewrite Hv, Hskip in Hm1. simpl in Hm1.
    injection Hm1 as <-. fold v in Hm2. rewrite Hv, Hdflt in Hm2.
    simpl in Hm2. by injection Hm2 as <- _.
Qed.

(** X26. [mapProperties] turns a property with a [truth] into a boolean: [true]
    when the item has the truth value, [false] for another value and for
    a missing one.  With [skipWhenOmitted] and no default a missing
    property stays missing. *)
Theorem mapProperties_maps_truth
    (item : json) (index : nat) (before after : list json) (property : json)
    (mapped : props) :
  get_prop (configItem configItems index) "properties"
  = JArr (before ++ property :: after) →
  truthy (get_prop (configItem configItems index) "singleValue") = false →
  is_undef (get_prop property "truth") = false →
  truthy (get_prop property "transform") = false →
  is_undef (get_prop property "newId") = true →
  (∀ other, other ∈ before ++ after →
     to_key (get_prop property "id") ∉ mapped_keys other) →
  mapProperties configItems item index = Ok (JObj mapped) →
  let id := to_key (get_prop property "id") in
  let v := default JUndef (obj_get (object_assign [] item) id) in
  (is_undef v = false ∨ truthy (get_prop property "skipWhenOmitted") = false →
   obj_get mapped id
   = Some (JBool (truthy v && strict_eqb v (get_prop property "truth"))))
  ∧ (is_undef v = true →
     truthy (get_prop property "skipWhenOmitted") = true →
     is_undef (get_prop property "defaultWhenOmitted") = true →
     obj_get mapped id = obj_get (object_assign [] item) id).
Proof.
  unfold mapProperties. cbv zeta.
  intros Hprops Hsingle Htruth Htransform HnewId Hothers H.
  apply bind_Ok in H as (single & [-> _]%read_prop_Ok & H).
  apply bind_Ok in H as (ps & [-> _]%read_prop_Ok & H).
  rewrite Hsingle, Hprops in H.
  apply bind_Ok in H as (ps & [= <-] & H).
  apply fmap_Ok in H as (m & Hloop & [= ->]).
  assert (is_undef property = false) as Hdef by (by destruct property).
  rewrite filter_app, filter_cons, decide_True in Hloop by done.
  rewrite foldM_app in Hloop. apply bind_Ok in Hloop as (m1 & H1 & Hloop).
  simpl in Hloop. apply bind_Ok in Hloop as (m2 & Hat & H2).
  set (id := to_key (get_prop property "id")) in *.
  assert (obj_get m1 id = obj_get (object_assign [] item) id) as Hm1.
  { eapply (foldM_invariant _
              (λ m, obj_get m id = obj_get (object_assign [] item) id));
      [exact H1|done|].
    intros other s s' [_ Hin]%list_elem_of_filter Hstep <-.
    eapply mapProperty_frame; [done|]. apply Hothers, elem_of_app.
    by left. }
  assert (obj_get m id = obj_get m2 id) as Hm2.
  { eapply (foldM_invariant _ (λ m, obj_get m id = obj_get m2 id));
      [exact H2|done|].
    intros other s s' [_ Hin]%list_elem_of_filter Hstep <-.
    eapply mapProperty_frame; [done|]. apply Hothers, elem_of_app.
    by right. }
  apply mapProperty_truth in Hat as [Hmapped Hskipped]; [|done..].
  fold id in Hmapped, Hskipped. rewrite Hm1 in Hmapped, Hskipped.
  rewrite Hm2. split.
  - apply Hmapped.
  - intros Hv Hskip Hdflt. by rewrite (Hskipped Hv Hskip Hdflt).
Qed.

End mapping_truth.

Section mapping_truth_examples.
Import ConfigManager.

Lemma mapProperties_maps_truth_witness :
  obj_get [("name", JStr "internal-self"); ("vlan", JStr "internal");
           ("floating", JBool false);
           ("group", JObj [("name", JStr "traffic-group-local-only")])]
          "floating"
  = Some (JBool false).
Proof.
  destruct (mapProperties_maps_truth selfIp_configItems reported_selfIp 0
              [JObj [("id", JStr "vlan")];
               JObj [("id", JStr "trafficGroup");
                     ("newId", JStr "group.name")]]
              []
              (JObj [("id", JStr "floating"); ("truth", JStr "enabled")])
              [("name", JStr "internal-self"); ("vlan", JStr "internal");
               ("floating", JBool false);
               ("group", JObj [("name", JStr "traffic-group-local-only")])])
    as [Hmapped _].
  - reflexivity.
  - reflexivity.
  - reflexivity.
  - reflexivity.
  - reflexivity.
  - apply (Forall_forall
             (λ other, "floating" ∉ mapped_keys other)).
    apply (bool_decide_eq_true_1
             (Forall (λ other, "floating" ∉ mapped_keys other)
                     ([JObj [("id", JStr "vlan")];
                       JObj [("id", JStr "trafficGroup");
                             ("newId", JStr "group.name")]] ++ []))).
    vm_compute. reflexivity.
  - reflexivity.
  - apply Hmapped. left. reflexivity.
Defined.

End mapping_truth_examples.
